(** * The MCP gateway of [src/index.js]: dispatch, two-tier cache,
      session context and aggregation handlers, as a shallow embedding.

    The development follows the source file top-down:
    - [JS]: the values the gateway receives (parsed JSON), the language
      built-ins the source calls on them ([JSON.stringify], template
      literals, [String.prototype.includes], truthiness) and plain
      objects with their property enumeration order;
    - [Gateway]: the process state ([memoryCache], the Redis tier,
      [contextStore]), the effect monad, the handlers and the
      [app.post('/mcp')] dispatcher;
    - [Vybe]: the client of the analytics API of
      [src/services/vybe-service.js], with the requests it sends;
    - [Analytics]: the handlers of [src/index.js] that query this
      client and format its answer;
    - the properties of the dispatcher, of the handlers and of the
      client. *)

From Stdlib Require Import ZArith NArith Lia Ascii Permutation Sorted.
From stdpp Require Import base option strings list gmap pretty.

#[local] Set Warnings "-register-all".

Open Scope string_scope.
Open Scope list_scope.
Open Scope stdpp_scope.
Open Scope Z_scope.

(* ===================================================================== *)
(** * JavaScript values and built-ins *)
(* ===================================================================== *)

Module JS.

(** A value obtained from [JSON.parse] (the request body parsed by
    [express.json()], an upstream payload). Numbers are the integers of
    the wire format: the doubles of the program are among them from
    -(2^53 - 1) to 2^53 - 1, and a property that depends on the value
    of a number is stated for that range. An absent property
    ([undefined]) is [None] at the place where the property is read.
    The entries of [JObj] are the own properties in enumeration
    order. *)
Inductive json : Type :=
| JNull
| JBool (b : bool)
| JNum (n : Z)
| JStr (s : string)
| JArr (l : list json)
| JObj (o : list (string * json)).

(** [if (v)], [!v], [v || d]: ToBoolean. *)
Definition truthy (v : json) : bool :=
  match v with
  | JNull => false
  | JBool b => b
  | JNum n => negb (n =? 0)
  | JStr s => negb (String.eqb s EmptyString)
  | JArr _ | JObj _ => true
  end.

(** ToBoolean of a possibly [undefined] value. *)
Definition truthy_opt (v : option json) : bool :=
  match v with
  | Some x => truthy x
  | None => false
  end.

(** [s.includes(needle)] on strings. *)
Fixpoint includes (needle s : string) : bool :=
  String.prefix needle s ||
  match s with
  | EmptyString => false
  | String _ r => includes needle r
  end.

(** Equality of two parsed values as [===] sees it when one side is a
    string literal: only a string with the same characters is equal. *)
Definition strict_eq_str (v : json) (lit : string) : bool :=
  match v with
  | JStr s => String.eqb s lit
  | _ => false
  end.

(** ** [JSON.stringify] *)

Definition hex_digit (n : N) : ascii :=
  ascii_of_N (if (n <? 10)%N then 48 + n else 87 + n)%N.

Definition dquote : string := String (ascii_of_N 34) EmptyString.

(** One code unit of QuoteJSONString. *)
Definition quote_char (c : ascii) : string :=
  let n := N_of_ascii c in
  if (n =? 34)%N then String "\" dquote
  else if (n =? 92)%N then "\\"
  else if (n =? 8)%N then "\b"
  else if (n =? 12)%N then "\f"
  else if (n =? 10)%N then "\n"
  else if (n =? 13)%N then "\r"
  else if (n =? 9)%N then "\t"
  else if (n <? 32)%N then
    "\u00" +:+ String (hex_digit (n / 16)) (String (hex_digit (n mod 16)) EmptyString)
  else String c EmptyString.

Fixpoint quote_body (s : string) : string :=
  match s with
  | EmptyString => EmptyString
  | String c r => quote_char c +:+ quote_body r
  end.

Definition quote (s : string) : string := dquote +:+ quote_body s +:+ dquote.

Fixpoint stringify (v : json) : string :=
  match v with
  | JNull => "null"
  | JBool true => "true"
  | JBool false => "false"
  | JNum n => pretty n
  | JStr s => quote s
  | JArr l => "[" +:+ String.concat "," (List.map stringify l) +:+ "]"
  | JObj o =>
      "{" +:+ String.concat ","
                (List.map (fun kv => quote (fst kv) +:+ ":" +:+ stringify (snd kv)) o)
          +:+ "}"
  end.

(** [JSON.stringify(v)] where [v] may be [undefined], spliced into a
    template literal: [undefined] prints as the word. *)
Definition stringify_opt (v : option json) : string :=
  match v with
  | Some x => stringify x
  | None => "undefined"
  end.

(** ** Template literals: ToString *)

Fixpoint to_string (v : json) : string :=
  match v with
  | JNull => "null"
  | JBool true => "true"
  | JBool false => "false"
  | JNum n => pretty n
  | JStr s => s
  | JArr l =>
      String.concat ","
        (List.map (fun x => match x with JNull => EmptyString | _ => to_string x end) l)
  | JObj _ => "[object Object]"
  end.

(** ** Plain objects

    An object literal [{}] filled by assignments [o[k] = v]. The list
    holds the own properties in the order [Object.keys], [Object.entries]
    and [JSON.stringify] visit them: array-index keys first, ascending,
    then the other keys in the order of their creation. *)

Definition obj (V : Type) : Type := list (string * V).

Definition digit (c : ascii) : option N :=
  let n := N_of_ascii c in
  if ((48 <=? n) && (n <=? 57))%N then Some (n - 48)%N else None.

Fixpoint digits (s : string) (acc : N) : option N :=
  match s with
  | EmptyString => Some acc
  | String c r =>
      match digit c with
      | Some d => digits r (10 * acc + d)%N
      | None => None
      end
  end.

(** A property key is an array index when it is the canonical decimal
    form of an integer below 2^32 - 1. *)
Definition array_index (k : string) : option N :=
  match k with
  | EmptyString => None
  | String c r =>
      if Ascii.eqb c "0" && negb (String.eqb r EmptyString) then None
      else match digits k 0 with
           | Some n => if (n <? 4294967295)%N then Some n else None
           | None => None
           end
  end.

Definition is_index (k : string) : bool :=
  match array_index k with Some _ => true | None => false end.

Section Obj.
Context {V : Type}.

Fixpoint get (k : string) (o : obj V) : option V :=
  match o with
  | [] => None
  | (k', v) :: r => if String.eqb k k' then Some v else get k r
  end.

Definition has (k : string) (o : obj V) : bool :=
  match get k o with Some _ => true | None => false end.

(** Assignment to a property that exists keeps its place. *)
Fixpoint replace (k : string) (v : V) (o : obj V) : obj V :=
  match o with
  | [] => []
  | (k', v') :: r =>
      if String.eqb k k' then (k', v) :: r else (k', v') :: replace k v r
  end.

(** A new array-index key goes before the first key that is not an
    index or is a larger index. *)
Fixpoint insert_index (i : N) (k : string) (v : V) (o : obj V) : obj V :=
  match o with
  | [] => [(k, v)]
  | (k', v') :: r =>
      match array_index k' with
      | Some j =>
          if (j <? i)%N then (k', v') :: insert_index i k v r
          else (k, v) :: o
      | None => (k, v) :: o
      end
  end.

Definition set (k : string) (v : V) (o : obj V) : obj V :=
  if has k o then replace k v o
  else match array_index k with
       | Some i => insert_index i k v o
       | None => o ++ [(k, v)]
       end.

Definition keys (o : obj V) : list string := List.map fst o.

(** The object built from a sequence of assignments, first to last. *)
Definition from_entries (l : list (string * V)) : obj V :=
  fold_left (fun o kv => set (fst kv) (snd kv) o) l [].
End Obj.

(** Names every plain object inherits from [Object.prototype]: reading
    one of them on an object that has no own property of that name
    yields the inherited (truthy) value. *)
Definition object_prototype_keys : list string :=
  [ "constructor"; "__proto__"; "hasOwnProperty"; "isPrototypeOf";
    "propertyIsEnumerable"; "toLocaleString"; "toString"; "valueOf";
    "__defineGetter__"; "__defineSetter__"; "__lookupGetter__";
    "__lookupSetter__" ].

Definition inherited (k : string) : bool :=
  existsb (String.eqb k) object_prototype_keys.

(** [a.slice(-n)]: the last [n] elements (all of them when there are
    fewer). *)
Definition slice_last {A : Type} (n : nat) (a : list A) : list A :=
  skipn (length a - n) a.

(** [a.slice(0, n)]. *)
Definition slice_first {A : Type} (n : nat) (a : list A) : list A :=
  firstn n a.

End JS.

(* ===================================================================== *)
(** * The gateway process *)
(* ===================================================================== *)

Module Gateway.
Import JS.

(** ** Thrown values

    Every value the source throws or catches is an [Error]: [message],
    the JSON-RPC [code] some throw sites attach, the [httpCode] the
    dispatcher looks for and the HTTP-like [status] a provider SDK
    attaches to a failed completion. *)
Record js_error : Type := mk_error {
  message : string;
  code : option Z;
  httpCode : option Z;
  status : option Z
}.

(** [new Error(msg)] followed by [error.code = c]. *)
Definition coded_error (msg : string) (c : Z) : js_error :=
  {| message := msg; code := Some c; httpCode := None; status := None |}.

(** An [Error] that carries a message only ([new Error(msg)], a
    [TypeError] or [SyntaxError] of the engine). *)
Definition plain_error (msg : string) : js_error :=
  {| message := msg; code := None; httpCode := None; status := None |}.

(** ** Conversation turns *)

Record turn : Type := mk_turn {
  role : string;
  content : json
}.

(** ** Collaborators outside the process *)

(** The argument of [chat.completions.create] / [messages.create]. *)
Record completion_request : Type := mk_request {
  req_model : json;
  req_max_tokens : json;
  req_messages : list turn
}.

(** A completion either resolves to a response, of which the source
    reads the content of element 0 only ([choices[i].message.content],
    [content[i].text]), or rejects with an error. *)
Inductive provider_outcome : Type :=
| Reply (contents : list json)
| Fail (e : js_error).

(** [VybeService._request]: resolves to the parsed body or rejects. *)
Inductive upstream_outcome : Type :=
| Resolved (result : json)
| Rejected (e : js_error).

Inductive provider : Type := OpenAI | Anthropic.

Inductive upstream_op : Type := WalletTokens | WalletNfts.

(** The result of a method handler that is not modelled in detail. *)
Inductive handler_outcome : Type :=
| Returned (result : json)
| Threw (e : js_error).

(** What the environment answers during one request. [now] is the clock
    ([Date.now()], milliseconds) when the request arrives and
    [now_after] the clock once its handler has returned.
    [redis_configured] is [redisClient] being non-null, [redis_ready]
    and [redis_ready_after] its [isReady] flag at those two times; the
    two [fails] fields make the [get] / [set] on the client reject. The
    provider answers by attempt number (counted from 0). When several
    promises of a [Promise.all] reject, [first_rejection] tells which of
    the rejections, in array order, comes first in time and settles the
    aggregate. [format_amount] is [Number(v).toLocaleString()] and
    [format_usd] the printing of [Number(v)] in a template literal. *)
Record env : Type := mk_env {
  now : Z;
  now_after : Z;
  redis_configured : bool;
  redis_ready : bool;
  redis_ready_after : bool;
  redis_get_fails : option js_error;
  redis_set_fails : option js_error;
  JSON_parse : string -> option json;
  openai_create : nat -> completion_request -> provider_outcome;
  anthropic_create : nat -> completion_request -> provider_outcome;
  request_wallet_tokens : json -> upstream_outcome;
  request_wallet_nfts : json -> upstream_outcome;
  first_rejection : nat;
  other_handler : string -> option json -> handler_outcome;
  format_amount : option json -> string;
  format_usd : json -> string
}.

(** ** Process state *)

(** [memoryCache] holds a value with the time it expires, the Redis tier
    a serialized payload with the time it expires, [contextStore] the
    turns of a session. A [Map] compares keys by identity: two parsed
    arrays or objects are never the same key, which is why the store is
    a list of bindings and not a finite map. *)
Record state : Type := mk_state {
  memoryCache : gmap string (json * Z);
  redis : gmap string (string * Z);
  contextStore : list (json * list turn)
}.

(** ** Observable effects of one request, in the order they happen *)
Inductive event : Type :=
| EvTier1Get (key : string)
| EvTier1Set (key : string) (value : json)
| EvTier2Get (key : string)
| EvTier2Set (key : string) (payload : string) (ex : Z)
| EvHandler (name : string)
| EvProvider (p : provider) (attempt : nat) (r : completion_request)
| EvSleep (ms : Z)
| EvUpstream (op : upstream_op) (address : json).

(** ** The effect monad: state, exceptions, a trace, and fuel for the
    one loop of the source. *)
Inductive outcome (A : Type) : Type :=
| Ret (a : A)
| Throw (e : js_error)
| OutOfFuel.
Arguments Ret {A} a.
Arguments Throw {A} e.
Arguments OutOfFuel {A}.

Definition M (A : Type) : Type := state -> outcome A * state * list event.

Definition ret {A} (a : A) : M A := fun s => (Ret a, s, []).

Definition throw {A} (e : js_error) : M A := fun s => (Throw e, s, []).

Definition out_of_fuel {A} : M A := fun s => (OutOfFuel, s, []).

Definition bind {A B} (m : M A) (k : A -> M B) : M B :=
  fun s =>
    match m s with
    | (Ret a, s1, t1) =>
        match k a s1 with
        | (r, s2, t2) => (r, s2, t1 ++ t2)
        end
    | (Throw e, s1, t1) => (Throw e, s1, t1)
    | (OutOfFuel, s1, t1) => (OutOfFuel, s1, t1)
    end.

(** [try { m } catch (e) { h e }]. *)
Definition try_catch {A} (m : M A) (h : js_error -> M A) : M A :=
  fun s =>
    match m s with
    | (Throw e, s1, t1) =>
        match h e s1 with
        | (r, s2, t2) => (r, s2, t1 ++ t2)
        end
    | r => r
    end.

Definition emit (ev : event) : M unit := fun s => (Ret tt, s, [ev]).

Definition get_state : M state := fun s => (Ret s, s, []).

Definition put_state (s' : state) : M unit := fun _ => (Ret tt, s', []).

#[global] Instance M_ret : MRet M := @ret.
#[global] Instance M_bind : MBind M := fun A B k m => bind m k.
#[global] Instance M_fmap : FMap M := fun A B f m => bind m (fun a => ret (f a)).

(** Projections of a run. *)
Definition result_of {A} (r : outcome A * state * list event) : outcome A := r.1.1.
Definition state_of {A} (r : outcome A * state * list event) : state := r.1.2.
Definition trace_of {A} (r : outcome A * state * list event) : list event := r.2.

(** ** [contextStore]: a [Map] keyed by the [session_id] value *)

(** SameValueZero on parsed values: primitives compare by value, an
    array or object of one request is never the one of another. *)
Definition same_value_zero (a b : json) : bool :=
  match a, b with
  | JNull, JNull => true
  | JBool x, JBool y => Bool.eqb x y
  | JNum x, JNum y => x =? y
  | JStr x, JStr y => String.eqb x y
  | _, _ => false
  end.

Fixpoint map_get {V} (k : json) (m : list (json * V)) : option V :=
  match m with
  | [] => None
  | (k', v) :: r => if same_value_zero k k' then Some v else map_get k r
  end.

Fixpoint map_set {V} (k : json) (v : V) (m : list (json * V)) : list (json * V) :=
  match m with
  | [] => [(k, v)]
  | (k', v') :: r =>
      if same_value_zero k k' then (k', v) :: r else (k', v') :: map_set k v r
  end.

Fixpoint map_delete {V} (k : json) (m : list (json * V)) : list (json * V) :=
  match m with
  | [] => []
  | (k', v') :: r =>
      if same_value_zero k k' then r else (k', v') :: map_delete k r
  end.

(** ** Reading the handler argument *)

(** [v.k] on a parsed value: an own property of an object, [undefined]
    otherwise (none of the names the handlers read is inherited). *)
Definition prop (v : json) (k : string) : option json :=
  match v with
  | JObj o => get k o
  | _ => None
  end.

(** A handler declared [function h({ a, b })]: destructuring [undefined]
    or [null] throws a [TypeError] (whose text is the engine's). *)
Definition destructure (params : option json) : M json :=
  match params with
  | None | Some JNull => throw (plain_error "Cannot destructure the handler argument")
  | Some v => ret v
  end.

(** A default in a destructuring pattern ([model = 'gpt-4o']) and the
    value of a binding known to be defined. *)
Definition default_to (d : json) (v : option json) : json :=
  match v with
  | Some x => x
  | None => d
  end.

Definition typeof_string (v : option json) : bool :=
  match v with
  | Some (JStr _) => true
  | _ => false
  end.

(** [{ content: [ { type: 'text', text } ] }] *)
Definition text_result (text : json) : json :=
  JObj [("content", JArr [JObj [("type", JStr "text"); ("text", text)]])].

(** [a[0]] spliced into an array literal; the source reads it on
    arrays of more than 10 elements only. *)
Definition index0 {A} (a : list A) : list A := firstn 1 a.

(** ** Retry of a completion *)

Definition maxAttempts : nat := 3.

(** [apiError.status === 429 || apiError.status >= 500]; both are false
    on an error without a status. *)
Definition is_retryable (apiError : js_error) : bool :=
  match status apiError with
  | Some st => (st =? 429) || (500 <=? st)
  | None => false
  end.

(** The [while(attempts < maxAttempts)] loop of both generative
    handlers. [create n] is the completion call of attempt [n]. The
    result is the value of [response] when the loop is left: [None] is
    [undefined]. One unit of fuel is one iteration. *)
Fixpoint retry_loop (p : provider) (r : completion_request)
    (create : nat -> completion_request -> provider_outcome)
    (fuel attempts : nat) : M (option (list json)) :=
  if (attempts <? maxAttempts)%nat then
    match fuel with
    | O => out_of_fuel
    | S fuel' =>
        emit (EvProvider p attempts r);;
        match create attempts r with
        | Reply response => ret (Some response)
        | Fail apiError =>
            let attempts' := S attempts in
            if (maxAttempts <=? attempts')%nat || negb (is_retryable apiError)
            then throw apiError
            else
              let waitTime := 2 ^ Z.of_nat attempts' * 1000 in
              emit (EvSleep waitTime);;
              retry_loop p r create fuel' attempts'
        end
    end
  else ret None.

(** [response.choices[0].message.content] / [response.content[0].text]:
    reading through a missing element throws a [TypeError]. *)
Definition first_content (response : option (list json)) : M json :=
  match response with
  | Some (c :: _) => ret c
  | _ => throw (plain_error "Cannot read properties of undefined")
  end.

Section WithEnv.
Variable E : env.

Definition set_context (session_id : json) (turns : list turn) : M unit :=
  s ← get_state;
  put_state {| memoryCache := memoryCache s; redis := redis s;
               contextStore := map_set session_id turns (contextStore s) |}.

Definition delete_context (session_id : json) : M unit :=
  s ← get_state;
  put_state {| memoryCache := memoryCache s; redis := redis s;
               contextStore := map_delete session_id (contextStore s) |}.

Definition handleOpenAIGenerate (fuel : nat) (params : option json) : M json :=
  args ← destructure params;
  let prompt := prop args "prompt" in
  let model := default_to (JStr "gpt-4o") (prop args "model") in
  let max_tokens := default_to (JNum 1000) (prop args "max_tokens") in
  let session_id := prop args "session_id" in
  if negb (truthy_opt prompt) || negb (typeof_string prompt) then
    throw (coded_error "Prompt is required and must be a string" (-32602))
  else if negb (truthy_opt session_id) then
    throw (coded_error "session_id is required" (-32602))
  else
    let prompt := default_to JNull prompt in
    let session_id := default_to JNull session_id in
    try_catch
      (s ← get_state;
       let previousMessages := default [] (map_get session_id (contextStore s)) in
       let messages := previousMessages ++ [mk_turn "user" prompt] in
       response ← retry_loop OpenAI (mk_request model max_tokens messages)
                    (openai_create E) fuel 0;
       responseContent ← first_content response;
       let updatedMessages := messages ++ [mk_turn "assistant" responseContent] in
       let contextToStore :=
         if (10 <? length updatedMessages)%nat
         then index0 updatedMessages ++ slice_last 9 updatedMessages
         else updatedMessages in
       set_context session_id contextToStore;;
       ret (text_result responseContent))
      (fun error =>
         throw (coded_error ("OpenAI error: " +:+ message error) (-32000))).

Definition handleAnthropicGenerate (fuel : nat) (params : option json) : M json :=
  args ← destructure params;
  let prompt := prop args "prompt" in
  let model := default_to (JStr "claude-3-5-sonnet-20240620") (prop args "model") in
  let max_tokens := default_to (JNum 1000) (prop args "max_tokens") in
  let session_id := prop args "session_id" in
  if negb (truthy_opt prompt) || negb (typeof_string prompt) then
    throw (coded_error "Prompt is required and must be a string" (-32602))
  else if negb (truthy_opt session_id) then
    throw (coded_error "session_id is required" (-32602))
  else
    let prompt := default_to JNull prompt in
    let session_id := default_to JNull session_id in
    try_catch
      (s ← get_state;
       let previousMessages := default [] (map_get session_id (contextStore s)) in
       let messages := previousMessages ++ [mk_turn "user" prompt] in
       response ← retry_loop Anthropic (mk_request model max_tokens messages)
                    (anthropic_create E) fuel 0;
       responseContent ← first_content response;
       let updatedMessages := messages ++ [mk_turn "assistant" responseContent] in
       let contextToStore :=
         if (10 <? length updatedMessages)%nat
         then index0 updatedMessages ++ slice_last 9 updatedMessages
         else updatedMessages in
       set_context session_id contextToStore;;
       ret (text_result responseContent))
      (fun error =>
         throw (coded_error ("Anthropic error: " +:+ message error) (-32000))).

Definition handleClearContext (params : option json) : M json :=
  args ← destructure params;
  let session_id := prop args "session_id" in
  if negb (truthy_opt session_id) then
    throw (coded_error "session_id is required" (-32602))
  else
    delete_context (default_to JNull session_id);;
    ret (text_result (JStr "Context cleared successfully")).

(** ** Upstream calls and [Promise.all] *)

(** [VybeService.getWalletTokens(ownerAddress, ...)]: throws at once on
    a falsy address, otherwise issues the request and returns its
    promise (here: what the promise settles to). *)
Definition getWalletTokens (ownerAddress : option json) : M upstream_outcome :=
  if negb (truthy_opt ownerAddress) then
    throw (plain_error "ownerAddress parameter is required.")
  else
    let a := default_to JNull ownerAddress in
    emit (EvUpstream WalletTokens a);;
    ret (request_wallet_tokens E a).

Definition getWalletNfts (ownerAddress : option json) : M upstream_outcome :=
  if negb (truthy_opt ownerAddress) then
    throw (plain_error "ownerAddress parameter is required.")
  else
    let a := default_to JNull ownerAddress in
    emit (EvUpstream WalletNfts a);;
    ret (request_wallet_nfts E a).

Definition rejections (ps : list upstream_outcome) : list js_error :=
  omap (fun p => match p with Rejected e => Some e | Resolved _ => None end) ps.

Definition resolutions (ps : list upstream_outcome) : list json :=
  omap (fun p => match p with Resolved v => Some v | Rejected _ => None end) ps.

(** [await Promise.all(ps)]: the values in array order when every
    promise resolves, otherwise the rejection that came first. *)
Definition promise_all (ps : list upstream_outcome) : M (list json) :=
  match rejections ps with
  | [] => ret (resolutions ps)
  | (e0 :: _) as errs => throw (default e0 (errs !! first_rejection E))
  end.

(** ** [handleSolanaWalletOverview] *)

(** The value of a [+] chain that starts from the number 0: a number as
    long as every operand is numeric, a string from the first string
    operand on. *)
Inductive sum_value : Type :=
| SNum (n : Z)
| SStr (s : string).

Definition sum_to_string (a : sum_value) : string :=
  match a with
  | SNum n => pretty n
  | SStr s => s
  end.

(** [sum + v]; on numbers, the sum of the program as long as the
    operands and the result are integers from -(2^53 - 1) to
    2^53 - 1. *)
Definition js_plus (sum : sum_value) (v : json) : sum_value :=
  match sum, v with
  | SNum x, JNum y => SNum (x + y)
  | SNum x, JBool b => SNum (x + (if b then 1 else 0))
  | SNum x, JNull => SNum x
  | _, _ => SStr (sum_to_string sum +:+ to_string v)
  end.

(** [total += part] *)
Definition js_plus_sum (total part : sum_value) : sum_value :=
  match total, part with
  | SNum x, SNum y => SNum (x + y)
  | _, _ => SStr (sum_to_string total +:+ sum_to_string part)
  end.

(** [x || y] *)
Definition or_else (x : option json) (y : json) : json :=
  match x with
  | Some v => if truthy v then v else y
  | None => y
  end.

(** [data.reduce((sum, item) => sum + price(item), 0)] where [price]
    reads properties of [item]: reading a property of [null] throws. *)
Fixpoint reduce_sum (price : json -> json) (data : list json) (sum : sum_value)
  : M sum_value :=
  match data with
  | [] => ret sum
  | JNull :: _ => throw (plain_error "Cannot read properties of null")
  | item :: rest => reduce_sum price rest (js_plus sum (price item))
  end.

(** [result && result.data], then [data.length] and [data.reduce]: the
    pair of the count and the sum, [None] when the guard is falsy. A
    truthy [data] that is not an array has no [reduce]. *)
Definition count_and_sum (price : json -> json) (result : json)
  : M (option (nat * sum_value)) :=
  if truthy result && truthy_opt (prop result "data") then
    match prop result "data" with
    | Some (JArr data) =>
        sum ← reduce_sum price data (SNum 0);
        ret (Some (length data, sum))
    | _ => throw (plain_error "data.reduce is not a function")
    end
  else ret None.

Definition nl : string := String (ascii_of_N 10) EmptyString.

Definition handleSolanaWalletOverview (params : option json) : M json :=
  args ← destructure params;
  let address := prop args "address" in
  if negb (truthy_opt address) then
    throw (coded_error "Wallet address is required" (-32602))
  else
    try_catch
      (tokensPromise ← getWalletTokens address;
       nftsPromise ← getWalletNfts address;
       results ← promise_all [tokensPromise; nftsPromise];
       let tokensResult := default JNull (results !! 0%nat) in
       let nftsResult := default JNull (results !! 1%nat) in
       tokens ← count_and_sum (fun token => or_else (prop token "valueUsd") (JNum 0))
                  tokensResult;
       let '(tokenCount, totalUsdValue) :=
         match tokens with
         | Some (n, sum) => (n, js_plus_sum (SNum 0) sum)
         | None => (0%nat, SNum 0)
         end in
       nfts ← count_and_sum
                (fun nft => or_else (prop nft "valueUsd")
                              (or_else (prop nft "usdPrice") (JNum 0)))
                nftsResult;
       let '(nftCount, totalUsdValue) :=
         match nfts with
         | Some (n, sum) => (n, js_plus_sum totalUsdValue sum)
         | None => (0%nat, totalUsdValue)
         end in
       let formattedUsdValue :=
         match totalUsdValue with
         | SNum n => pretty n
         | SStr _ => "N/A"
         end in
       ret (text_result (JStr (
         "Wallet Overview for " +:+ to_string (default_to JNull address) +:+ ":" +:+ nl +:+
         "Total USD Value: $" +:+ formattedUsdValue +:+ nl +:+
         "Number of Tokens: " +:+ pretty tokenCount +:+ nl +:+
         "Number of NFTs: " +:+ pretty nftCount))))
      (fun error =>
         throw (coded_error ("Error fetching Solana data: " +:+ message error) (-32000))).

(** ** [handleSolanaCrossAnalysis] *)

(** [{ amount, usdValue }] *)
Record holding : Type := mk_holding {
  amount : option json;
  usdValue : json
}.

(** [{ symbol, holders }]: a value of [tokensByMint]. *)
Record token_entry : Type := mk_entry {
  symbol : json;
  holders : obj holding
}.

(** A value used as a property key ([o[v]]): its string form. *)
Definition property_key (v : option json) : string :=
  match v with
  | Some x => to_string x
  | None => "undefined"
  end.

(** [addresses.map(address => VybeService.getWalletTokens(address, ...))]:
    the calls are issued in array order; a throwing call ends the map. *)
Fixpoint issue_wallet_tokens (addresses : list json) : M (list upstream_outcome) :=
  match addresses with
  | [] => ret []
  | address :: rest =>
      p ← getWalletTokens (Some address);
      ps ← issue_wallet_tokens rest;
      ret (p :: ps)
  end.

(** [addresses.forEach((address, index) => { addressNames[address] =
    `Wallet ${ index + 1 }` })]; assigning a string to [__proto__] has
    no effect. *)
Fixpoint name_addresses (addresses : list json) (index : nat)
    (addressNames : obj string) : obj string :=
  match addresses with
  | [] => addressNames
  | address :: rest =>
      let k := property_key (Some address) in
      name_addresses rest (S index)
        (if String.eqb k "__proto__" then addressNames
         else set k ("Wallet " +:+ pretty (index + 1)%nat) addressNames)
  end.

(** [holders[address] = h]: an assignment to [__proto__] replaces the
    prototype and adds no own property. *)
Definition add_holder (address : string) (h : holding) (holders : obj holding)
  : obj holding :=
  if String.eqb address "__proto__" then holders else set address h holders.

(** The body of [result.data.forEach(token => ...)] for one token. A
    mint that names a property inherited from [Object.prototype] reads
    as present, and the assignment through its missing [holders]
    throws. *)
Definition record_token (address : string) (token : json)
    (tokensByMint : obj token_entry) : M (obj token_entry) :=
  match token with
  | JNull => throw (plain_error "Cannot read properties of null")
  | _ =>
      let mint := property_key (prop token "mintAddress") in
      let h := {| amount := prop token "amount";
                  usdValue := or_else (prop token "valueUsd") (JNum 0) |} in
      match get mint tokensByMint with
      | Some entry =>
          ret (set mint {| symbol := symbol entry;
                           holders := add_holder address h (holders entry) |}
                 tokensByMint)
      | None =>
          if inherited mint then
            throw (plain_error "Cannot set properties of undefined")
          else
            ret (set mint {| symbol := or_else (prop token "symbol") (JStr "Unknown");
                             holders := add_holder address h [] |}
                   tokensByMint)
      end
  end.

Fixpoint record_tokens (address : string) (data : list json)
    (tokensByMint : obj token_entry) : M (obj token_entry) :=
  match data with
  | [] => ret tokensByMint
  | token :: rest =>
      tokensByMint' ← record_token address token tokensByMint;
      record_tokens address rest tokensByMint'
  end.

(** The body of [tokenResults.forEach((result, index) => ...)] for one
    result: [result?.data] guards the inner loop. *)
Definition record_result (address : json) (result : json)
    (tokensByMint : obj token_entry) : M (obj token_entry) :=
  match result with
  | JNull => ret tokensByMint
  | _ =>
      if truthy_opt (prop result "data") then
        match prop result "data" with
        | Some (JArr data) =>
            record_tokens (property_key (Some address)) data tokensByMint
        | _ => throw (plain_error "result.data.forEach is not a function")
        end
      else ret tokensByMint
  end.

(** [tokenResults.forEach((result, index) => { const address =
    addresses[index]; ... })] *)
Fixpoint record_results (addresses : list json) (tokenResults : list json)
    (tokensByMint : obj token_entry) : M (obj token_entry) :=
  match tokenResults, addresses with
  | result :: results, address :: rest =>
      tokensByMint' ← record_result address result tokensByMint;
      record_results rest results tokensByMint'
  | _, _ => ret tokensByMint
  end.

(** [Object.keys(data.holders).length] *)
Definition holders_count (e : string * token_entry) : nat :=
  length (keys (holders e.2)).

(** [.sort((a, b) => count(b) - count(a))]: the sort is stable, an
    element stays before the later elements of the same count. *)
Fixpoint insert_desc (x : string * token_entry) (l : list (string * token_entry))
  : list (string * token_entry) :=
  match l with
  | [] => [x]
  | y :: r =>
      if (holders_count x <? holders_count y)%nat then y :: insert_desc x r
      else x :: y :: r
  end.

Definition sort_desc (l : list (string * token_entry)) : list (string * token_entry) :=
  foldr insert_desc [] l.

(** [Object.entries(tokensByMint).filter(...).sort(...)] *)
Definition commonTokens (tokensByMint : obj token_entry) : list (string * token_entry) :=
  sort_desc (List.filter (fun e => (1 <? holders_count e)%nat) tokensByMint).

(** One line per holder of a listed token. *)
Definition holder_line (addressNames : obj string) (h : string * holding) : string :=
  nl +:+ "   - " +:+ default "undefined" (get h.1 addressNames) +:+ ": " +:+
  format_amount E (amount h.2) +:+ " ($" +:+ format_usd E (usdValue h.2) +:+ ")".

(** The body of [commonTokens.slice(0, 10).forEach(([ mint, data ],
    index) => ...)] *)
Definition token_block (addressNames : obj string) (total : nat)
    (index : nat) (e : string * token_entry) : string :=
  nl +:+ pretty (index + 1)%nat +:+ ". " +:+ to_string (symbol e.2) +:+ " (" +:+
  pretty (holders_count e) +:+ "/" +:+ pretty total +:+ " wallets):" +:+
  String.concat EmptyString (List.map (holder_line addressNames) (holders e.2)).

Definition commonTokensData (addressNames : obj string) (total : nat)
    (common : list (string * token_entry)) : string :=
  match common with
  | [] => nl +:+ "No common tokens found between addresses"
  | _ =>
      String.concat EmptyString
        (imap (token_block addressNames total) (slice_first 10 common))
  end.

Definition handleSolanaCrossAnalysis (params : option json) : M json :=
  args ← destructure params;
  match prop args "addresses" with
  | Some (JArr (a :: rest)) =>
      let addresses := a :: rest in
      try_catch
        (tokenPromises ← issue_wallet_tokens addresses;
         tokenResults ← promise_all tokenPromises;
         let addressNames := name_addresses addresses 0 [] in
         tokensByMint ← record_results addresses tokenResults [];
         let common := commonTokens tokensByMint in
         ret (text_result (JStr (
           "Cross-analysis of " +:+ pretty (length addresses) +:+ " addresses:" +:+ nl +:+
           "        " +:+ nl +:+
           "Common tokens:" +:+
           commonTokensData addressNames (length addresses) common))))
        (fun error =>
           throw (coded_error ("Error in cross analysis: " +:+ message error) (-32000)))
  | _ => throw (coded_error "An array of addresses is required" (-32602))
  end.

(** ** The two cache tiers *)

(** [new NodeCache({ stdTTL: 120, ... })] and [{ EX: 300 }], seconds. *)
Definition stdTTL : Z := 120.
Definition redisEX : Z := 300.

(** [memoryCache.get(key)]: an entry past its time is dropped and
    reads as [undefined]. *)
Definition memoryCache_get (key : string) : M (option json) :=
  emit (EvTier1Get key);;
  s ← get_state;
  match memoryCache s !! key with
  | Some (v, t) =>
      if t <? now E then
        put_state {| memoryCache := delete key (memoryCache s); redis := redis s;
                     contextStore := contextStore s |};;
        ret None
      else ret (Some v)
  | None => ret None
  end.

(** [memoryCache.set(key, value)] at time [clock], with the default
    TTL. *)
Definition memoryCache_set (clock : Z) (key : string) (value : json) : M unit :=
  emit (EvTier1Set key value);;
  s ← get_state;
  put_state {| memoryCache := <[key := (value, clock + stdTTL * 1000)]> (memoryCache s);
               redis := redis s; contextStore := contextStore s |}.

(** [await redisClient.get(key)]: the payload, [null] for a missing or
    expired key, or a rejection. *)
Definition redisClient_get (key : string) : M (option string) :=
  emit (EvTier2Get key);;
  match redis_get_fails E with
  | Some redisError => throw redisError
  | None =>
      s ← get_state;
      match redis s !! key with
      | Some (payload, t) => if now E <? t then ret (Some payload) else ret None
      | None => ret None
      end
  end.

(** [await redisClient.set(key, payload, { EX: ex })], which the
    dispatcher calls after the handler only. *)
Definition redisClient_set (key payload : string) (ex : Z) : M unit :=
  emit (EvTier2Set key payload ex);;
  match redis_set_fails E with
  | Some redisError => throw redisError
  | None =>
      s ← get_state;
      put_state {| memoryCache := memoryCache s;
                   redis := <[key := (payload, now_after E + ex * 1000)]> (redis s);
                   contextStore := contextStore s |}
  end.

(** [JSON.parse(text)] *)
Definition parse (text : string) : M json :=
  match JSON_parse E text with
  | Some v => ret v
  | None => throw (plain_error "Unexpected token in JSON")
  end.

(** ** The dispatcher: [app.post('/mcp', ...)] *)

Record envelope : Type := mk_envelope {
  jsonrpc : option json;
  method : option json;
  params : option json;
  id : option json
}.

(** The body of a response: [{ jsonrpc: '2.0', result, id }] or
    [{ jsonrpc: '2.0', error: { code, message }, id }]. *)
Inductive rpc_body : Type :=
| RpcResult (result : json) (id : option json)
| RpcError (code : Z) (message : string) (id : option json).

Record response : Type := mk_response {
  http_status : Z;
  body : rpc_body
}.

(** [method.includes(marker)]: substring search on a string, element
    search on an array, a [TypeError] on anything else. *)
Definition method_includes (method : json) (marker : string) : M bool :=
  match method with
  | JStr s => ret (includes marker s)
  | JArr l => ret (existsb (fun x => strict_eq_str x marker) l)
  | _ => throw (plain_error "method.includes is not a function")
  end.

(** [!method.includes('_generate') && !method.includes('context')] *)
Definition cacheable (method : json) : M bool :=
  g ← method_includes method "_generate";
  if negb g then
    c ← method_includes method "context";
    ret (negb c)
  else ret false.

(** [method.includes('_overview') || method.includes('_details') ||
    method.includes('_holders')] *)
Definition high_value (method : json) : M bool :=
  o ← method_includes method "_overview";
  if (o : bool) then ret true
  else
    d ← method_includes method "_details";
    if (d : bool) then ret true
    else method_includes method "_holders".

(** [`${ method }:${ JSON.stringify(params) }`] *)
Definition cacheKey (method : json) (params : option json) : string :=
  to_string method +:+ ":" +:+ stringify_opt params.

(** The first part of the [try] block: a response served from a cache
    tier, or [None] to go on to the handler. *)
Definition cache_lookup (method : json) (params id : option json)
  : M (option response) :=
  c ← cacheable method;
  if (c : bool) then
    let key := cacheKey method params in
    cachedResult ← memoryCache_get key;
    if truthy_opt cachedResult then
      ret (Some {| http_status := 200;
                   body := RpcResult (default_to JNull cachedResult) id |})
    else if redis_configured E && redis_ready E then
      try_catch
        (redisResult ← redisClient_get key;
         match redisResult with
         | Some text =>
             if negb (String.eqb text EmptyString) then
               parsedResult ← parse text;
               memoryCache_set (now E) key parsedResult;;
               ret (Some {| http_status := 200; body := RpcResult parsedResult id |})
             else ret None
         | None => ret None
         end)
        (fun redisError => ret None)
    else ret None
  else ret None.

(** The handlers that are plain upstream queries, by method name. *)
Definition other_methods : list string :=
  [ "solana_wallet_tokens"; "solana_wallet_nfts"; "solana_wallet_pnl";
    "solana_token_details"; "solana_token_price"; "solana_token_ohlc";
    "solana_token_holders"; "solana_program_details"; "solana_program_metrics";
    "solana_program_users"; "solana_token_transfers"; "solana_trades";
    "solana_whale_movements"; "solana_market_sentiment";
    "solana_network_activity" ].

Definition run_other (name : string) (params : option json) : M json :=
  match other_handler E name params with
  | Returned result => ret result
  | Threw e => throw e
  end.

(** [switch(method) { case ...: result = await handler(params) }]:
    [None] is the [default] branch. Cases compare with [===]. *)
Definition route (fuel : nat) (method : json) (params : option json)
  : M (option json) :=
  match method with
  | JStr name =>
      if String.eqb name "openai_generate" then
        emit (EvHandler name);; Some <$> handleOpenAIGenerate fuel params
      else if String.eqb name "anthropic_generate" then
        emit (EvHandler name);; Some <$> handleAnthropicGenerate fuel params
      else if String.eqb name "clear_context" then
        emit (EvHandler name);; Some <$> handleClearContext params
      else if String.eqb name "solana_wallet_overview" then
        emit (EvHandler name);; Some <$> handleSolanaWalletOverview params
      else if String.eqb name "solana_cross_analysis" then
        emit (EvHandler name);; Some <$> handleSolanaCrossAnalysis params
      else if existsb (String.eqb name) other_methods then
        emit (EvHandler name);; Some <$> run_other name params
      else ret None
  | _ => ret None
  end.

(** The part of the [try] block after the [switch]. *)
Definition cache_populate (method : json) (params : option json) (result : json)
  : M unit :=
  c ← cacheable method;
  if (c : bool) then
    let key := cacheKey method params in
    memoryCache_set (now_after E) key result;;
    if redis_configured E && redis_ready_after E then
      hv ← high_value method;
      if (hv : bool) then
        try_catch (redisClient_set key (stringify result) redisEX)
                  (fun redisError => ret tt)
      else ret tt
    else ret tt
  else ret tt.

(** [error.code || -32603], [error.httpCode || 500],
    [error.message || 'Internal server error'] *)
Definition number_or (v : option Z) (d : Z) : Z :=
  match v with
  | Some n => if n =? 0 then d else n
  | None => d
  end.

Definition error_response (error : js_error) (id : option json) : response :=
  {| http_status := number_or (httpCode error) 500;
     body := RpcError (number_or (code error) (-32603))
               (if String.eqb (message error) EmptyString
                then "Internal server error" else message error)
               id |}.

Definition dispatch (fuel : nat) (req : envelope) : M response :=
  if negb (match jsonrpc req with Some v => strict_eq_str v "2.0" | None => false end)
     || negb (truthy_opt (method req))
     || negb (truthy_opt (id req))
  then
    ret {| http_status := 400;
           body := RpcError (-32600) "Invalid JSON-RPC request" (Some JNull) |}
  else
    let method := default_to JNull (method req) in
    let params := params req in
    let id := id req in
    try_catch
      (served ← cache_lookup method params id;
       match served with
       | Some res => ret res
       | None =>
           routed ← route fuel method params;
           match routed with
           | None =>
               ret {| http_status := 404;
                      body := RpcError (-32601)
                                ("Method '" +:+ to_string method +:+ "' not found") id |}
           | Some result =>
               cache_populate method params result;;
               ret {| http_status := 200; body := RpcResult result id |}
           end
       end)
      (fun error => ret (error_response error id)).

End WithEnv.

(** ** The rules as the specification words them *)

(** "if length > 10, keep element 0 (anchor) concatenated with the last
    9 elements; otherwise unchanged" *)
Definition truncate_spec (turns : list turn) : list turn :=
  match turns with
  | anchor :: _ =>
      if (10 <? length turns)%nat
      then anchor :: skipn (length turns - 9) turns
      else turns
  | [] => []
  end.

End Gateway.

(* ===================================================================== *)
(** * The analytics client of [src/services/vybe-service.js] *)
(* ===================================================================== *)

Module Vybe.
Import JS Gateway.

(** ** What leaves the process

    One call of [fetch]: the string given to [new URL] (the base URL
    followed by the path), the pairs appended to its [searchParams] in
    order, the HTTP method, the [X-API-Key] header and the body. How
    the URL class serializes path and pairs is left to the network. *)
Record fetch_request : Type := mk_fetch {
  href : string;
  searchParams : list (string * string);
  http_method : string;
  api_key_header : string;
  request_body : option string
}.

(** Reading the body of a response: [response.json()],
    [response.text()]. *)
Inductive body_read (A : Type) : Type :=
| Read (a : A)
| Unreadable (e : js_error).
Arguments Read {A} a.
Arguments Unreadable {A} e.

Record http_response : Type := mk_http {
  res_status : Z;
  res_statusText : string;
  res_json : body_read json;
  res_text : body_read string
}.

(** [response.ok] *)
Definition res_ok (r : http_response) : bool :=
  (200 <=? res_status r) && (res_status r <=? 299).

Inductive fetch_outcome : Type :=
| Responds (r : http_response)
| NetworkError (e : js_error).

(** The world of the client: the environment variable, the network,
    and the order in time of the rejections of one [Promise.all] (as
    [first_rejection] in the gateway). The last three fields are
    built-ins the handlers call on upstream values:
    [v.toLocaleString()] on a value that is not a string, [x.toFixed(6)]
    on a number, and whether a string converts to a number above 0. *)
Record world : Type := mk_world {
  VYBE_API_KEY : option string;
  fetch : fetch_request → fetch_outcome;
  first_rejected : nat;
  toLocaleString : json → string;
  toFixed6 : Z → string;
  string_above_zero : string → bool
}.

(** ** Effects: the calls of [fetch] in order, and exceptions *)

Inductive result (A : Type) : Type :=
| Ok (a : A)
| Err (e : js_error).
Arguments Ok {A} a.
Arguments Err {A} e.

Definition W (A : Type) : Type := (result A * list fetch_request)%type.

Definition ret {A} (a : A) : W A := (Ok a, []).

Definition throw {A} (e : js_error) : W A := (Err e, []).

Definition bind {A B} (m : W A) (k : A → W B) : W B :=
  match m with
  | (Ok a, t1) => match k a with (r, t2) => (r, t1 ++ t2) end
  | (Err e, t1) => (Err e, t1)
  end.

(** [try { m } catch (e) { h e }] *)
Definition try_catch {A} (m : W A) (h : js_error → W A) : W A :=
  match m with
  | (Err e, t1) => match h e with (r, t2) => (r, t1 ++ t2) end
  | r => r
  end.

Definition issue (q : fetch_request) : W unit := (Ok tt, [q]).

#[global] Instance W_ret : MRet W := @ret.
#[global] Instance W_bind : MBind W := fun A B k m => bind m k.

Definition outcome_of {A} (r : W A) : result A := r.1.
Definition fetches {A} (r : W A) : list fetch_request := r.2.

(** A promise, by what it settles to; [await]. *)
Definition await (p : upstream_outcome) : W json :=
  match p with
  | Resolved v => ret v
  | Rejected e => throw e
  end.

(** An [async] function: what its body throws rejects its promise. *)
Definition async (body : W json) : W upstream_outcome :=
  match body with
  | (Ok v, t) => (Ok (Resolved v), t)
  | (Err e, t) => (Ok (Rejected e), t)
  end.

(** ** Arguments

    A parameter object of a client function: [undefined], [null], or
    an object with its own properties in enumeration order, a property
    being [undefined] ([None]) or a value. *)
Definition properties : Type := list (string * option json).

Inductive argument : Type :=
| Undefined
| Null
| Object (o : properties).

(** [params = {}] in a parameter list. *)
Definition or_empty (params : argument) : argument :=
  match params with
  | Undefined => Object []
  | _ => params
  end.

(** [o.k] where [o] is such an object. *)
Definition field (o : properties) (k : string) : option json :=
  match get k o with
  | Some v => v
  | None => None
  end.

Section WithWorld.
Variable V : world.

Definition _BASE_URL : string := "https://api.vybenetwork.xyz".

(** [_getApiKey()] *)
Definition _getApiKey : W string :=
  match VYBE_API_KEY V with
  | Some apiKey =>
      if String.eqb apiKey EmptyString
      then throw (plain_error
             "API Key Error: The 'VYBE_API_KEY' environment variable is not set.")
      else ret apiKey
  | None => throw (plain_error
             "API Key Error: The 'VYBE_API_KEY' environment variable is not set.")
  end.

(** [Object.keys(queryParams).forEach(key => { if (queryParams[key] !==
    undefined && queryParams[key] !== null) url.searchParams.append(key,
    queryParams[key]) })] *)
Fixpoint append_defined (queryParams : properties) : list (string * string) :=
  match queryParams with
  | [] => []
  | (key, None) :: rest | (key, Some JNull) :: rest => append_defined rest
  | (key, Some v) :: rest => (key, to_string v) :: append_defined rest
  end.

(** The error [_request] throws on a response that is not [ok]: the
    body as JSON, or else as text. *)
Definition api_error (response : http_response) : W json :=
  errorBody ← match res_json response with
              | Read v => ret (stringify v)
              | Unreadable _ =>
                  match res_text response with
                  | Read text => ret (quote text)
                  | Unreadable e => throw e
                  end
              end;
  throw (plain_error ("API Error: " +:+ pretty (res_status response) +:+ " " +:+
                      res_statusText response +:+ " - " +:+ errorBody)).

(** [static async _request(path, method = 'GET', queryParams = null,
    body = null)]. Every path of the client starts with a slash, and on
    the base URL followed by such a path [new URL] does not throw. *)
Definition _request (path method : string) (queryParams body : argument)
  : W upstream_outcome :=
  async (
    apiKey ← _getApiKey;
    let search :=
      match queryParams with
      | Object o => append_defined o
      | _ => []
      end in
    let options_body :=
      match body with
      | Object o =>
          if String.eqb method "POST"
          then Some (stringify (JObj (omap (fun kv => pair kv.1 <$> kv.2) o)))
          else None
      | _ => None
      end in
    let q := {| href := _BASE_URL +:+ path; searchParams := search;
                http_method := method; api_key_header := apiKey;
                request_body := options_body |} in
    try_catch
      (issue q;;
       match fetch V q with
       | NetworkError e => throw e
       | Responds response =>
           if negb (res_ok response) then api_error response
           else if res_status response =? 204 then ret (JObj [])
           else match res_json response with
                | Read v => ret v
                | Unreadable e => throw e
                end
       end)
      (fun error =>
         throw (plain_error ("Vybe API request failed for path " +:+ path +:+ ": " +:+
                             message error)))).

(** ** Endpoints *)

Definition getWalletPnl (ownerAddress : option json) (params : argument)
  : W upstream_outcome :=
  if negb (truthy_opt ownerAddress) then
    throw (plain_error "ownerAddress parameter is required to get wallet PnL.")
  else _request ("/account/pnl/" +:+ property_key ownerAddress) "GET" (or_empty params) Null.

Definition getProgramRanking (params : argument) : W upstream_outcome :=
  _request "/program/ranking" "GET" (or_empty params) Null.

Definition getKnownAccounts (params : argument) : W upstream_outcome :=
  _request "/account/known-accounts" "GET" (or_empty params) Null.

Definition getWalletNfts (ownerAddress : option json) (params : argument)
  : W upstream_outcome :=
  if negb (truthy_opt ownerAddress) then
    throw (plain_error "ownerAddress parameter is required.")
  else _request ("/account/nft-balance/" +:+ property_key ownerAddress) "GET"
         (or_empty params) Null.

(** [!wallets || !Array.isArray(wallets) || wallets.length === 0] *)
Definition no_wallets (wallets : option json) : bool :=
  match wallets with
  | Some (JArr (_ :: _)) => false
  | _ => true
  end.

(** [const { a, b } = params]: taking apart [null] throws. *)
Definition fields_of (params : argument) : W properties :=
  match or_empty params with
  | Object o => ret o
  | _ => throw (plain_error "Cannot destructure the parameter object")
  end.

Definition postWalletNftsMany (wallets : option json) (params : argument)
  : W upstream_outcome :=
  if no_wallets wallets then
    throw (plain_error "wallets parameter (array of strings) is required.")
  else
    o ← fields_of params;
    let queryParams :=
      [("includeNoPriceBalance", field o "includeNoPriceBalance");
       ("limit", field o "limit"); ("page", field o "page");
       ("sortByAsc", field o "sortByAsc"); ("sortByDesc", field o "sortByDesc")] in
    let body := [("wallets", wallets)] in
    _request "/account/nft-balances" "POST" (Object queryParams) (Object body).

Definition getWalletTokensTimeSeries (ownerAddress : option json) (params : argument)
  : W upstream_outcome :=
  if negb (truthy_opt ownerAddress) then
    throw (plain_error "ownerAddress parameter is required.")
  else _request ("/account/token-balance-ts/" +:+ property_key ownerAddress) "GET"
         (or_empty params) Null.

Definition getWalletTokens (ownerAddress : option json) (params : argument)
  : W upstream_outcome :=
  if negb (truthy_opt ownerAddress) then
    throw (plain_error "ownerAddress parameter is required.")
  else _request ("/account/token-balance/" +:+ property_key ownerAddress) "GET"
         (or_empty params) Null.

Definition postWalletTokensMany (wallets : option json) (params : argument)
  : W upstream_outcome :=
  if no_wallets wallets then
    throw (plain_error "wallets parameter (array of strings) is required.")
  else
    o ← fields_of params;
    let queryParams :=
      [("includeNoPriceBalance", field o "includeNoPriceBalance");
       ("limit", field o "limit"); ("page", field o "page");
       ("sortByAsc", field o "sortByAsc"); ("sortByDesc", field o "sortByDesc")] in
    let body := [("wallets", wallets)] in
    _request "/account/token-balances" "POST" (Object queryParams) (Object body).

Definition postWalletTokensTimeSeriesMany (wallets : option json) (params : argument)
  : W upstream_outcome :=
  if no_wallets wallets then
    throw (plain_error "wallets parameter (array of strings) is required.")
  else
    o ← fields_of params;
    let queryParams := [("days", field o "days")] in
    let body := [("wallets", wallets)] in
    _request "/account/token-balances-ts" "POST" (Object queryParams) (Object body).

Definition getKnownProgramAccounts (params : argument) : W upstream_outcome :=
  _request "/program/known-program-accounts" "GET" (or_empty params) Null.

Definition getProgramDetails (programID : option json) : W upstream_outcome :=
  if negb (truthy_opt programID) then
    throw (plain_error "programID parameter is required.")
  else _request ("/program/" +:+ property_key programID) "GET" Null Null.

Definition getProgramActiveUsers (programId : option json) (params : argument)
  : W upstream_outcome :=
  if negb (truthy_opt programId) then
    throw (plain_error "programId parameter is required.")
  else _request ("/program/" +:+ property_key programId +:+ "/active-users") "GET"
         (or_empty params) Null.

(** [!params || !params.k] *)
Definition lacks (params : argument) (k : string) : bool :=
  match params with
  | Object o => negb (truthy_opt (field o k))
  | _ => true
  end.

Definition getProgramActiveUsersTimeSeries (programId : option json) (params : argument)
  : W upstream_outcome :=
  if negb (truthy_opt programId) then
    throw (plain_error "programId parameter is required.")
  else if lacks params "range" then throw (plain_error "params.range is required.")
  else _request ("/program/" +:+ property_key programId +:+ "/active-users-ts") "GET"
         params Null.

Definition getProgramInstructionsCountTimeSeries (programId : option json)
    (params : argument) : W upstream_outcome :=
  if negb (truthy_opt programId) then
    throw (plain_error "programId parameter is required.")
  else if lacks params "range" then throw (plain_error "params.range is required.")
  else _request ("/program/" +:+ property_key programId +:+ "/instructions-count-ts") "GET"
         params Null.

Definition getProgramTransactionsCountTimeSeries (programId : option json)
    (params : argument) : W upstream_outcome :=
  if negb (truthy_opt programId) then
    throw (plain_error "programId parameter is required.")
  else if lacks params "range" then throw (plain_error "params.range is required.")
  else _request ("/program/" +:+ property_key programId +:+ "/transactions-count-ts") "GET"
         params Null.

Definition getProgramTvlTimeSeries (programId : option json) (params : argument)
  : W upstream_outcome :=
  if negb (truthy_opt programId) then
    throw (plain_error "programId parameter is required.")
  else if lacks params "resolution" then
    throw (plain_error "params.resolution is required.")
  else _request ("/program/" +:+ property_key programId +:+ "/tvl") "GET" params Null.

Definition getProgramsList (params : argument) : W upstream_outcome :=
  _request "/programs" "GET" (or_empty params) Null.

Definition getPriceMarkets (params : argument) : W upstream_outcome :=
  if lacks params "programId" then throw (plain_error "params.programId is required.")
  else _request "/price/markets" "GET" params Null.

Definition getPricePrograms : W upstream_outcome :=
  _request "/price/programs" "GET" Null Null.

Definition getPythAccounts (params : argument) : W upstream_outcome :=
  _request "/price/pyth-accounts" "GET" (or_empty params) Null.

Definition getPairTradeOhlcv (baseMintAddress quoteMintAddress : option json)
    (params : argument) : W upstream_outcome :=
  if negb (truthy_opt baseMintAddress) then
    throw (plain_error "baseMintAddress parameter is required.")
  else if negb (truthy_opt quoteMintAddress) then
    throw (plain_error "quoteMintAddress parameter is required.")
  else _request ("/price/" +:+ property_key baseMintAddress +:+ "+" +:+
                 property_key quoteMintAddress +:+ "/pair-ohlcv") "GET"
         (or_empty params) Null.

Definition getMarketOhlcv (marketId : option json) (params : argument)
  : W upstream_outcome :=
  if negb (truthy_opt marketId) then
    throw (plain_error "marketId parameter is required.")
  else _request ("/price/" +:+ property_key marketId +:+ "/market-ohlcv") "GET"
         (or_empty params) Null.

Definition getTokenOhlc (mintAddress : option json) (params : argument)
  : W upstream_outcome :=
  if negb (truthy_opt mintAddress) then
    throw (plain_error "mintAddress parameter is required.")
  else _request ("/price/" +:+ property_key mintAddress +:+ "/token-ohlcv") "GET"
         (or_empty params) Null.

Definition getPythPrice (priceFeedId : option json) : W upstream_outcome :=
  if negb (truthy_opt priceFeedId) then
    throw (plain_error "priceFeedId parameter is required.")
  else _request ("/price/" +:+ property_key priceFeedId +:+ "/pyth-price") "GET" Null Null.

Definition getPythPriceOhlc (priceFeedId : option json) (params : argument)
  : W upstream_outcome :=
  if negb (truthy_opt priceFeedId) then
    throw (plain_error "priceFeedId parameter is required.")
  else _request ("/price/" +:+ property_key priceFeedId +:+ "/pyth-price-ohlc") "GET"
         (or_empty params) Null.

Definition getPythPriceTimeSeries (priceFeedId : option json) (params : argument)
  : W upstream_outcome :=
  if negb (truthy_opt priceFeedId) then
    throw (plain_error "priceFeedId parameter is required.")
  else _request ("/price/" +:+ property_key priceFeedId +:+ "/pyth-price-ts") "GET"
         (or_empty params) Null.

Definition getPythProduct (productId : option json) : W upstream_outcome :=
  if negb (truthy_opt productId) then
    throw (plain_error "productId parameter is required.")
  else _request ("/price/" +:+ property_key productId +:+ "/pyth-product") "GET" Null Null.

Definition getTokenInstructionNames (params : argument) : W upstream_outcome :=
  _request "/token/instruction-names" "GET" (or_empty params) Null.

Definition getTokenTrades (params : argument) : W upstream_outcome :=
  _request "/token/trades" "GET" (or_empty params) Null.

Definition getTokenTransfers (params : argument) : W upstream_outcome :=
  _request "/token/transfers" "GET" (or_empty params) Null.

Definition getTokenDetails (mintAddress : option json) : W upstream_outcome :=
  if negb (truthy_opt mintAddress) then
    throw (plain_error "mintAddress parameter is required.")
  else _request ("/token/" +:+ property_key mintAddress) "GET" Null Null.

Definition getTopTokenHolders (mintAddress : option json) (params : argument)
  : W upstream_outcome :=
  if negb (truthy_opt mintAddress) then
    throw (plain_error "mintAddress parameter is required.")
  else _request ("/token/" +:+ property_key mintAddress +:+ "/top-holders") "GET"
         (or_empty params) Null.

Definition getTokenHoldersTimeSeries (mintId : option json) (params : argument)
  : W upstream_outcome :=
  if negb (truthy_opt mintId) then
    throw (plain_error "mintId parameter is required.")
  else _request ("/token/" +:+ property_key mintId +:+ "/holders-ts") "GET"
         (or_empty params) Null.

Definition getTokenVolumeTimeSeries (mintId : option json) (params : argument)
  : W upstream_outcome :=
  if negb (truthy_opt mintId) then
    throw (plain_error "mintId parameter is required.")
  else _request ("/token/" +:+ property_key mintId +:+ "/transfer-volume") "GET"
         (or_empty params) Null.

Definition getTokensSummary (params : argument) : W upstream_outcome :=
  _request "/tokens" "GET" (or_empty params) Null.

Definition getNftCollectionOwners (collectionAddress : option json) (params : argument)
  : W upstream_outcome :=
  if negb (truthy_opt collectionAddress) then
    throw (plain_error "collectionAddress parameter is required.")
  else _request ("/nft/collection-owners/" +:+ property_key collectionAddress) "GET"
         (or_empty params) Null.

End WithWorld.
End Vybe.

(* ===================================================================== *)
(** * The analytics handlers of [src/index.js] *)
(* ===================================================================== *)

Module Analytics.
Import JS Gateway Vybe.

(** A handler declared [function h({ a, b })]. *)
Definition destructure (params : option json) : W json :=
  match params with
  | None | Some JNull => throw (plain_error "Cannot destructure the handler argument")
  | Some v => ret v
  end.

(** [x || y] where [y] may be [undefined]. *)
Definition or_opt (x y : option json) : option json :=
  if truthy_opt x then x else y.

(** [await Promise.all(ps)], as in the gateway. *)
Definition promise_all (V : world) (ps : list upstream_outcome) : W (list json) :=
  match rejections ps with
  | [] => ret (resolutions ps)
  | (e0 :: _) as errs => throw (default e0 (errs !! first_rejected V))
  end.

(** [data.forEach((item, index) => { text += line(item, index) })]:
    [line] throws when it reads a property of [null]. *)
Fixpoint for_each (line : nat → json → W string) (index : nat) (data : list json)
    (text : string) : W string :=
  match data with
  | [] => ret text
  | item :: rest =>
      l ← line index item;
      for_each line (S index) rest (text +:+ l)
  end.

Section WithWorld.
Variable V : world.

(** [v > 0] *)
Definition above_zero (v : option json) : bool :=
  match v with
  | None | Some JNull | Some (JObj _) => false
  | Some (JBool b) => b
  | Some (JNum n) => 0 <? n
  | Some (JStr s) => string_above_zero V s
  | Some (JArr l) => string_above_zero V (to_string (JArr l))
  end.

(** [data.length > 0] on a truthy [data]. *)
Definition length_above_zero (data : json) : bool :=
  match data with
  | JArr l => (0 <? length l)%nat
  | JStr s => negb (String.eqb s EmptyString)
  | JObj o => above_zero (get "length" o)
  | _ => false
  end.

(** The guard [result?.data && result.data.length > 0] (and its
    variant [result && result.data && ...]) followed by
    [result.data.forEach(...)]: the lines of the listing, or [empty]. *)
Definition listing_of (line : nat → json → W string) (empty : string) (result : json)
  : W string :=
  match prop result "data" with
  | Some data =>
      if truthy data && length_above_zero data then
        match data with
        | JArr items => for_each line 0 items EmptyString
        | _ => throw (plain_error "result.data.forEach is not a function")
        end
      else ret empty
  | None => ret empty
  end.

(** [v.toLocaleString()] on a truthy value. *)
Definition locale (v : json) : string :=
  match v with
  | JStr s => s
  | _ => toLocaleString V v
  end.

(** ** [handleSolanaWalletTokens] *)

Definition token_line (index : nat) (token : json) : W string :=
  match token with
  | JNull => throw (plain_error "Cannot read properties of null")
  | _ =>
      let value :=
        if truthy_opt (prop token "valueUsd")
        then "$" +:+ property_key (prop token "valueUsd") else "No valuation" in
      let amount :=
        if truthy_opt (prop token "amount")
        then locale (default_to JNull (prop token "amount")) else "0" in
      ret (nl +:+ pretty (index + 1)%nat +:+ ". " +:+
           to_string (or_else (prop token "symbol")
                        (or_else (prop token "name") (JStr "Token"))) +:+
           ": " +:+ amount +:+ " (" +:+ value +:+ ")")
  end.

Definition handleSolanaWalletTokens (params : option json) : W json :=
  args ← destructure params;
  let address := prop args "address" in
  let include_no_price := default_to (JBool false) (prop args "include_no_price") in
  let limit := default_to (JNum 100) (prop args "limit") in
  if negb (truthy_opt address) then
    throw (coded_error "Wallet address is required" (-32602))
  else
    try_catch
      (p ← getWalletTokens V address
             (Object [("includeNoPriceBalance", Some include_no_price);
                      ("limit", Some limit); ("sortByDesc", Some (JStr "valueUsd"))]);
       result ← await p;
       formattedTokens ← listing_of token_line (nl +:+ "No tokens found") result;
       ret (text_result (JStr ("Tokens in wallet " +:+ property_key address +:+ ":" +:+
                               formattedTokens))))
      (fun error =>
         throw (coded_error ("Error fetching Solana tokens: " +:+ message error) (-32000))).

(** ** [handleSolanaWalletNFTs] *)

Definition nft_line (index : nat) (nft : json) : W string :=
  match nft with
  | JNull => throw (plain_error "Cannot read properties of null")
  | _ =>
      let price := or_opt (prop nft "valueUsd") (prop nft "usdPrice") in
      let value :=
        if truthy_opt price then "$" +:+ property_key price else "No valuation" in
      ret (nl +:+ pretty (index + 1)%nat +:+ ". " +:+
           to_string (or_else (prop nft "name") (JStr "NFT")) +:+ " (" +:+ value +:+ ")")
  end.

Definition handleSolanaWalletNFTs (params : option json) : W json :=
  args ← destructure params;
  let address := prop args "address" in
  let include_no_price := default_to (JBool false) (prop args "include_no_price") in
  let limit := default_to (JNum 100) (prop args "limit") in
  if negb (truthy_opt address) then
    throw (coded_error "Wallet address is required" (-32602))
  else
    try_catch
      (p ← getWalletNfts V address
             (Object [("includeNoPriceBalance", Some include_no_price);
                      ("limit", Some limit); ("sortByDesc", Some (JStr "valueUsd"))]);
       result ← await p;
       formattedNFTs ← listing_of nft_line (nl +:+ "No NFTs found") result;
       ret (text_result (JStr ("NFTs in wallet " +:+ property_key address +:+ ":" +:+
                               formattedNFTs))))
      (fun error =>
         throw (coded_error ("Error fetching Solana NFTs: " +:+ message error) (-32000))).

(** ** [handleSolanaWalletPnL] *)

(** [result?.data?.k || {}] *)
Definition data_field (result : json) (k : string) : json :=
  match prop result "data" with
  | Some data => or_else (prop data k) (JObj [])
  | None => JObj []
  end.

(** [v ? `${ before }${ v }${ after }` : 'Not available'] *)
Definition available (before : string) (v : option json) (after : string) : string :=
  if truthy_opt v then before +:+ property_key v +:+ after else "Not available".

Definition handleSolanaWalletPnL (params : option json) : W json :=
  args ← destructure params;
  let address := prop args "address" in
  if negb (truthy_opt address) then
    throw (coded_error "Wallet address is required" (-32602))
  else
    try_catch
      (p ← getWalletPnl V address Undefined;
       result ← await p;
       let performanceData := data_field result "performance" in
       let tradesData := data_field result "trades" in
       ret (text_result (JStr (
         "PnL Analysis for " +:+ property_key address +:+ ":" +:+ nl +:+
         "Total PnL: " +:+
           available "$" (prop performanceData "totalPnlUsd") EmptyString +:+ nl +:+
         "PnL Percentage: " +:+
           available EmptyString (prop performanceData "totalPnlPercent") "%" +:+ nl +:+
         "Total Trades: " +:+
           to_string (or_else (prop tradesData "count") (JNum 0)) +:+ nl +:+
         "Profitable Trades: " +:+
           to_string (or_else (prop tradesData "profitableCount") (JNum 0)) +:+ nl +:+
         "Win/Loss Ratio: " +:+
           available EmptyString (prop tradesData "winLossRatio") EmptyString))))
      (fun error =>
         throw (coded_error ("Error fetching performance data: " +:+ message error)
                  (-32000))).

(** ** [handleSolanaProgramDetails] *)

(** [result?.data || {}] *)
Definition data_or_empty (result : json) : json :=
  or_else (prop result "data") (JObj []).

(** [v || 'Not available'] in a template literal. *)
Definition or_not_available (v : option json) : string :=
  to_string (or_else v (JStr "Not available")).

(** [labels.join(', ')] on a truthy [labels]: only an array has
    [join]. *)
Definition join_labels (labels : json) : W string :=
  match labels with
  | JArr l =>
      ret (String.concat ", "
             (List.map (fun x => match x with JNull => EmptyString | _ => to_string x end) l))
  | _ => throw (plain_error "programData.labels.join is not a function")
  end.

Definition handleSolanaProgramDetails (params : option json) : W json :=
  args ← destructure params;
  let program_id := prop args "program_id" in
  if negb (truthy_opt program_id) then
    throw (coded_error "Program ID is required" (-32602))
  else
    try_catch
      (p ← getProgramDetails V program_id;
       result ← await p;
       let programData := data_or_empty result in
       labels ← (if truthy_opt (prop programData "labels")
                 then join_labels (default_to JNull (prop programData "labels"))
                 else ret "Not available");
       ret (text_result (JStr (
         "Program Details for " +:+ property_key program_id +:+ ":" +:+ nl +:+
         "Name: " +:+ or_not_available (prop programData "name") +:+ nl +:+
         "Type: " +:+ or_not_available (prop programData "type") +:+ nl +:+
         "Labels: " +:+ labels +:+ nl +:+
         "Entity: " +:+ or_not_available (prop programData "entityName") +:+ nl +:+
         "Description: " +:+ or_not_available (prop programData "description")))))
      (fun error =>
         throw (coded_error ("Error fetching program details: " +:+ message error)
                  (-32000))).

(** ** [handleSolanaProgramMetrics] *)

(** The value of a [+] chain that starts from the number 0 and may
    meet [undefined]: a number, [NaN], or a string from the first
    operand on that is a string, an array or an object. *)
Inductive total : Type :=
| TNum (n : Z)
| TNaN
| TStr (s : string).

Definition total_to_string (a : total) : string :=
  match a with
  | TNum n => pretty n
  | TNaN => "NaN"
  | TStr s => s
  end.

(** [sum + v]; on numbers, the sum of the program as long as the
    operands and the result are integers from -(2^53 - 1) to
    2^53 - 1. *)
Definition plus (sum : total) (v : option json) : total :=
  match sum, v with
  | TStr s, _ => TStr (s +:+ property_key v)
  | _, Some (JStr _ as x) | _, Some (JArr _ as x) | _, Some (JObj _ as x) =>
      TStr (total_to_string sum +:+ to_string x)
  | TNum x, Some (JNum y) => TNum (x + y)
  | TNum x, Some (JBool b) => TNum (x + (if b then 1 else 0))
  | TNum x, Some JNull => TNum x
  | _, _ => TNaN
  end.

(** [data.reduce((sum, d) => sum + d.count, 0)] *)
Fixpoint reduce_count (data : list json) (sum : total) : W total :=
  match data with
  | [] => ret sum
  | JNull :: _ => throw (plain_error "Cannot read properties of null")
  | d :: rest => reduce_count rest (plus sum (prop d "count"))
  end.

(** [result?.data?.reduce(...) || 0], then [.toLocaleString()]. *)
Definition count_total (result : json) : W string :=
  match prop result "data" with
  | None | Some JNull => ret (toLocaleString V (JNum 0))
  | Some (JArr data) =>
      sum ← reduce_count data (TNum 0);
      ret (match sum with
           | TNum n => toLocaleString V (JNum n)
           | TNaN => toLocaleString V (JNum 0)
           | TStr s => s
           end)
  | Some _ => throw (plain_error "result.data.reduce is not a function")
  end.

Definition handleSolanaProgramMetrics (params : option json) : W json :=
  args ← destructure params;
  let program_id := prop args "program_id" in
  let range := default_to (JStr "7d") (prop args "range") in
  if negb (truthy_opt program_id) then
    throw (coded_error "Program ID is required" (-32602))
  else
    try_catch
      (p1 ← getProgramInstructionsCountTimeSeries V program_id
              (Object [("range", Some range)]);
       p2 ← getProgramTransactionsCountTimeSeries V program_id
              (Object [("range", Some range)]);
       p3 ← getProgramActiveUsersTimeSeries V program_id
              (Object [("range", Some range)]);
       results ← promise_all V [p1; p2; p3];
       instructionsTotal ← count_total (default JNull (results !! 0%nat));
       transactionsTotal ← count_total (default JNull (results !! 1%nat));
       usersTotal ← count_total (default JNull (results !! 2%nat));
       ret (text_result (JStr (
         "Program Metrics for " +:+ property_key program_id +:+ " (last " +:+
           to_string range +:+ "):" +:+ nl +:+
         "Instructions: " +:+ instructionsTotal +:+ nl +:+
         "Transactions: " +:+ transactionsTotal +:+ nl +:+
         "Active Users: " +:+ usersTotal))))
      (fun error =>
         throw (coded_error ("Error fetching program metrics: " +:+ message error)
                  (-32000))).

(** ** [handleSolanaMarketSentiment] *)

Definition program_line (index : nat) (program : json) : W string :=
  match program with
  | JNull => throw (plain_error "Cannot read properties of null")
  | _ =>
      ret (nl +:+ pretty (index + 1)%nat +:+ ". " +:+
           property_key (or_opt (prop program "name") (prop program "programId")) +:+
           ": " +:+ to_string (or_else (prop program "userCount24h") (JNum 0)) +:+
           " active users")
  end.

Definition sentiment_token_line (index : nat) (token : json) : W string :=
  match token with
  | JNull => throw (plain_error "Cannot read properties of null")
  | _ =>
      let price :=
        match prop token "price" with
        | Some (JNum n) => "$" +:+ toFixed6 V n
        | _ => "N/A"
        end in
      let change := or_opt (prop token "priceChange24h") (prop token "price1d") in
      let changeText :=
        match change with
        | Some (JNum n) => pretty n +:+ "%"
        | _ => "N/A"
        end in
      ret (nl +:+ pretty (index + 1)%nat +:+ ". " +:+
           property_key (or_opt (prop token "symbol") (prop token "mintAddress")) +:+
           ": " +:+ price +:+ " (" +:+ changeText +:+ " 24h)")
  end.

(** The handler takes no parameter. *)
Definition handleSolanaMarketSentiment : W json :=
  try_catch
    (p ← getProgramRanking V
           (Object [("sortByDesc", Some (JStr "userCount24h")); ("limit", Some (JNum 5))]);
     programsResult ← await p;
     q ← getTokensSummary V
           (Object [("sortByDesc", Some (JStr "price")); ("limit", Some (JNum 5))]);
     tokensResult ← await q;
     programsData ← listing_of program_line (nl +:+ "No program data available")
                      programsResult;
     tokensData ← listing_of sentiment_token_line (nl +:+ "No token data available")
                    tokensResult;
     ret (text_result (JStr (
       "Solana Market Sentiment:" +:+ nl +:+ nl +:+
       "TOP PROGRAMS BY ACTIVITY:" +:+ programsData +:+ nl +:+ nl +:+
       "TOP TOKENS BY PRICE:" +:+ tokensData))))
    (fun error =>
       throw (coded_error ("Error fetching market sentiment: " +:+ message error)
                (-32000))).

(** ** [handleSolanaNetworkActivity] *)

(** The three running totals of the [forEach]. *)
Fixpoint add_programs (data : list json) (totals : sum_value * sum_value * sum_value)
  : W (sum_value * sum_value * sum_value) :=
  match data with
  | [] => ret totals
  | JNull :: _ => throw (plain_error "Cannot read properties of null")
  | program :: rest =>
      let '(totalInstructions, totalTransactions, totalUsers) := totals in
      add_programs rest
        (js_plus totalInstructions (or_else (prop program "instructionCount24h") (JNum 0)),
         js_plus totalTransactions (or_else (prop program "transactionCount24h") (JNum 0)),
         js_plus totalUsers (or_else (prop program "userCount24h") (JNum 0)))
  end.

(** [total.toLocaleString()] *)
Definition locale_total (a : sum_value) : string :=
  match a with
  | SNum n => toLocaleString V (JNum n)
  | SStr s => s
  end.

Definition handleSolanaNetworkActivity : W json :=
  try_catch
    (p ← getProgramRanking V
           (Object [("limit", Some (JNum 10));
                    ("sortByDesc", Some (JStr "instructionCount24h"))]);
     programsResult ← await p;
     totals ← (if truthy_opt (prop programsResult "data") then
                 match prop programsResult "data" with
                 | Some (JArr data) => add_programs data (SNum 0, SNum 0, SNum 0)
                 | _ => throw (plain_error "programsResult.data.forEach is not a function")
                 end
               else ret (SNum 0, SNum 0, SNum 0));
     let '(totalInstructions, totalTransactions, totalUsers) := totals in
     let programs :=
       match prop programsResult "data" with
       | Some (JArr data) => length data
       | _ => 0%nat
       end in
     ret (text_result (JStr (
       "Solana Network Activity (last 24h):" +:+ nl +:+ nl +:+
       "Instructions: " +:+ locale_total totalInstructions +:+ nl +:+
       "Transactions: " +:+ locale_total totalTransactions +:+ nl +:+
       "Active Users: " +:+ locale_total totalUsers +:+ nl +:+ nl +:+
       "Note: This data represents activity from the " +:+ pretty programs +:+
       " most active programs."))))
    (fun error =>
       throw (coded_error ("Error fetching network activity: " +:+ message error)
                (-32000))).

End WithWorld.
End Analytics.

Import JS Gateway.

(* ===================================================================== *)
(** * Vocabulary of the properties *)
(* ===================================================================== *)

(** The answer to a malformed envelope. *)
Definition invalid_request : response :=
  {| http_status := 400;
     body := RpcError (-32600) "Invalid JSON-RPC request" (Some JNull) |}.

(** ** Reading a trace *)

Definition is_provider_call (ev : event) : bool :=
  match ev with
  | EvProvider _ _ _ => true
  | _ => false
  end.

Definition is_cache_event (ev : event) : bool :=
  match ev with
  | EvTier1Get _ | EvTier1Set _ _ | EvTier2Get _ | EvTier2Set _ _ _ => true
  | _ => false
  end.

Definition is_tier2_event (ev : event) : bool :=
  match ev with
  | EvTier2Get _ | EvTier2Set _ _ _ => true
  | _ => false
  end.

Definition is_handler_start (ev : event) : bool :=
  match ev with
  | EvHandler _ => true
  | _ => false
  end.

Definition is_upstream_call (ev : event) : bool :=
  match ev with
  | EvUpstream _ _ => true
  | _ => false
  end.

(** The number of completions requested from a provider. *)
Definition provider_calls (t : list event) : nat :=
  length (List.filter is_provider_call t).

(** ** The two generative handlers as one

    [handleOpenAIGenerate] and [handleAnthropicGenerate] are two copies
    of one text that differ in the client they call, the default model
    and the prefix of the error message. [generate] is that text with
    the three as parameters; the handlers are shown equal to its
    instances below, so that a property is proved once for both. *)
Definition generate (p : provider)
    (create : nat → completion_request → provider_outcome)
    (default_model prefix : string)
    (fuel : nat) (params : option json) : M json :=
  args ← destructure params;
  let prompt := prop args "prompt" in
  let model := default_to (JStr default_model) (prop args "model") in
  let max_tokens := default_to (JNum 1000) (prop args "max_tokens") in
  let session_id := prop args "session_id" in
  if negb (truthy_opt prompt) || negb (typeof_string prompt) then
    throw (coded_error "Prompt is required and must be a string" (-32602))
  else if negb (truthy_opt session_id) then
    throw (coded_error "session_id is required" (-32602))
  else
    let prompt := default_to JNull prompt in
    let session_id := default_to JNull session_id in
    try_catch
      (s ← get_state;
       let previousMessages := default [] (map_get session_id (contextStore s)) in
       let messages := previousMessages ++ [mk_turn "user" prompt] in
       response ← retry_loop p (mk_request model max_tokens messages) create fuel 0;
       responseContent ← first_content response;
       let updatedMessages := messages ++ [mk_turn "assistant" responseContent] in
       let contextToStore :=
         if (10 <? length updatedMessages)%nat
         then index0 updatedMessages ++ slice_last 9 updatedMessages
         else updatedMessages in
       set_context session_id contextToStore;;
       ret (text_result responseContent))
      (fun error => throw (coded_error (prefix +:+ message error) (-32000))).

(** The parameters of a generative call that pass validation: a
    non-empty string [prompt] and a truthy [session_id]. *)
Definition valid_generate_args (args : json) (prompt : string) (session_id : json) : Prop :=
  args ≠ JNull ∧
  prop args "prompt" = Some (JStr prompt) ∧ prompt ≠ EmptyString ∧
  prop args "session_id" = Some session_id ∧ truthy session_id = true.

(** The turns a generative call sends: the stored turns of the session
    followed by the new user turn. *)
Definition sent_messages (s : state) (prompt : string) (session_id : json) : list turn :=
  default [] (map_get session_id (contextStore s)) ++ [mk_turn "user" (JStr prompt)].

(** The completion request of a generative call. *)
Definition sent_request (default_model : string) (s : state) (args : json)
    (prompt : string) (session_id : json) : completion_request :=
  mk_request (default_to (JStr default_model) (prop args "model"))
             (default_to (JNum 1000) (prop args "max_tokens"))
             (sent_messages s prompt session_id).

(** The state after a session's turns are replaced. *)
Definition with_context (s : state) (session_id : json) (turns : list turn) : state :=
  {| memoryCache := memoryCache s; redis := redis s;
     contextStore := map_set session_id turns (contextStore s) |}.

(** The context one generative call stores, as the handlers compute
    it from [updatedMessages]. *)
Definition stored_turns (updatedMessages : list turn) : list turn :=
  if (10 <? length updatedMessages)%nat
  then index0 updatedMessages ++ slice_last 9 updatedMessages
  else updatedMessages.

(** What a generative handler makes of the way its retry loop ended. *)
Definition conclude (prefix : string) (s : state) (session_id : json)
    (messages : list turn) (loop : outcome (option (list json)) * state * list event)
  : outcome json * state * list event :=
  match loop with
  | (Ret (Some (c :: _)), _, t) =>
      (Ret (text_result c),
       with_context s session_id (stored_turns (messages ++ [mk_turn "assistant" c])), t)
  | (Ret _, _, t) =>
      (Throw (coded_error (prefix +:+ "Cannot read properties of undefined") (-32000)), s, t)
  | (Throw e, _, t) => (Throw (coded_error (prefix +:+ message e) (-32000)), s, t)
  | (OutOfFuel, _, t) => (OutOfFuel, s, t)
  end.

(** Attempts [from .. n-1] all failed with a retryable status. *)
Definition retried (r : completion_request)
    (create : nat → completion_request → provider_outcome) (from n : nat) : Prop :=
  ∀ k, (from ≤ k < n)%nat → ∃ e, create k r = Fail e ∧ is_retryable e = true.

(** The rate-limit signal or a server-side signal. *)
Definition retryable_status (e : js_error) : Prop :=
  ∃ st, status e = Some st ∧ (st = 429 ∨ 500 ≤ st).

(** A provider family: its handler, the client the handler calls, its
    default model and the prefix it puts on an error message. *)
Record family : Type := mk_family {
  f_provider : provider;
  f_handler : nat → option json → M json;
  f_create : nat → completion_request → provider_outcome;
  f_default_model : string;
  f_prefix : string
}.

Definition openai_family (E : env) : family :=
  {| f_provider := OpenAI; f_handler := handleOpenAIGenerate E;
     f_create := openai_create E; f_default_model := "gpt-4o";
     f_prefix := "OpenAI error: " |}.

Definition anthropic_family (E : env) : family :=
  {| f_provider := Anthropic; f_handler := handleAnthropicGenerate E;
     f_create := anthropic_create E;
     f_default_model := "claude-3-5-sonnet-20240620";
     f_prefix := "Anthropic error: " |}.

Definition families (E : env) : list family := [openai_family E; anthropic_family E].

(** ** The dispatcher and the cache tiers *)

Definition not_found (method : json) (id : option json) : response :=
  {| http_status := 404;
     body := RpcError (-32601) ("Method '" +:+ to_string method +:+ "' not found") id |}.

Definition ok_response (result : json) (id : option json) : response :=
  {| http_status := 200; body := RpcResult result id |}.

Definition valid_envelope (req : envelope) : Prop :=
  jsonrpc req = Some (JStr "2.0") ∧ truthy_opt (method req) = true ∧
  truthy_opt (id req) = true.

(** The state after a write into tier 1, into tier 2. *)
Definition with_tier1 (s : state) (key : string) (value : json) (expires : Z) : state :=
  {| memoryCache := <[key := (value, expires)]> (memoryCache s);
     redis := redis s; contextStore := contextStore s |}.

Definition with_tier2 (s : state) (key payload : string) (expires : Z) : state :=
  {| memoryCache := memoryCache s;
     redis := <[key := (payload, expires)]> (redis s);
     contextStore := contextStore s |}.

(** The name-based classifications on a method that is a string. *)
Definition fresh_only (name : string) : bool :=
  includes "_generate" name || includes "context" name.

Definition high_value_name (name : string) : bool :=
  includes "_overview" name || includes "_details" name || includes "_holders" name.

(** The methods the dispatcher always executes afresh. *)
Definition uncached_methods : list string :=
  ["openai_generate"; "anthropic_generate"; "clear_context"].

(** A handler run as the dispatcher's [switch] starts it. *)
Definition start_handler (name : string) (run : outcome json * state * list event)
  : outcome (option json) * state * list event :=
  match run with
  | (Ret result, s, t) => (Ret (Some result), s, EvHandler name :: t)
  | (Throw e, s, t) => (Throw e, s, EvHandler name :: t)
  | (OutOfFuel, s, t) => (OutOfFuel, s, EvHandler name :: t)
  end.

(** Effects that are neither a cache access nor the start of a
    handler. *)
Definition quiet (t : list event) : Prop :=
  ∀ ev, ev ∈ t → is_cache_event ev = false ∧ is_handler_start ev = false.

(** The run of a handler that leaves both cache tiers alone. *)
Definition cache_free {A} (s : state) (run : outcome A * state * list event) : Prop :=
  memoryCache (state_of run) = memoryCache s ∧ redis (state_of run) = redis s ∧
  quiet (trace_of run).

(** The environment with Redis not configured. *)
Definition without_tier2 (E : env) : env :=
  {| now := now E; now_after := now_after E;
     redis_configured := false; redis_ready := redis_ready E;
     redis_ready_after := redis_ready_after E;
     redis_get_fails := redis_get_fails E; redis_set_fails := redis_set_fails E;
     JSON_parse := JSON_parse E; openai_create := openai_create E;
     anthropic_create := anthropic_create E;
     request_wallet_tokens := request_wallet_tokens E;
     request_wallet_nfts := request_wallet_nfts E;
     first_rejection := first_rejection E; other_handler := other_handler E;
     format_amount := format_amount E; format_usd := format_usd E |}.

(** The environment in which writes to Redis go through. *)
Definition with_set_ok (E : env) : env :=
  {| now := now E; now_after := now_after E;
     redis_configured := redis_configured E;
     redis_ready := redis_ready E; redis_ready_after := redis_ready_after E;
     redis_get_fails := redis_get_fails E; redis_set_fails := None;
     JSON_parse := JSON_parse E; openai_create := openai_create E;
     anthropic_create := anthropic_create E;
     request_wallet_tokens := request_wallet_tokens E;
     request_wallet_nfts := request_wallet_nfts E;
     first_rejection := first_rejection E; other_handler := other_handler E;
     format_amount := format_amount E; format_usd := format_usd E |}.

(** What a caller and the process itself can tell of a run: the
    response, tier 1, the context store, and every effect other than
    the traffic with Redis. *)
Definition observe (run : outcome response * state * list event)
  : outcome response * gmap string (json * Z) * list (json * list turn) * list event :=
  (result_of run, memoryCache (state_of run), contextStore (state_of run),
   List.filter (fun ev => negb (is_tier2_event ev)) (trace_of run)).

(** Two runs that differ in the traffic with Redis only. *)
Definition same_but_tier2 {A} (run run' : outcome A * state * list event) : Prop :=
  result_of run = result_of run' ∧
  memoryCache (state_of run) = memoryCache (state_of run') ∧
  contextStore (state_of run) = contextStore (state_of run') ∧
  List.filter (fun ev => negb (is_tier2_event ev)) (trace_of run)
  = List.filter (fun ev => negb (is_tier2_event ev)) (trace_of run').

(** A computation that does not depend on fuel. *)
Definition ends {A} (m : M A) : Prop := ∀ s, result_of (m s) ≠ OutOfFuel.

(** ** Objects, the merge of a cross analysis, pure computations *)

(** Array-index keys in ascending order. *)
Definition key_lt (k1 k2 : string) : Prop :=
  match array_index k1, array_index k2 with
  | Some i, Some j => (i < j)%N
  | _, _ => False
  end.

Definition ascending {V} (o : obj V) : Prop :=
  StronglySorted (fun x y => key_lt x.1 y.1) o.

Definition index_entry {V} (kv : string * V) : bool := is_index kv.1.

Definition named_entry {V} (kv : string * V) : bool := negb (is_index kv.1).

(** The key under which a token is recorded, and the holding it gives
    its wallet. *)
Definition mint_of (token : json) : string :=
  property_key (prop token "mintAddress").

Definition holding_of (token : json) : holding :=
  {| amount := prop token "amount";
     usdValue := or_else (prop token "valueUsd") (JNum 0) |}.

(** The tokens of one upstream payload: those of [result.data], none
    when [result?.data] is falsy. *)
Definition tokens_of (result : json) : list json :=
  if truthy_opt (prop result "data") then
    match prop result "data" with
    | Some (JArr data) => data
    | _ => []
    end
  else [].

(** A payload the merge can walk: a truthy [data] is an array, no
    token is [null], and no mint is the name of a property every
    object inherits. *)
Definition well_formed (result : json) : Prop :=
  (truthy_opt (prop result "data") = true → ∃ data, prop result "data" = Some (JArr data)) ∧
  Forall (fun token => token ≠ JNull ∧ inherited (mint_of token) = false)
         (tokens_of result).

(** All (wallet, token) pairs in the order the merge visits them. *)
Definition holdings_stream (addresses results : list json) : list (string * json) :=
  concat (zip_with (fun address result =>
                      (fun token => (property_key (Some address), token)) <$> tokens_of result)
                   addresses results).

(** Whether a pair makes wallet [a] a holder of mint [m]. *)
Definition held (m a : string) (p : string * json) : bool :=
  String.eqb p.1 a && String.eqb (mint_of p.2) m && negb (String.eqb a "__proto__").

(** The holding of wallet [a] in mint [m]: the one of the last pair of
    the stream that makes [a] a holder of [m]. *)
Fixpoint last_holding (stream : list (string * json)) (m a : string) : option holding :=
  match stream with
  | [] => None
  | p :: rest =>
      match last_holding rest m a with
      | Some h => Some h
      | None => if held m a p then Some (holding_of p.2) else None
      end
  end.

(** The holding the mapping has for wallet [a] under mint [m]. *)
Definition holding_in (tokensByMint : obj token_entry) (m a : string) : option holding :=
  match get m tokensByMint with
  | Some entry => get a (holders entry)
  | None => None
  end.

(** The mapping after one more pair. *)
Definition recorded (tokensByMint : obj token_entry) (p : string * json)
  : obj token_entry :=
  let mint := mint_of p.2 in
  match get mint tokensByMint with
  | Some entry =>
      set mint {| symbol := symbol entry;
                  holders := add_holder p.1 (holding_of p.2) (holders entry) |}
          tokensByMint
  | None =>
      set mint {| symbol := or_else (prop p.2 "symbol") (JStr "Unknown");
                  holders := add_holder p.1 (holding_of p.2) [] |}
          tokensByMint
  end.

(** Every key once, in the mapping and in each set of holders. *)
Definition distinct_keys (tokensByMint : obj token_entry) : Prop :=
  NoDup (keys tokensByMint) ∧
  ∀ m entry, get m tokensByMint = Some entry → NoDup (keys (holders entry)).

Definition descending (l : list (string * token_entry)) : Prop :=
  StronglySorted (fun x y => (holders_count y ≤ holders_count x)%nat) l.

(** A computation that only computes: no effect, no change of state. *)
Definition pure_run {A} (m : M A) : Prop := ∃ o, ∀ s, m s = (o, s, []).

(** ** Concrete requests *)

(** A provider failure with an HTTP-like status. *)
Definition ex_failure (st : Z) (msg : string) : js_error :=
  {| message := msg; code := None; httpCode := None; status := Some st |}.

(** A token of the analytics API. *)
Definition ex_token (mint sym : string) (amount usd : Z) : json :=
  JObj [("mintAddress", JStr mint); ("symbol", JStr sym);
        ("amount", JNum amount); ("valueUsd", JNum usd)].

(** Wallet A holds mintX and mintY, wallet B holds mintX. *)
Definition ex_wallet_tokens (address : json) : upstream_outcome :=
  if strict_eq_str address "A" then
    Resolved (JObj [("data", JArr [ex_token "mintX" "X" 10 20; ex_token "mintY" "Y" 5 1])])
  else if strict_eq_str address "B" then
    Resolved (JObj [("data", JArr [ex_token "mintX" "X" 3 6])])
  else Rejected (plain_error "Vybe API request failed").

(** An environment, given how the OpenAI client and the NFT endpoint
    answer and how Redis reads behave. *)
Definition ex_env (create : nat → completion_request → provider_outcome)
    (nfts : json → upstream_outcome) (get_fails : option js_error) : env :=
  {| now := 1000; now_after := 2000;
     redis_configured := true; redis_ready := true; redis_ready_after := true;
     redis_get_fails := get_fails; redis_set_fails := None;
     JSON_parse := fun _ => None;
     openai_create := create;
     anthropic_create := fun _ _ => Reply [JStr "hello"];
     request_wallet_tokens := ex_wallet_tokens;
     request_wallet_nfts := nfts;
     first_rejection := 0;
     other_handler := fun _ _ => Returned (text_result (JStr "ok"));
     format_amount := fun v => property_key v;
     format_usd := to_string |}.

Definition ex_no_nfts (address : json) : upstream_outcome :=
  Resolved (JObj [("data", JArr [])]).

Definition ex_nfts_down (address : json) : upstream_outcome :=
  Rejected (plain_error "Vybe API request failed").

(** The provider answers; the provider is rate limited. *)
Definition ex_answering : env := ex_env (fun _ _ => Reply [JStr "hi"]) ex_no_nfts None.

Definition ex_rate_limited : env :=
  ex_env (fun _ _ => Fail (ex_failure 429 "rate limit")) ex_no_nfts None.

Definition ex_bad_request : env :=
  ex_env (fun _ _ => Fail (ex_failure 400 "bad request")) ex_no_nfts None.

Definition ex_nft_failure : env := ex_env (fun _ _ => Reply [JStr "hi"]) ex_nfts_down None.

Definition ex_redis_down : env :=
  ex_env (fun _ _ => Reply [JStr "hi"]) ex_no_nfts (Some (plain_error "ECONNREFUSED")).

Definition ex_empty : state := {| memoryCache := ∅; redis := ∅; contextStore := [] |}.

(** A session that already holds ten turns. *)
Definition ex_ten_turns : list turn :=
  (fun n : nat => mk_turn (if Nat.even n then "user" else "assistant") (JNum (Z.of_nat n)))
    <$> seq 0 10.

Definition ex_long_session : state :=
  {| memoryCache := ∅; redis := ∅; contextStore := [(JStr "s1", ex_ten_turns)] |}.

Definition ex_request (name : string) (params : json) : envelope :=
  {| jsonrpc := Some (JStr "2.0"); method := Some (JStr name);
     params := Some params; id := Some (JNum 1) |}.

Definition ex_generate_args : json :=
  JObj [("prompt", JStr "hello"); ("session_id", JStr "s1")].

Definition ex_overview_args : json := JObj [("address", JStr "A")].

Definition ex_cross_args : json := JObj [("addresses", JArr [JStr "A"; JStr "B"])].

Definition ex_cross_results : list json :=
  [JObj [("data", JArr [ex_token "mintX" "X" 10 20; ex_token "mintY" "Y" 5 1])];
   JObj [("data", JArr [ex_token "mintX" "X" 3 6])]].

(** ** The merge, in the words of the specification

    What the specification says of the cross analysis, stated on the
    pairs (wallet, token) of the payloads and not on the object the
    handler builds. *)

(** The wallets that hold mint [m], each once. *)
Definition holding_wallets (stream : list (string * json)) (m : string) : list string :=
  remove_dups (omap (fun p => if held m p.1 p then Some p.1 else None) stream).

(** The holder count of mint [m]. *)
Definition holder_number (stream : list (string * json)) (m : string) : nat :=
  length (holding_wallets stream m).

(** The symbol a mint is listed under: the one of the first token of
    that mint, "Unknown" when that token has none. *)
Definition listed_symbol (stream : list (string * json)) (m : string) : json :=
  match List.find (fun p => String.eqb (mint_of p.2) m) stream with
  | Some p => or_else (prop p.2 "symbol") (JStr "Unknown")
  | None => JStr "Unknown"
  end.

(** The position of a wallet in the array of the request: the last
    one, when the array names it more than once. *)
Fixpoint wallet_position (addresses : list json) (a : string) (index : nat) : option nat :=
  match addresses with
  | [] => None
  | address :: rest =>
      match wallet_position rest a (S index) with
      | Some i => Some i
      | None => if String.eqb (property_key (Some address)) a then Some index else None
      end
  end.

Definition wallet_label (addresses : list json) (a : string) : string :=
  match wallet_position addresses a 0 with
  | Some i => "Wallet " +:+ pretty (i + 1)%nat
  | None => "undefined"
  end.

(** The report of the cross analysis that lists the rows [listed]:
    per row the rank, the symbol, the holder count out of the number
    of addresses, and one line per holder. *)
Definition report_holder (E : env) (addresses : list json) (h : string * holding)
  : string :=
  nl +:+ "   - " +:+ wallet_label addresses h.1 +:+ ": " +:+
  format_amount E (amount h.2) +:+ " ($" +:+ format_usd E (usdValue h.2) +:+ ")".

Definition report_row (E : env) (addresses : list json) (index : nat)
    (row : string * token_entry) : string :=
  nl +:+ pretty (index + 1)%nat +:+ ". " +:+ to_string (symbol row.2) +:+ " (" +:+
  pretty (length (holders row.2)) +:+ "/" +:+ pretty (length addresses) +:+
  " wallets):" +:+
  String.concat EmptyString (report_holder E addresses <$> holders row.2).

Definition cross_analysis_report (E : env) (addresses : list json)
    (listed : list (string * token_entry)) : string :=
  "Cross-analysis of " +:+ pretty (length addresses) +:+ " addresses:" +:+ nl +:+
  "        " +:+ nl +:+
  "Common tokens:" +:+
  match listed with
  | [] => nl +:+ "No common tokens found between addresses"
  | _ => String.concat EmptyString (imap (report_row E addresses) listed)
  end.

(** The analytics API answers every wallet with a [data] that is not
    an array. *)
Definition ex_unwalkable : env :=
  {| now := now ex_answering; now_after := now_after ex_answering;
     redis_configured := redis_configured ex_answering;
     redis_ready := redis_ready ex_answering;
     redis_ready_after := redis_ready_after ex_answering;
     redis_get_fails := redis_get_fails ex_answering;
     redis_set_fails := redis_set_fails ex_answering;
     JSON_parse := JSON_parse ex_answering;
     openai_create := openai_create ex_answering;
     anthropic_create := anthropic_create ex_answering;
     request_wallet_tokens := fun _ => Resolved (JObj [("data", JObj [("tokens", JArr [])])]);
     request_wallet_nfts := request_wallet_nfts ex_answering;
     first_rejection := first_rejection ex_answering;
     other_handler := other_handler ex_answering;
     format_amount := format_amount ex_answering;
     format_usd := format_usd ex_answering |}.

(** ** Runs that follow a rule

    [follows P R m]: every effect of [m] satisfies [P], and [R] relates
    the state [m] starts from to the state it ends in. *)
Definition follows {A} (P : event → Prop) (R : state → state → Prop) (m : M A) : Prop :=
  ∀ s, Forall P (trace_of (m s)) ∧ R s (state_of (m s)).

(** What a handler may do to the process state: nothing, or replace
    the turns of one session by a truncated sequence, or drop one
    session. The cache tiers are the dispatcher's. *)
Inductive handler_step (s : state) : state → Prop :=
| step_none : handler_step s s
| step_set (sid : json) (updated : list turn) :
    handler_step s (with_context s sid (stored_turns updated))
| step_delete (sid : json) :
    handler_step s {| memoryCache := memoryCache s; redis := redis s;
                      contextStore := map_delete sid (contextStore s) |}.

(** Effects of a handler: calls of a provider, waits between them, and
    calls of the analytics API. *)
Definition is_outside_call (ev : event) : Prop :=
  is_cache_event ev = false ∧ is_handler_start ev = false.

(** The methods whose handlers are modelled in full. *)
Definition modelled_methods : list string :=
  ["openai_generate"; "anthropic_generate"; "clear_context";
   "solana_wallet_overview"; "solana_cross_analysis"].

(** The three ways a modelled handler fails on [params], with the
    effects [t] it had by then: a parameter is rejected before anything
    was called; a provider or upstream call, or the work on its answer,
    failed; or there was no parameter object to take apart. *)
Definition handler_failure (params : option json) (e : js_error) (t : list event) : Prop :=
  (∃ msg, e = coded_error msg (-32602) ∧ t = []) ∨
  (∃ msg, e = coded_error msg (-32000)) ∨
  (code e = None ∧ httpCode e = None ∧ t = [] ∧
   (params = None ∨ params = Some JNull)).

(** An effect outside the process: a provider or an upstream call. *)
Definition is_outside (ev : event) : bool :=
  is_provider_call ev || is_upstream_call ev.

(** The twenty names of the dispatcher's [switch]. *)
Definition routed_methods : list string := modelled_methods ++ other_methods.

(** A read of a cache tier. *)
Definition is_cache_read (ev : event) : bool :=
  match ev with
  | EvTier1Get _ | EvTier2Get _ => true
  | _ => false
  end.

(** ** The context store

    A [Map] holds a key once. In the list of bindings that is: no
    binding is followed by one whose key is the same value. *)
Fixpoint sessions_distinct (m : list (json * list turn)) : Prop :=
  match m with
  | [] => True
  | (k, _) :: r => map_get k r = None ∧ sessions_distinct r
  end.

(** No session holds more than ten turns. *)
Definition sessions_bounded (m : list (json * list turn)) : Prop :=
  Forall (fun kv => (length kv.2 ≤ 10)%nat) m.

Definition store_ok (s : state) : Prop :=
  sessions_distinct (contextStore s) ∧ sessions_bounded (contextStore s).

(** The process after a sequence of requests, each served in its own
    environment. *)
Fixpoint serve (requests : list (env * nat * envelope)) (s : state) : state :=
  match requests with
  | [] => s
  | (E, fuel, req) :: rest => serve rest (state_of (dispatch E fuel req s))
  end.

(** The effects of a generative call that makes [n] attempts: the
    same request each time, with waits of 2 and 4 seconds between. *)
Definition attempts (p : provider) (r : completion_request) (n : nat) : list event :=
  take (2 * n - 1)
    [EvProvider p 0 r; EvSleep 2000; EvProvider p 1 r; EvSleep 4000; EvProvider p 2 r].

(** ** The figures of a wallet overview *)

(** The value the overview counts for a token and for an NFT. *)
Definition token_price (token : json) : json :=
  or_else (prop token "valueUsd") (JNum 0).

Definition nft_price (nft : json) : json :=
  or_else (prop nft "valueUsd") (or_else (prop nft "usdPrice") (JNum 0)).

(** The items of an upstream payload: those of its [data] array, none
    when the payload or its [data] is falsy. *)
Definition listing (result : json) (items : list json) : Prop :=
  (truthy result = true ∧ prop result "data" = Some (JArr items)) ∨
  (truthy result && truthy_opt (prop result "data") = false ∧ items = []).

(** An item that is not [null] and whose price is a number. *)
Definition priced (price : json → json) (item : json) : Prop :=
  item ≠ JNull ∧ ∃ n, price item = JNum n.

Definition number_of (v : json) : Z :=
  match v with
  | JNum n => n
  | _ => 0
  end.

Definition price_sum (price : json → json) (items : list json) : Z :=
  foldr (fun item acc => number_of (price item) + acc) 0 items.

Definition overview_text (address : json) (total : string) (tokens nfts : nat) : json :=
  text_result (JStr (
    "Wallet Overview for " +:+ to_string address +:+ ":" +:+ nl +:+
    "Total USD Value: $" +:+ total +:+ nl +:+
    "Number of Tokens: " +:+ pretty tokens +:+ nl +:+
    "Number of NFTs: " +:+ pretty nfts)).

(** ** Numbers

    The numbers of the program are IEEE doubles, those of the model
    are integers. An integer from -(2^53 - 1) to 2^53 - 1 is a double
    that [JSON.parse] reads and template literals print digit by
    digit, and a sum of two of them that stays in this range is exact:
    there the arithmetic of the model is that of the program. *)
Definition MAX_SAFE_INTEGER : Z := 2 ^ 53 - 1.

Definition safe_integer (n : Z) : Prop := - MAX_SAFE_INTEGER ≤ n ≤ MAX_SAFE_INTEGER.

(** The values [sum] takes in [terms.reduce((sum, x) => sum + x,
    start)]. *)
Fixpoint running_totals (start : Z) (terms : list Z) : list Z :=
  match terms with
  | [] => []
  | x :: rest => (start + x) :: running_totals (start + x) rest
  end.

(** Every term and every running total from 0 is a safe integer. *)
Definition safe_sum (terms : list Z) : Prop :=
  Forall safe_integer terms ∧ Forall safe_integer (running_totals 0 terms).

(** Every number of a value is a safe integer. *)
Fixpoint safe_json (v : json) : bool :=
  match v with
  | JNum n => (- MAX_SAFE_INTEGER <=? n) && (n <=? MAX_SAFE_INTEGER)
  | JArr l => forallb safe_json l
  | JObj o => forallb (fun kv => safe_json (snd kv)) o
  | _ => true
  end.

Definition safe_params (params : option json) : bool :=
  match params with
  | Some v => safe_json v
  | None => true
  end.

(** The prices the overview adds up. *)
Definition amounts (price : json → json) (items : list json) : list Z :=
  (fun item => number_of (price item)) <$> items.

(** ** Reading a cache key *)

(** A character that can follow a value in a serialization. *)
Definition closes (r : string) : Prop :=
  match r with
  | EmptyString => True
  | String c _ => c = ","%char ∨ c = "]"%char ∨ c = "}"%char
  end.

Definition is_digit (c : ascii) : bool :=
  match digit c with Some _ => true | None => false end.

Fixpoint all_digits (s : string) : bool :=
  match s with
  | EmptyString => true
  | String c r => is_digit c && all_digits r
  end.

(** No digit at the front. *)
Definition no_digit_ahead (r : string) : Prop :=
  match r with
  | EmptyString => True
  | String c _ => is_digit c = false
  end.

Fixpoint has_colon (s : string) : bool :=
  match s with
  | EmptyString => false
  | String c r => Ascii.eqb c ":" || has_colon r
  end.

(** All 256 characters. *)
Definition all_ascii : list ascii := List.map ascii_of_nat (seq 0 256).

(** The escapes of two different characters: neither starts the
    other. *)
Definition escapes_apart (c c' : ascii) : bool :=
  Ascii.eqb c c' || negb (String.prefix (quote_char c) (quote_char c')).

(** An escape is not empty and does not start with a double quote. *)
Definition escape_opens (c : ascii) : bool :=
  match quote_char c with
  | EmptyString => false
  | String a _ => negb (Ascii.eqb a (ascii_of_N 34))
  end.

(** The character a serialization starts with. *)
Definition opens (v : json) (c : ascii) : Prop :=
  match v with
  | JNull => c = "n"%char
  | JBool true => c = "t"%char
  | JBool false => c = "f"%char
  | JNum _ => is_digit c = true ∨ c = "-"%char
  | JStr _ => c = ascii_of_N 34
  | JArr _ => c = "["%char
  | JObj _ => c = "{"%char
  end.

(** A value whose serialization, followed by a closing character or
    by nothing, can be read back in one way only. *)
Definition reads_back {A} (pr : A → string) (x : A) : Prop :=
  ∀ x' t t', closes t → closes t' → pr x +:+ t = pr x' +:+ t' → x = x' ∧ t = t'.

(** One property of an object, as [JSON.stringify] prints it. *)
Definition stringify_entry (kv : string * json) : string :=
  quote kv.1 +:+ ":" +:+ stringify kv.2.

(** What follows the first element of a sequence printed with a
    separator. *)
Definition seq_tail (sep : string) (l : list string) (r : string) : string :=
  match l with
  | [] => r
  | _ => sep +:+ String.concat sep l +:+ r
  end.

(** ** Further concrete requests *)

(** The answer to the overview of wallet A, whose two tokens are worth
    20 and 1. *)
Definition ex_overview_result : json := overview_text (JStr "A") "21" 2 0.

(** A later moment, past the 120 seconds of tier 1, with a parser that
    reads this answer back. *)
Definition ex_later : env :=
  {| now := 200000; now_after := 200001;
     redis_configured := true; redis_ready := true; redis_ready_after := true;
     redis_get_fails := None; redis_set_fails := None;
     JSON_parse := fun payload =>
       if String.eqb payload (stringify ex_overview_result)
       then Some ex_overview_result else None;
     openai_create := openai_create ex_answering;
     anthropic_create := anthropic_create ex_answering;
     request_wallet_tokens := request_wallet_tokens ex_answering;
     request_wallet_nfts := request_wallet_nfts ex_answering;
     first_rejection := first_rejection ex_answering;
     other_handler := other_handler ex_answering;
     format_amount := format_amount ex_answering;
     format_usd := format_usd ex_answering |}.

(** A generation whose session is named by an array. *)
Definition ex_array_session_args : json :=
  JObj [("prompt", JStr "hello"); ("session_id", JArr [JStr "s1"])].

(* ===================================================================== *)
(** * Vocabulary of the properties of the analytics side *)
(* ===================================================================== *)

Module AnalyticsFacts.
Import JS Gateway Vybe Analytics.

(** The message of [_getApiKey]. *)
Definition no_api_key : js_error :=
  plain_error "API Key Error: The 'VYBE_API_KEY' environment variable is not set.".

(** The variable is unset or empty. *)
Definition key_missing (V : world) : Prop :=
  VYBE_API_KEY V = None ∨ VYBE_API_KEY V = Some EmptyString.

(** [s] starts with [p]. *)
Definition starts_with (p s : string) : Prop := ∃ rest, s = p +:+ rest.

(** The prefix [_request] puts on a failure. *)
Definition failed_for (path : string) : string :=
  "Vybe API request failed for path " +:+ path +:+ ": ".

(** A property that [_request] forwards: neither [undefined] nor
    [null]. *)
Definition forwarded (v : option json) : bool :=
  match v with
  | None | Some JNull => false
  | Some _ => true
  end.

(** The five query parameters of the [Many] endpoints. *)
Definition many_params : list string :=
  ["includeNoPriceBalance"; "limit"; "page"; "sortByAsc"; "sortByDesc"].

(** The client functions that post a list of wallets, with their paths
    and the query parameters they forward. *)
Definition many_endpoints (V : world)
  : list ((option json → argument → W upstream_outcome) * string * list string) :=
  [(postWalletNftsMany V, "/account/nft-balances", many_params);
   (postWalletTokensMany V, "/account/token-balances", many_params);
   (postWalletTokensTimeSeriesMany V, "/account/token-balances-ts", ["days"])].

(** A handler of an analytics method that takes parameters: the
    parameter it requires, the message when it is missing, and the
    prefix it puts on a failure. *)
Record analytics_method : Type := mk_method {
  a_name : string;
  a_handler : world → option json → W json;
  a_required : string;
  a_missing : string;
  a_prefix : string
}.

Definition analytics_methods : list analytics_method :=
  [ mk_method "solana_wallet_tokens" handleSolanaWalletTokens "address"
      "Wallet address is required" "Error fetching Solana tokens: ";
    mk_method "solana_wallet_nfts" handleSolanaWalletNFTs "address"
      "Wallet address is required" "Error fetching Solana NFTs: ";
    mk_method "solana_wallet_pnl" handleSolanaWalletPnL "address"
      "Wallet address is required" "Error fetching performance data: ";
    mk_method "solana_program_details" handleSolanaProgramDetails "program_id"
      "Program ID is required" "Error fetching program details: ";
    mk_method "solana_program_metrics" handleSolanaProgramMetrics "program_id"
      "Program ID is required" "Error fetching program metrics: " ].

(** The two handlers without parameters, with their prefixes. *)
Definition plain_methods (V : world) : list (string * W json * string) :=
  [ ("solana_market_sentiment", handleSolanaMarketSentiment V,
     "Error fetching market sentiment: ");
    ("solana_network_activity", handleSolanaNetworkActivity V,
     "Error fetching network activity: ") ].

(** The handler the [switch] calls for an analytics method that is
    modelled. *)
Definition analytics_handler (V : world) (name : string) (params : option json)
  : option (W json) :=
  match List.find (fun m => String.eqb name (a_name m)) analytics_methods with
  | Some m => Some (a_handler m V params)
  | None =>
      match List.find (fun m => String.eqb name m.1.1) (plain_methods V) with
      | Some m => Some m.1.2
      | None => None
      end
  end.

(** The gateway with these handlers in place of the parameter
    [other_handler]. *)
Definition with_analytics (V : world) (E : env) : env :=
  {| now := now E; now_after := now_after E;
     redis_configured := redis_configured E;
     redis_ready := redis_ready E; redis_ready_after := redis_ready_after E;
     redis_get_fails := redis_get_fails E; redis_set_fails := redis_set_fails E;
     JSON_parse := JSON_parse E; openai_create := openai_create E;
     anthropic_create := anthropic_create E;
     request_wallet_tokens := request_wallet_tokens E;
     request_wallet_nfts := request_wallet_nfts E;
     first_rejection := first_rejection E;
     other_handler := fun name params =>
       match analytics_handler V name params with
       | Some (Ok result, _) => Returned result
       | Some (Err e, _) => Threw e
       | None => other_handler E name params
       end;
     format_amount := format_amount E; format_usd := format_usd E |}.

(** A response with a JSON body. *)
Definition json_response (st : Z) (v : json) : fetch_outcome :=
  Responds {| res_status := st; res_statusText := "OK"; res_json := Read v;
              res_text := Unreadable (plain_error "body used already") |}.

(** The sum of the [count] fields of a series. *)
Definition count_sum (data : list json) : Z :=
  foldr (fun d acc => number_of (default JNull (prop d "count")) + acc) 0 data.

(** An element of a series with a number for its [count]. *)
Definition counted (d : json) : Prop := ∃ n, prop d "count" = Some (JNum n).

(** The line of an NFT, of a token, as a function. *)
Definition nft_text (index : nat) (nft : json) : string :=
  let price := or_opt (prop nft "valueUsd") (prop nft "usdPrice") in
  nl +:+ pretty (index + 1)%nat +:+ ". " +:+
  to_string (or_else (prop nft "name") (JStr "NFT")) +:+ " (" +:+
  (if truthy_opt price then "$" +:+ property_key price else "No valuation") +:+ ")".

(** An element of a series without a [count]. *)
Definition uncounted (d : json) : Prop := d ≠ JNull ∧ prop d "count" = None.

(** The request of a time series of a program. *)
Definition series_request (k : string) (program_id range : json) (suffix : string)
  : fetch_request :=
  {| href := "https://api.vybenetwork.xyz/program/" +:+ to_string program_id +:+ suffix;
     searchParams := [("range", to_string range)];
     http_method := "GET"; api_key_header := k; request_body := None |}.

(** The text of the metrics of a program. *)
Definition metrics_text (program_id range : json) (instructions transactions users : string)
  : json :=
  text_result (JStr (
    "Program Metrics for " +:+ to_string program_id +:+ " (last " +:+
      to_string range +:+ "):" +:+ nl +:+
    "Instructions: " +:+ instructions +:+ nl +:+
    "Transactions: " +:+ transactions +:+ nl +:+
    "Active Users: " +:+ users)).

(** The request of the ranking of programs, of the list of tokens. *)
Definition listing_request (k path : string) (query : list (string * string))
  : fetch_request :=
  {| href := "https://api.vybenetwork.xyz" +:+ path; searchParams := query;
     http_method := "GET"; api_key_header := k; request_body := None |}.

(** The figure the network activity counts for a program under a
    field: its value, 0 when it is missing or falsy. *)
Definition activity_of (field : string) (program : json) : json :=
  or_else (prop program field) (JNum 0).

Definition activity_sum (field : string) (data : list json) : Z :=
  foldr (fun program acc => number_of (activity_of field program) + acc) 0 data.

(** A program whose three figures are numbers. *)
Definition measured (program : json) : Prop :=
  program ≠ JNull ∧
  (∃ n, activity_of "instructionCount24h" program = JNum n) ∧
  (∃ n, activity_of "transactionCount24h" program = JNum n) ∧
  (∃ n, activity_of "userCount24h" program = JNum n).

Definition activity_text (V : world) (instructions transactions users : Z) (programs : nat)
  : json :=
  text_result (JStr (
    "Solana Network Activity (last 24h):" +:+ nl +:+ nl +:+
    "Instructions: " +:+ toLocaleString V (JNum instructions) +:+ nl +:+
    "Transactions: " +:+ toLocaleString V (JNum transactions) +:+ nl +:+
    "Active Users: " +:+ toLocaleString V (JNum users) +:+ nl +:+ nl +:+
    "Note: This data represents activity from the " +:+ pretty programs +:+
    " most active programs.")).

(** The line of a program, of a token, of the market sentiment. *)
Definition program_text (index : nat) (program : json) : string :=
  nl +:+ pretty (index + 1)%nat +:+ ". " +:+
  property_key (or_opt (prop program "name") (prop program "programId")) +:+
  ": " +:+ to_string (or_else (prop program "userCount24h") (JNum 0)) +:+ " active users".

Definition sentiment_token_text (V : world) (index : nat) (token : json) : string :=
  nl +:+ pretty (index + 1)%nat +:+ ". " +:+
  property_key (or_opt (prop token "symbol") (prop token "mintAddress")) +:+ ": " +:+
  match prop token "price" with
  | Some (JNum n) => "$" +:+ toFixed6 V n
  | _ => "N/A"
  end +:+ " (" +:+
  match or_opt (prop token "priceChange24h") (prop token "price1d") with
  | Some (JNum n) => pretty n +:+ "%"
  | _ => "N/A"
  end +:+ " 24h)".

(** The lines of a listing, or what stands for an empty one. *)
Definition lines_or (empty : string) (text_of : nat → json → string) (items : list json)
  : string :=
  match items with
  | [] => empty
  | _ => String.concat EmptyString (imap text_of items)
  end.

Definition sentiment_text (V : world) (programs tokens : list json) : json :=
  text_result (JStr (
    "Solana Market Sentiment:" +:+ nl +:+ nl +:+
    "TOP PROGRAMS BY ACTIVITY:" +:+
    lines_or (nl +:+ "No program data available") program_text programs +:+ nl +:+ nl +:+
    "TOP TOKENS BY PRICE:" +:+
    lines_or (nl +:+ "No token data available") (sentiment_token_text V) tokens)).

(** The counts a series adds up, the figures the network activity adds
    up under a field. *)
Definition counts (data : list json) : list Z :=
  (fun d => number_of (default JNull (prop d "count"))) <$> data.

Definition activity_terms (field : string) (data : list json) : list Z :=
  (fun program => number_of (activity_of field program)) <$> data.

(** The request [q] is answered with the value [v]: by a response with
    a 2xx status whose body reads as [v], the empty object on 204. *)
Definition answered (V : world) (q : fetch_request) (v : json) : Prop :=
  ∃ r, fetch V q = Responds r ∧ res_ok r = true ∧
       ((res_status r = 204 ∧ v = JObj []) ∨ (res_status r ≠ 204 ∧ res_json r = Read v)).

(** ** A concrete analytics API *)

(** [n.toLocaleString()] of an integer in the locale en-US: the digits
    in groups of three. *)
Definition three_digits (n : N) : string :=
  (if (n <? 100)%N then "0" else EmptyString) +:+
  (if (n <? 10)%N then "0" else EmptyString) +:+ pretty n.

Fixpoint grouped (fuel : nat) (n : N) : string :=
  match fuel with
  | O => pretty n
  | S fuel' =>
      if (n <? 1000)%N then pretty n
      else grouped fuel' (n / 1000)%N +:+ "," +:+ three_digits (n mod 1000)%N
  end.

Definition en_US (n : Z) : string :=
  (if n <? 0 then "-" else EmptyString) +:+
  grouped (N.to_nat (N.log2 (Z.to_N (Z.abs n)))) (Z.to_N (Z.abs n)).

Definition ex_data (items : list json) : fetch_outcome :=
  json_response 200 (JObj [("data", JArr items)]).

Definition ex_nfts : list json :=
  [JObj [("name", JStr "Ape"); ("valueUsd", JNum 5)]; JObj []].

Definition ex_programs : list json :=
  [JObj [("name", JStr "p1"); ("instructionCount24h", JNum 5000);
         ("transactionCount24h", JNum 2); ("userCount24h", JNum 1)];
   JObj [("programId", JStr "p2"); ("instructionCount24h", JNum 4)]].

Definition ex_tokens : list json := [JObj [("symbol", JStr "X"); ("price", JNum 2)]].

Definition ex_series (counts : list Z) : list json :=
  (fun n => JObj [("count", JNum n)]) <$> counts.

(** The API knows wallet A and program P. *)
Definition ex_fetch (q : fetch_request) : fetch_outcome :=
  let at_path path := String.eqb (href q) ("https://api.vybenetwork.xyz" +:+ path) in
  if at_path "/account/nft-balance/A" then ex_data ex_nfts
  else if at_path "/program/P/instructions-count-ts" then ex_data (ex_series [1000; 234])
  else if at_path "/program/P/transactions-count-ts" then ex_data (ex_series [3])
  else if at_path "/program/P/active-users-ts" then ex_data (ex_series [])
  else if at_path "/program/ranking" then ex_data ex_programs
  else if at_path "/tokens" then ex_data ex_tokens
  else if at_path "/account/nft-balances" then ex_data []
  else NetworkError (plain_error "fetch failed").

(** The process with or without its key, with the formats of the
    locale en-US on integers. *)
Definition ex_vybe (key : option string) : world :=
  {| VYBE_API_KEY := key; fetch := ex_fetch; first_rejected := 0;
     toLocaleString := fun v => match v with JNum n => en_US n | _ => to_string v end;
     toFixed6 := fun n => pretty n +:+ ".000000";
     string_above_zero := fun _ => false |}.

(** The same process when the network is down. *)
Definition ex_vybe_down : world :=
  {| VYBE_API_KEY := Some "key";
     fetch := fun _ => NetworkError (plain_error "fetch failed");
     first_rejected := 0;
     toLocaleString := toLocaleString (ex_vybe None);
     toFixed6 := toFixed6 (ex_vybe None);
     string_above_zero := string_above_zero (ex_vybe None) |}.

End AnalyticsFacts.

(* ===================================================================== *)
(** * Properties *)
(* ===================================================================== *)

(** ** Running the monad *)

Lemma run_bind {A B} (m : M A) (k : A → M B) (s : state) :
  (m ≫= k) s =
    match m s with
    | (Ret a, s1, t1) => match k a s1 with (r, s2, t2) => (r, s2, t1 ++ t2) end
    | (Throw e, s1, t1) => (Throw e, s1, t1)
    | (OutOfFuel, s1, t1) => (OutOfFuel, s1, t1)
    end.
Proof. reflexivity. Qed.

Lemma run_try_catch {A} (m : M A) (h : js_error → M A) (s : state) :
  try_catch m h s =
    match m s with
    | (Throw e, s1, t1) => match h e s1 with (r, s2, t2) => (r, s2, t1 ++ t2) end
    | r => r
    end.
Proof. reflexivity. Qed.

Lemma strict_eq_str_true (v : json) (lit : string) :
  strict_eq_str v lit = true ↔ v = JStr lit.
Proof.
  destruct v; simpl; try (split; [discriminate | intros H; discriminate H]).
  rewrite String.eqb_eq. split; [intros -> | intros [= ->]]; reflexivity.
Qed.

(** ** Envelope validation *)

(** C4. A request without [method], or whose [jsonrpc] field is not the
    string "2.0", is answered with the error -32600; the run has no
    effect at all: the trace is empty (no cache tier is read or written,
    no handler is started) and the state is the one before. *)
Theorem invalid_envelope_rejected (E : env) (fuel : nat) (req : envelope) (s : state) :
  method req = None ∨ jsonrpc req ≠ Some (JStr "2.0") →
  dispatch E fuel req s = (Ret invalid_request, s, []).
Proof.
  intros H. unfold dispatch.
  destruct H as [Hm | Hv].
  - rewrite Hm. simpl. rewrite orb_true_r. reflexivity.
  - destruct (jsonrpc req) as [v|] eqn:Hj; [|reflexivity].
    destruct (strict_eq_str v "2.0") eqn:Hs; [|reflexivity].
    apply strict_eq_str_true in Hs. subst v. congruence.
Qed.

(** ** The generative handlers *)

Lemma openai_is_generate (E : env) (fuel : nat) (params : option json) :
  handleOpenAIGenerate E fuel params
  = generate OpenAI (openai_create E) "gpt-4o" "OpenAI error: " fuel params.
Proof. reflexivity. Qed.

Lemma anthropic_is_generate (E : env) (fuel : nat) (params : option json) :
  handleAnthropicGenerate E fuel params
  = generate Anthropic (anthropic_create E) "claude-3-5-sonnet-20240620"
      "Anthropic error: " fuel params.
Proof. reflexivity. Qed.

Ltac count_calls :=
  unfold provider_calls, trace_of in *;
  cbn [snd length List.filter is_provider_call] in *.

Ltac calls_lia :=
  count_calls;
  first [ lia
        | repeat match goal with x : state |- _ => clear x end; lia ].

Section Retry.
Variable p : provider.
Variable r : completion_request.
Variable create : nat → completion_request → provider_outcome.

Lemma retry_loop_O (attempts : nat) (s : state) :
  retry_loop p r create 0 attempts s =
    if (attempts <? maxAttempts)%nat then (OutOfFuel, s, []) else (Ret None, s, []).
Proof. unfold retry_loop. destruct (attempts <? maxAttempts)%nat; reflexivity. Qed.

(** One iteration of the loop. *)
Lemma retry_loop_S (fuel attempts : nat) (s : state) :
  retry_loop p r create (S fuel) attempts s =
    if (attempts <? maxAttempts)%nat then
      match create attempts r with
      | Reply response => (Ret (Some response), s, [EvProvider p attempts r])
      | Fail apiError =>
          if (maxAttempts <=? S attempts)%nat || negb (is_retryable apiError)
          then (Throw apiError, s, [EvProvider p attempts r])
          else
            match retry_loop p r create fuel (S attempts) s with
            | (o, s', t) =>
                (o, s', EvProvider p attempts r
                        :: EvSleep (2 ^ Z.of_nat (S attempts) * 1000) :: t)
            end
      end
    else (Ret None, s, []).
Proof.
  change (retry_loop p r create (S fuel) attempts) with
    (if (attempts <? maxAttempts)%nat then
       emit (EvProvider p attempts r);;
       match create attempts r with
       | Reply response => ret (Some response)
       | Fail apiError =>
           if (maxAttempts <=? S attempts)%nat || negb (is_retryable apiError)
           then throw apiError
           else emit (EvSleep (2 ^ Z.of_nat (S attempts) * 1000));;
                retry_loop p r create fuel (S attempts)
       end
     else ret None).
  destruct (attempts <? maxAttempts)%nat; [|reflexivity].
  rewrite run_bind. unfold emit at 1.
  destruct (create attempts r) as [c|e]; [reflexivity|].
  destruct (_ || _); [reflexivity|].
  rewrite run_bind. unfold emit.
  destruct (retry_loop p r create fuel (S attempts) s) as [[o s'] t]. reflexivity.
Qed.

(** The loop reads and writes no state. *)
Lemma retry_loop_state (fuel attempts : nat) (s : state) :
  state_of (retry_loop p r create fuel attempts s) = s.
Proof.
  revert attempts. induction fuel as [|fuel IH]; intros attempts.
  - rewrite retry_loop_O. destruct (attempts <? maxAttempts)%nat; reflexivity.
  - rewrite retry_loop_S.
    destruct (attempts <? maxAttempts)%nat; [|reflexivity].
    destruct (create attempts r) as [c|e]; [reflexivity|].
    destruct (_ || _); [reflexivity|].
    specialize (IH (S attempts)).
    destruct (retry_loop p r create fuel (S attempts) s) as [[o s'] t].
    exact IH.
Qed.

(** Never more calls than attempts left under the ceiling, whatever
    the fuel. *)
Lemma retry_loop_calls (fuel attempts : nat) (s : state) :
  (provider_calls (trace_of (retry_loop p r create fuel attempts s))
   ≤ maxAttempts - attempts)%nat.
Proof.
  revert attempts. induction fuel as [|fuel IH]; intros attempts.
  - rewrite retry_loop_O.
    destruct (attempts <? maxAttempts)%nat; count_calls; lia.
  - rewrite retry_loop_S.
    destruct (Nat.ltb_spec attempts maxAttempts) as [Hlt|Hge];
      [|count_calls; lia].
    destruct (create attempts r) as [c|e].
    { count_calls; lia. }
    destruct (_ || _).
    { count_calls; lia. }
    specialize (IH (S attempts)).
    destruct (retry_loop p r create fuel (S attempts) s) as [[o s'] t].
    count_calls. lia.
Qed.
End Retry.


Section RetryPolicy.
Variable p : provider.
Variable r : completion_request.
Variable create : nat → completion_request → provider_outcome.

Lemma retried_step (from n : nat) :
  (from < n)%nat → retried r create from n →
  (∃ e, create from r = Fail e ∧ is_retryable e = true) ∧ retried r create (S from) n.
Proof.
  intros Hlt H. split; [apply H; lia|]. intros k Hk. apply H. lia.
Qed.

(** As long as the attempts before [n] were retryable failures and
    the ceiling is not reached, attempt [n] is made. *)
Lemma retry_loop_attempts (fuel attempts n : nat) (s : state) :
  (maxAttempts - attempts ≤ fuel)%nat →
  (attempts ≤ n < maxAttempts)%nat →
  retried r create attempts n →
  EvProvider p n r ∈ trace_of (retry_loop p r create fuel attempts s).
Proof.
  revert attempts. induction fuel as [|fuel IH]; intros attempts Hfuel Hn Hre.
  - unfold maxAttempts in *. lia.
  - rewrite retry_loop_S.
    destruct (Nat.ltb_spec attempts maxAttempts) as [Hlt|Hge]; [|lia].
    destruct (decide (n = attempts)) as [->|Hne].
    + destruct (create attempts r) as [c|e]; [apply list_elem_of_here|].
      destruct (_ || _); [apply list_elem_of_here|].
      destruct (retry_loop p r create fuel (S attempts) s) as [[o s'] t].
      apply list_elem_of_here.
    + apply retried_step in Hre as [(e & He & Hr) Hre]; [|lia].
      rewrite He, Hr.
      destruct (Nat.leb_spec maxAttempts (S attempts)) as [Hle|Hgt]; [lia|].
      cbn [negb orb].
      specialize (IH (S attempts) ltac:(unfold maxAttempts in *; lia) ltac:(lia) Hre).
      destruct (retry_loop p r create fuel (S attempts) s) as [[o s'] t].
      unfold trace_of in *. cbn [snd] in *.
      do 2 apply list_elem_of_further. exact IH.
Qed.

(** A failure that is not retryable, or that is the one of the last
    attempt, ends the loop: it is thrown, and no attempt follows. *)
Lemma retry_loop_terminal (fuel attempts n : nat) (e : js_error) (s : state) :
  (maxAttempts - attempts ≤ fuel)%nat →
  (attempts ≤ n < maxAttempts)%nat →
  retried r create attempts n →
  create n r = Fail e →
  is_retryable e = false ∨ S n = maxAttempts →
  result_of (retry_loop p r create fuel attempts s) = Throw e ∧
  provider_calls (trace_of (retry_loop p r create fuel attempts s)) = (S n - attempts)%nat.
Proof.
  revert attempts. induction fuel as [|fuel IH]; intros attempts Hfuel Hn Hre He Hterm.
  - unfold maxAttempts in *. lia.
  - rewrite retry_loop_S.
    destruct (Nat.ltb_spec attempts maxAttempts) as [Hlt|Hge]; [|lia].
    destruct (decide (n = attempts)) as [->|Hne].
    + rewrite He.
      assert (Hc : (maxAttempts <=? S attempts)%nat || negb (is_retryable e) = true).
      { destruct Hterm as [->| <-]; [apply orb_true_r|].
        rewrite Nat.leb_refl. reflexivity. }
      rewrite Hc. split; [reflexivity|]. count_calls. lia.
    + apply retried_step in Hre as [(e' & He' & Hr) Hre]; [|lia].
      rewrite He', Hr.
      destruct (Nat.leb_spec maxAttempts (S attempts)) as [Hle|Hgt]; [lia|].
      cbn [negb orb].
      specialize (IH (S attempts) ltac:(unfold maxAttempts in *; lia) ltac:(lia) Hre He Hterm).
      destruct (retry_loop p r create fuel (S attempts) s) as [[o s'] t].
      destruct IH as [IH1 IH2]. split; [exact IH1|].
      count_calls. rewrite IH2. lia.
Qed.

(** A loop that ends with a response got it from some attempt. *)
Lemma retry_loop_reply (fuel attempts : nat) (s : state) (response : list json) :
  result_of (retry_loop p r create fuel attempts s) = Ret (Some response) →
  ∃ n, (attempts ≤ n < maxAttempts)%nat ∧ create n r = Reply response ∧
       EvProvider p n r ∈ trace_of (retry_loop p r create fuel attempts s).
Proof.
  revert attempts. induction fuel as [|fuel IH]; intros attempts.
  - rewrite retry_loop_O. destruct (attempts <? maxAttempts)%nat; discriminate.
  - rewrite retry_loop_S.
    destruct (Nat.ltb_spec attempts maxAttempts) as [Hlt|Hge]; [|discriminate].
    destruct (create attempts r) as [c|e] eqn:Hc.
    { intros [= ->]. exists attempts. split; [lia|]. split; [exact Hc|].
      apply list_elem_of_here. }
    destruct (_ || _); [discriminate|].
    specialize (IH (S attempts)).
    destruct (retry_loop p r create fuel (S attempts) s) as [[o s'] t].
    intros H. destruct (IH H) as (n & Hn & Hr & Hin).
    exists n. split; [lia|]. split; [exact Hr|].
    unfold trace_of in *. cbn [snd] in *. do 2 apply list_elem_of_further. exact Hin.
Qed.

(** With fuel for [maxAttempts] iterations the loop ends by itself. *)
Lemma retry_loop_fuel (fuel attempts : nat) (s : state) :
  (maxAttempts - attempts ≤ fuel)%nat →
  result_of (retry_loop p r create fuel attempts s) ≠ OutOfFuel.
Proof.
  revert attempts. induction fuel as [|fuel IH]; intros attempts Hfuel.
  - rewrite retry_loop_O.
    destruct (Nat.ltb_spec attempts maxAttempts) as [Hlt|Hge]; [lia|discriminate].
  - rewrite retry_loop_S.
    destruct (Nat.ltb_spec attempts maxAttempts) as [Hlt|Hge]; [|discriminate].
    destruct (create attempts r) as [c|e]; [discriminate|].
    destruct (_ || _); [discriminate|].
    specialize (IH (S attempts) ltac:(unfold maxAttempts in *; lia)).
    destruct (retry_loop p r create fuel (S attempts) s) as [[o s'] t].
    exact IH.
Qed.
End RetryPolicy.

Ltac run_M :=
  unfold mbind, M_bind, fmap, M_fmap, bind, try_catch, ret, throw, out_of_fuel,
    emit, get_state, put_state in *;
  cbn beta iota zeta in *.

Section Generate.
Variable p : provider.
Variable create : nat → completion_request → provider_outcome.
Variables default_model prefix : string.

Lemma generate_valid (fuel : nat) (args : json) (prompt : string) (sid : json) (s : state) :
  valid_generate_args args prompt sid →
  generate p create default_model prefix fuel (Some args) s
  = conclude prefix s sid (sent_messages s prompt sid)
      (retry_loop p (sent_request default_model s args prompt sid) create fuel 0 s).
Proof.
  intros (Hnn & Hp & Hne & Hs & Ht).
  unfold generate. rewrite run_bind.
  assert (Hd : destructure (Some args) s = (Ret args, s, [])).
  { destruct args; try reflexivity. congruence. }
  rewrite Hd. rewrite Hp, Hs. cbn [truthy_opt truthy typeof_string default_to].
  assert (Hne' : String.eqb prompt EmptyString = false).
  { apply String.eqb_neq. exact Hne. }
  rewrite Hne', Ht. cbn [negb orb].
  rewrite run_try_catch. rewrite run_bind. unfold get_state at 1.
  rewrite run_bind.
  fold (sent_messages s prompt sid).
  fold (sent_request default_model s args prompt sid).
  pose proof (retry_loop_state p (sent_request default_model s args prompt sid) create fuel 0 s) as Hst.
  destruct (retry_loop p _ create fuel 0 s) as [[o s'] t].
  unfold state_of in Hst. simpl in Hst. subst s'.
  destruct o as [[[|c cs]|]|e|]; unfold first_content, set_context; run_M;
    rewrite ?app_nil_r; reflexivity.
Qed.

(** A call whose parameters fail validation: nothing happens. *)
Lemma generate_rejected (fuel : nat) (params : option json) (s : state) :
  (∀ args prompt sid, params = Some args → ¬ valid_generate_args args prompt sid) →
  ∃ e, generate p create default_model prefix fuel params s = (Throw e, s, [])
       ∧ (code e = None ∨ code e = Some (-32602)).
Proof.
  intros Hinv. unfold generate. rewrite run_bind.
  destruct params as [args|]; [|eexists; split; [reflexivity|left; reflexivity]].
  assert (Hnull : args = JNull ∨ args ≠ JNull)
    by (destruct args; auto; right; discriminate).
  destruct Hnull as [->|Hnn];
    [eexists; split; [reflexivity|left; reflexivity]|].
  assert (Hd : destructure (Some args) s = (Ret args, s, [])).
  { destruct args; try reflexivity. congruence. }
  rewrite Hd.
  destruct (negb (truthy_opt (prop args "prompt")) || negb (typeof_string (prop args "prompt"))) eqn:Hp;
    [eexists; split; [reflexivity|right; reflexivity]|].
  destruct (negb (truthy_opt (prop args "session_id"))) eqn:Hs;
    [eexists; split; [reflexivity|right; reflexivity]|].
  exfalso.
  apply orb_false_iff in Hp as [Hp1 Hp2].
  apply negb_false_iff in Hp1, Hp2, Hs.
  destruct (prop args "prompt") as [[| | |pr| |]|] eqn:Hpr; try discriminate.
  destruct (prop args "session_id") as [sid|] eqn:Hsid; try discriminate.
  apply (Hinv args pr sid eq_refl).
  repeat split; auto.
  simpl in Hp1. intros ->. discriminate.
Qed.

Lemma valid_or_not (params : option json) :
  (∃ args prompt sid, params = Some args ∧ valid_generate_args args prompt sid)
  ∨ (∀ args prompt sid, params = Some args → ¬ valid_generate_args args prompt sid).
Proof.
  destruct params as [args|]; [|right; intros ? ? ? [=]].
  assert (Hnull : args = JNull ∨ args ≠ JNull)
    by (destruct args; auto; right; discriminate).
  destruct Hnull as [->|Hnn].
  { right. intros ? ? ? [= <-] (H & _). congruence. }
  destruct (prop args "prompt") as [[| | |pr| |]|] eqn:Hp;
    try (right; intros ? ? ? [= <-] (_ & H & _); congruence).
  destruct (prop args "session_id") as [sid|] eqn:Hs;
    [|right; intros ? ? ? [= <-] (_ & _ & _ & H & _); congruence].
  destruct (truthy sid) eqn:Ht;
    [|right; intros ? ? ? [= <-] (_ & _ & _ & H & H'); congruence].
  destruct (String.eqb_spec pr EmptyString) as [->|Hne].
  { right. intros ? ? ? [= <-] (_ & H & H' & _). congruence. }
  left. exists args, pr, sid. repeat split; auto.
Qed.

(** At most [maxAttempts] completions are requested, whatever the
    parameters, the provider and the fuel. *)
Lemma generate_calls (fuel : nat) (params : option json) (s : state) :
  (provider_calls (trace_of (generate p create default_model prefix fuel params s))
   ≤ maxAttempts)%nat.
Proof.
  destruct (valid_or_not params) as [(args & prompt & sid & -> & Hv)|Hinv].
  - rewrite (generate_valid _ _ _ _ _ Hv).
    pose proof (retry_loop_calls p (sent_request default_model s args prompt sid)
                  create fuel 0 s) as Hc.
    destruct (retry_loop p _ create fuel 0 s) as [[o s'] t].
    destruct o as [[[|c cs]|]|e|]; unfold conclude; calls_lia.
  - destruct (generate_rejected fuel params s Hinv) as (e & -> & _).
    calls_lia.
Qed.

(** A call that throws leaves the state as it was. *)
Lemma generate_throw_state (fuel : nat) (params : option json) (s : state) (e : js_error) :
  result_of (generate p create default_model prefix fuel params s) = Throw e →
  state_of (generate p create default_model prefix fuel params s) = s.
Proof.
  destruct (valid_or_not params) as [(args & prompt & sid & -> & Hv)|Hinv].
  - rewrite (generate_valid _ _ _ _ _ Hv).
    destruct (retry_loop p _ create fuel 0 s) as [[o s'] t].
    destruct o as [[[|c cs]|]|e'|]; unfold conclude; try reflexivity.
    discriminate.
  - destruct (generate_rejected fuel params s Hinv) as (e' & -> & _). reflexivity.
Qed.

(** A call that returns got a response from the provider and wrote
    the session back. *)
Lemma generate_ret (fuel : nat) (params : option json) (s : state) (result : json) :
  result_of (generate p create default_model prefix fuel params s) = Ret result →
  ∃ args prompt sid n c cs,
    params = Some args ∧ valid_generate_args args prompt sid ∧
    (n < maxAttempts)%nat ∧
    create n (sent_request default_model s args prompt sid) = Reply (c :: cs) ∧
    result = text_result c ∧
    state_of (generate p create default_model prefix fuel params s)
    = with_context s sid
        (stored_turns (sent_messages s prompt sid ++ [mk_turn "assistant" c])).
Proof.
  destruct (valid_or_not params) as [(args & prompt & sid & -> & Hv)|Hinv].
  - rewrite (generate_valid _ _ _ _ _ Hv).
    pose proof (retry_loop_reply p (sent_request default_model s args prompt sid)
                  create fuel 0 s) as Hr.
    destruct (retry_loop p _ create fuel 0 s) as [[o s'] t].
    destruct o as [[[|c cs]|]|e'|]; unfold conclude; try discriminate.
    intros [= <-].
    destruct (Hr (c :: cs) eq_refl) as (n & Hn & Hc & _).
    exists args, prompt, sid, n, c, cs.
    split; [reflexivity|]. split; [exact Hv|]. split; [lia|]. split; [exact Hc|].
    split; reflexivity.
  - destruct (generate_rejected fuel params s Hinv) as (e' & -> & _). discriminate.
Qed.

(** With fuel for [maxAttempts] iterations the handler ends. *)
Lemma generate_fuel (fuel : nat) (params : option json) (s : state) :
  (maxAttempts ≤ fuel)%nat →
  result_of (generate p create default_model prefix fuel params s) ≠ OutOfFuel.
Proof.
  intros Hfuel.
  destruct (valid_or_not params) as [(args & prompt & sid & -> & Hv)|Hinv].
  - rewrite (generate_valid _ _ _ _ _ Hv).
    pose proof (retry_loop_fuel p (sent_request default_model s args prompt sid)
                  create fuel 0 s ltac:(lia)) as Hr.
    destruct (retry_loop p _ create fuel 0 s) as [[o s'] t].
    destruct o as [[[|c cs]|]|e'|]; unfold conclude; try discriminate.
    exfalso. apply Hr. reflexivity.
  - destruct (generate_rejected fuel params s Hinv) as (e' & -> & _). discriminate.
Qed.

(** The retry policy, seen from the handler. *)
Lemma generate_policy (fuel : nat) (args : json) (prompt : string) (sid : json) (s : state) :
  valid_generate_args args prompt sid →
  (maxAttempts ≤ fuel)%nat →
  let r := sent_request default_model s args prompt sid in
  let run := generate p create default_model prefix fuel (Some args) s in
  (∀ n, (n < maxAttempts)%nat → retried r create 0 n → EvProvider p n r ∈ trace_of run) ∧
  (∀ n e, (n < maxAttempts)%nat → retried r create 0 n → create n r = Fail e →
          is_retryable e = false ∨ S n = maxAttempts →
          result_of run = Throw (coded_error (prefix +:+ message e) (-32000)) ∧
          provider_calls (trace_of run) = S n ∧
          state_of run = s).
Proof.
  intros Hv Hfuel r run. subst run. rewrite (generate_valid _ _ _ _ _ Hv). fold r.
  split.
  - intros n Hn Hre.
    pose proof (retry_loop_attempts p r create fuel 0 n s ltac:(lia) ltac:(lia) Hre) as Hin.
    destruct (retry_loop p r create fuel 0 s) as [[o s'] t].
    destruct o as [[[|c cs]|]|e'|]; exact Hin.
  - intros n e Hn Hre He Hterm.
    destruct (retry_loop_terminal p r create fuel 0 n e s ltac:(lia) ltac:(lia) Hre He Hterm)
      as [H1 H2].
    destruct (retry_loop p r create fuel 0 s) as [[o s'] t].
    unfold result_of in H1. cbn [fst] in H1. subst o.
    unfold conclude. repeat split. calls_lia.
Qed.
(** The state changes in a call that returns, and in no other. *)
Lemma generate_state (fuel : nat) (params : option json) (s : state) :
  state_of (generate p create default_model prefix fuel params s) = s
  ∨ ∃ result, result_of (generate p create default_model prefix fuel params s) = Ret result.
Proof.
  destruct (valid_or_not params) as [(args & prompt & sid & -> & Hv)|Hinv].
  - rewrite (generate_valid _ _ _ _ _ Hv).
    destruct (retry_loop p _ create fuel 0 s) as [[o s'] t].
    destruct o as [[[|c cs]|]|e'|]; unfold conclude;
      try (left; reflexivity).
    right. eexists. reflexivity.
  - destruct (generate_rejected fuel params s Hinv) as (e' & -> & _).
    left. reflexivity.
Qed.
End Generate.

(** ** The claims on the generative handlers *)

Lemma is_retryable_iff (e : js_error) :
  is_retryable e = true ↔ retryable_status e.
Proof.
  unfold is_retryable, retryable_status. destruct (status e) as [st|].
  - rewrite orb_true_iff, Z.eqb_eq, Z.leb_le. split.
    + intros H. exists st. split; [reflexivity|exact H].
    + intros (st' & [= <-] & H). exact H.
  - split; [discriminate|]. intros (st' & [=] & _).
Qed.

Lemma family_is_generate (E : env) (g : family) :
  g ∈ families E →
  f_handler g = generate (f_provider g) (f_create g) (f_default_model g) (f_prefix g).
Proof.
  unfold families. rewrite !elem_of_cons, elem_of_nil.
  intros [->|[->|[]]]; reflexivity.
Qed.

Lemma map_get_set {V} (k : json) (v : V) (m : list (json * V)) :
  same_value_zero k k = true → map_get k (map_set k v m) = Some v.
Proof.
  intros Hk. induction m as [|[k' v'] r IH]; cbn [map_set map_get].
  - rewrite Hk. reflexivity.
  - destruct (same_value_zero k k') eqn:Hkk'; cbn [map_get]; rewrite Hkk';
      [reflexivity|exact IH].
Qed.

Lemma stored_turns_spec (turns : list turn) : stored_turns turns = truncate_spec turns.
Proof. destruct turns; reflexivity. Qed.

Lemma truncate_spec_long (turns : list turn) :
  (10 < length turns)%nat →
  ∃ anchor, turns !! 0%nat = Some anchor ∧
            truncate_spec turns = anchor :: drop (length turns - 9) turns ∧
            length (truncate_spec turns) = 10%nat.
Proof.
  intros Hlen. destruct turns as [|anchor rest]; [simpl in Hlen; lia|].
  exists anchor. unfold truncate_spec.
  destruct (Nat.ltb_spec 10 (length (anchor :: rest))) as [_|Hle]; [|lia].
  split; [reflexivity|]. split; [reflexivity|].
  change (skipn ?n ?l) with (drop n l).
  cbn [length]. rewrite length_drop. cbn [length] in *. lia.
Qed.

Lemma truncate_spec_short (turns : list turn) :
  (length turns ≤ 10)%nat → truncate_spec turns = turns.
Proof.
  intros Hlen. destruct turns as [|anchor rest]; [reflexivity|].
  unfold truncate_spec.
  destruct (Nat.ltb_spec 10 (length (anchor :: rest))) as [Hlt|_]; [lia|reflexivity].
Qed.

(** C2. Both generative handlers request at most 3 completions from
    their provider, whatever the parameters. For a call that passes
    validation: as long as the earlier attempts failed with status 429
    or a status of 500 and more, and fewer than 3 attempts were made,
    the next attempt is made; a failure with any other status (or with
    none), at attempt 1 or later, and the failure of attempt 3, end the
    call at once: the error is thrown with the handler's prefix and the
    code -32000, and the provider was called exactly as many times as
    attempts were made up to that failure. *)
Theorem generation_retry_policy (E : env) (g : family) (fuel : nat)
    (params : option json) (s : state) :
  g ∈ families E →
  (provider_calls (trace_of (f_handler g fuel params s)) ≤ 3)%nat ∧
  ∀ args prompt sid,
    params = Some args → valid_generate_args args prompt sid → (3 ≤ fuel)%nat →
    let r := sent_request (f_default_model g) s args prompt sid in
    let failed_retryable n :=
      ∀ k, (k < n)%nat → ∃ e, f_create g k r = Fail e ∧ retryable_status e in
    (∀ n, (n < 3)%nat → failed_retryable n →
          EvProvider (f_provider g) n r ∈ trace_of (f_handler g fuel params s)) ∧
    (∀ n e, (n < 3)%nat → failed_retryable n → f_create g n r = Fail e →
            ¬ retryable_status e ∨ n = 2%nat →
            result_of (f_handler g fuel params s)
            = Throw (coded_error (f_prefix g +:+ message e) (-32000)) ∧
            provider_calls (trace_of (f_handler g fuel params s)) = S n).
Proof.
  intros Hg. rewrite (family_is_generate E g Hg). split.
  - apply generate_calls.
  - intros args prompt sid -> Hv Hfuel r failed_retryable.
    assert (Hre : ∀ n, failed_retryable n → retried r (f_create g) 0 n).
    { intros n H k Hk. destruct (H k ltac:(lia)) as (e & He & Hr).
      exists e. split; [exact He|]. apply is_retryable_iff. exact Hr. }
    destruct (generate_policy (f_provider g) (f_create g) (f_default_model g) (f_prefix g)
                fuel args prompt sid s Hv Hfuel) as [HA HB].
    split.
    + intros n Hn Hf. apply HA; [exact Hn|]. apply Hre. exact Hf.
    + intros n e Hn Hf He Hterm.
      destruct (HB n e Hn (Hre n Hf) He) as (H1 & H2 & _).
      { destruct Hterm as [Hnr| ->]; [left|right; reflexivity].
        destruct (is_retryable e) eqn:Hr; [|reflexivity].
        exfalso. apply Hnr. apply is_retryable_iff. exact Hr. }
      split; assumption.
Qed.

Section Answered.
Variable p : provider.
Variable r : completion_request.
Variable create : nat → completion_request → provider_outcome.

(** The loop ends with the response of the first attempt that is
    answered, when the attempts before it failed with a retryable
    status. *)
Lemma retry_loop_answered (fuel attempts n : nat) (response : list json) (s : state) :
  (maxAttempts - attempts ≤ fuel)%nat →
  (attempts ≤ n < maxAttempts)%nat →
  retried r create attempts n →
  create n r = Reply response →
  result_of (retry_loop p r create fuel attempts s) = Ret (Some response).
Proof.
  revert attempts. induction fuel as [|fuel IH]; intros attempts Hfuel Hn Hre Hc.
  - unfold maxAttempts in *. lia.
  - rewrite retry_loop_S.
    assert (Hlt : (attempts <? maxAttempts)%nat = true) by (apply Nat.ltb_lt; lia).
    rewrite Hlt.
    destruct (Nat.eq_dec attempts n) as [->|Hne].
    + rewrite Hc. reflexivity.
    + destruct (retried_step r create attempts n ltac:(lia) Hre) as [(e & He & Hr) Hre'].
      rewrite He, Hr.
      assert (Hle : (maxAttempts <=? S attempts)%nat = false) by (apply Nat.leb_gt; lia).
      rewrite Hle. cbn [orb negb].
      specialize (IH (S attempts) ltac:(unfold maxAttempts in *; lia) ltac:(lia) Hre' Hc).
      destruct (retry_loop p r create fuel (S attempts) s) as [[o s'] t].
      exact IH.
Qed.
End Answered.

(** C3. The turns a generative handler of either family writes back
    for the session are the stored turns followed by the user turn and
    the assistant turn, truncated by the rule of the specification:
    with more than 10 turns, turn 0 followed by the last 9 (10 in
    all); otherwise all of them, unchanged. A handler that returns
    wrote them, and they are what the store then holds for a session
    identifier that is a string, a number or a boolean; and a call
    with valid parameters that its provider answers, at once or after
    attempts that failed with a retryable status, does return and
    write them. *)
Theorem stored_context_truncated (E : env) (g : family) (fuel : nat)
    (params : option json) (s : state) :
  g ∈ families E →
  (∀ result,
     result_of (f_handler g fuel params s) = Ret result →
     ∃ args prompt sid c,
       params = Some args ∧ valid_generate_args args prompt sid ∧
       result = text_result c ∧
       let updated := sent_messages s prompt sid ++ [mk_turn "assistant" c] in
       let stored := truncate_spec updated in
       state_of (f_handler g fuel params s) = with_context s sid stored ∧
       (same_value_zero sid sid = true →
          map_get sid (contextStore (state_of (f_handler g fuel params s))) = Some stored) ∧
       ((10 < length updated)%nat →
          ∃ anchor, updated !! 0%nat = Some anchor ∧
                    stored = anchor :: drop (length updated - 9) updated ∧
                    length stored = 10%nat) ∧
       ((length updated ≤ 10)%nat → stored = updated)) ∧
  (∀ args prompt sid n c cs,
     params = Some args → valid_generate_args args prompt sid → (3 ≤ fuel)%nat →
     let r := sent_request (f_default_model g) s args prompt sid in
     (n < 3)%nat →
     (∀ k, (k < n)%nat → ∃ e, f_create g k r = Fail e ∧ retryable_status e) →
     f_create g n r = Reply (c :: cs) →
     let updated := sent_messages s prompt sid ++ [mk_turn "assistant" c] in
     result_of (f_handler g fuel params s) = Ret (text_result c) ∧
     state_of (f_handler g fuel params s) = with_context s sid (truncate_spec updated)).
Proof.
  intros Hg. rewrite (family_is_generate E g Hg). split.
  - intros result Hret.
    destruct (generate_ret _ _ _ _ _ _ _ _ Hret)
      as (args & prompt & sid & n & c & cs & -> & Hv & _ & _ & -> & Hst).
    exists args, prompt, sid, c.
    split; [reflexivity|]. split; [exact Hv|]. split; [reflexivity|].
    cbn zeta. split; [|split; [|split]].
    + rewrite Hst, stored_turns_spec. reflexivity.
    + intros Hsid. rewrite Hst, stored_turns_spec. apply map_get_set, Hsid.
    + apply truncate_spec_long.
    + apply truncate_spec_short.
  - intros args prompt sid n c cs -> Hv Hfuel r Hn Hfailed Hreply updated.
    rewrite (generate_valid _ _ _ _ _ _ _ _ _ Hv).
    assert (Hre : retried r (f_create g) 0 n).
    { intros k Hk. destruct (Hfailed k ltac:(lia)) as (e & He & Hr).
      exists e. split; [exact He|]. apply is_retryable_iff. exact Hr. }
    pose proof (retry_loop_answered (f_provider g) r (f_create g) fuel 0 n (c :: cs) s
                  ltac:(unfold maxAttempts; lia) ltac:(unfold maxAttempts; lia) Hre Hreply)
      as Hloop.
    fold r. destruct (retry_loop (f_provider g) r (f_create g) fuel 0 s) as [[o s'] t].
    unfold result_of in Hloop. cbn [fst] in Hloop. subst o.
    unfold conclude, result_of, state_of. cbn [fst snd].
    rewrite stored_turns_spec. split; reflexivity.
Qed.

(** C10. A generative call of either family that throws, be it on its
    parameters or on the provider's failure, leaves the whole state,
    and so the context store, as it was. The state changes only in a
    call that returns, and such a call got a response from its
    provider and wrote the session back in one step. *)
Theorem failed_generation_keeps_context (E : env) (g : family) (fuel : nat)
    (params : option json) (s : state) :
  g ∈ families E →
  (∀ e, result_of (f_handler g fuel params s) = Throw e →
        state_of (f_handler g fuel params s) = s) ∧
  (state_of (f_handler g fuel params s) ≠ s →
   ∃ args prompt sid n c cs,
     params = Some args ∧ valid_generate_args args prompt sid ∧ (n < 3)%nat ∧
     f_create g n (sent_request (f_default_model g) s args prompt sid) = Reply (c :: cs) ∧
     result_of (f_handler g fuel params s) = Ret (text_result c) ∧
     state_of (f_handler g fuel params s)
     = with_context s sid
         (truncate_spec (sent_messages s prompt sid ++ [mk_turn "assistant" c]))).
Proof.
  intros Hg. rewrite (family_is_generate E g Hg). split.
  - intros e. apply generate_throw_state.
  - intros Hne.
    destruct (generate_state (f_provider g) (f_create g) (f_default_model g) (f_prefix g)
                fuel params s) as [Hs|[result Hret]]; [congruence|].
    destruct (generate_ret _ _ _ _ _ _ _ _ Hret)
      as (args & prompt & sid & n & c & cs & -> & Hv & Hn & Hc & -> & Hst).
    exists args, prompt, sid, n, c, cs.
    split; [reflexivity|]. split; [exact Hv|]. split; [exact Hn|]. split; [exact Hc|].
    split; [exact Hret|]. rewrite Hst, stored_turns_spec. reflexivity.
Qed.

(** ** Running the dispatcher *)

Lemma dispatch_run (E : env) (fuel : nat) (req : envelope) (m : json) (s : state) :
  valid_envelope req → method req = Some m →
  dispatch E fuel req s =
    match cache_lookup E m (params req) (id req) s with
    | (Ret (Some res), s1, t1) => (Ret res, s1, t1)
    | (Ret None, s1, t1) =>
        match route E fuel m (params req) s1 with
        | (Ret None, s2, t2) => (Ret (not_found m (id req)), s2, t1 ++ t2)
        | (Ret (Some result), s2, t2) =>
            match cache_populate E m (params req) result s2 with
            | (Ret _, s3, t3) => (Ret (ok_response result (id req)), s3, t1 ++ t2 ++ t3)
            | (Throw e, s3, t3) => (Ret (error_response e (id req)), s3, t1 ++ t2 ++ t3)
            | (OutOfFuel, s3, t3) => (OutOfFuel, s3, t1 ++ t2 ++ t3)
            end
        | (Throw e, s2, t2) => (Ret (error_response e (id req)), s2, t1 ++ t2)
        | (OutOfFuel, s2, t2) => (OutOfFuel, s2, t1 ++ t2)
        end
    | (Throw e, s1, t1) => (Ret (error_response e (id req)), s1, t1)
    | (OutOfFuel, s1, t1) => (OutOfFuel, s1, t1)
    end.
Proof.
  intros (Hj & Hm & Hi) Hmeth. unfold dispatch.
  rewrite Hmeth in Hm |- *. rewrite Hj, Hi, Hm.
  cbn [strict_eq_str negb orb default_to]. rewrite String.eqb_refl. cbn [negb orb].
  destruct (id req) as [i|] eqn:Hid; [|discriminate Hi].
  rewrite run_try_catch, run_bind.
  destruct (cache_lookup E m (params req) (Some i) s) as [[[[res|]|e|] s1] t1] eqn:Hl;
    try (run_M; rewrite ?app_nil_r; reflexivity).
  rewrite run_bind.
  destruct (route E fuel m (params req) s1) as [[[[result|]|e|] s2] t2] eqn:Hr;
    try (run_M; rewrite ?app_nil_r; reflexivity).
  rewrite run_bind.
  destruct (cache_populate E m (params req) result s2) as [[[[]|e|] s3] t3] eqn:Hp;
    run_M; rewrite ?app_nil_r; reflexivity.
Qed.

Lemma cacheable_str (name : string) (s : state) :
  cacheable (JStr name) s = (Ret (negb (fresh_only name)), s, []).
Proof.
  unfold cacheable, fresh_only. rewrite run_bind. cbn [method_includes].
  unfold ret at 1. destruct (includes "_generate" name); cbn [negb orb].
  - reflexivity.
  - rewrite run_bind. unfold ret. reflexivity.
Qed.

Lemma high_value_str (name : string) (s : state) :
  high_value (JStr name) s = (Ret (high_value_name name), s, []).
Proof.
  unfold high_value, high_value_name. rewrite run_bind. cbn [method_includes].
  unfold ret at 1. destruct (includes "_overview" name); cbn [orb]; [reflexivity|].
  rewrite run_bind. unfold ret at 1.
  destruct (includes "_details" name); cbn [orb]; reflexivity.
Qed.

Section Caching.
Variable E : env.

Lemma cache_lookup_fresh_only (name : string) (params id : option json) (s : state) :
  fresh_only name = true →
  cache_lookup E (JStr name) params id s = (Ret None, s, []).
Proof.
  intros H. unfold cache_lookup. rewrite run_bind, cacheable_str, H. reflexivity.
Qed.

Lemma cache_populate_fresh_only (name : string) (params : option json)
    (result : json) (s : state) :
  fresh_only name = true →
  cache_populate E (JStr name) params result s = (Ret tt, s, []).
Proof.
  intros H. unfold cache_populate. rewrite run_bind, cacheable_str, H. reflexivity.
Qed.

(** What the population step does for a cacheable method. *)
Lemma cache_populate_run (name : string) (params : option json)
    (result : json) (s : state) :
  fresh_only name = false →
  let key := cacheKey (JStr name) params in
  let s1 := with_tier1 s key result (now_after E + stdTTL * 1000) in
  cache_populate E (JStr name) params result s =
    if redis_configured E && redis_ready_after E && high_value_name name then
      (Ret tt,
       match redis_set_fails E with
       | Some _ => s1
       | None => with_tier2 s1 key (stringify result) (now_after E + redisEX * 1000)
       end,
       [EvTier1Set key result; EvTier2Set key (stringify result) redisEX])
    else (Ret tt, s1, [EvTier1Set key result]).
Proof.
  intros H key s1. unfold cache_populate. rewrite run_bind, cacheable_str, H.
  cbn [negb]. fold key. rewrite run_bind.
  unfold memoryCache_set at 1. run_M. fold s1.
  destruct (redis_configured E && redis_ready_after E) eqn:Hr; cbn [andb]; [|reflexivity].
  rewrite high_value_str.
  destruct (high_value_name name); [|reflexivity].
  unfold redisClient_set. run_M.
  destruct (redis_set_fails E); reflexivity.
Qed.
End Caching.

Lemma run_start (name : string) (h : M json) (s : state) :
  (emit (EvHandler name);; Some <$> h) s = start_handler name (h s).
Proof.
  rewrite run_bind. unfold emit at 1. unfold fmap, M_fmap, bind, ret.
  destruct (h s) as [[[r|e|] s'] t]; cbn; rewrite ?app_nil_r; reflexivity.
Qed.

Section Uncached.
Variable E : env.

Lemma quiet_nil : quiet [].
Proof. intros ev H. apply elem_of_nil in H. destruct H. Qed.

Lemma quiet_cons (ev : event) (t : list event) :
  is_cache_event ev = false → is_handler_start ev = false → quiet t → quiet (ev :: t).
Proof.
  intros H1 H2 Ht ev'. rewrite elem_of_cons. intros [->|H]; [split; assumption|auto].
Qed.

Lemma quiet_no_handler_start (t : list event) :
  quiet t → List.filter is_handler_start t = [].
Proof.
  induction t as [|ev t IH]; intros Hq; [reflexivity|]. cbn [List.filter].
  destruct (Hq ev (list_elem_of_here _ _)) as [_ ->].
  apply IH. intros ev' H. apply Hq, list_elem_of_further, H.
Qed.

Lemma retry_loop_quiet (p : provider) (r : completion_request)
    (create : nat → completion_request → provider_outcome)
    (fuel attempts : nat) (s : state) :
  quiet (trace_of (retry_loop p r create fuel attempts s)).
Proof.
  revert attempts. induction fuel as [|fuel IH]; intros attempts.
  - rewrite retry_loop_O. destruct (attempts <? maxAttempts)%nat; apply quiet_nil.
  - rewrite retry_loop_S.
    destruct (attempts <? maxAttempts)%nat; [|apply quiet_nil].
    destruct (create attempts r) as [c|e];
      [apply quiet_cons; [reflexivity|reflexivity|apply quiet_nil]|].
    destruct (_ || _);
      [apply quiet_cons; [reflexivity|reflexivity|apply quiet_nil]|].
    specialize (IH (S attempts)).
    destruct (retry_loop p r create fuel (S attempts) s) as [[o s'] t].
    repeat (apply quiet_cons; [reflexivity|reflexivity|]). exact IH.
Qed.

Lemma retry_loop_first_call (p : provider) (r : completion_request)
    (create : nat → completion_request → provider_outcome) (fuel : nat) (s : state) :
  (0 < fuel)%nat →
  (0 < provider_calls (trace_of (retry_loop p r create fuel 0 s)))%nat.
Proof.
  destruct fuel as [|fuel]; [lia|]. intros _. rewrite retry_loop_S.
  cbn [Nat.ltb Nat.leb maxAttempts].
  destruct (create 0%nat r) as [c|e]; [calls_lia|].
  destruct (_ || _); [calls_lia|].
  destruct (retry_loop p r create fuel 1 s) as [[o s'] t]. calls_lia.
Qed.

Lemma generate_cache_free (p : provider)
    (create : nat → completion_request → provider_outcome)
    (default_model prefix : string) (fuel : nat) (params : option json) (s : state) :
  cache_free s (generate p create default_model prefix fuel params s).
Proof.
  destruct (valid_or_not params) as [(args & prompt & sid & -> & Hv)|Hinv].
  - rewrite (generate_valid _ _ _ _ _ _ _ _ _ Hv).
    pose proof (retry_loop_quiet p (sent_request default_model s args prompt sid)
                  create fuel 0 s) as Hq.
    destruct (retry_loop p _ create fuel 0 s) as [[o s'] t].
    unfold cache_free.
    destruct o as [[[|c cs]|]|e'|]; unfold conclude;
    (split; [reflexivity|split; [reflexivity|exact Hq]]).
  - destruct (generate_rejected p create default_model prefix fuel params s Hinv)
      as (e' & -> & _).
    split; [reflexivity|split; [reflexivity|apply quiet_nil]].
Qed.

Lemma generate_first_call (p : provider)
    (create : nat → completion_request → provider_outcome)
    (default_model prefix : string) (fuel : nat) (args : json) (prompt : string)
    (sid : json) (s : state) :
  valid_generate_args args prompt sid → (0 < fuel)%nat →
  (0 < provider_calls
         (trace_of (generate p create default_model prefix fuel (Some args) s)))%nat.
Proof.
  intros Hv Hfuel. rewrite (generate_valid _ _ _ _ _ _ _ _ _ Hv).
  pose proof (retry_loop_first_call p (sent_request default_model s args prompt sid)
                create fuel s Hfuel) as Hc.
  destruct (retry_loop p _ create fuel 0 s) as [[o s'] t].
  destruct o as [[[|c cs]|]|e'|]; exact Hc.
Qed.

Lemma clear_context_cache_free (params : option json) (s : state) :
  cache_free s (handleClearContext params s).
Proof.
  unfold handleClearContext. rewrite run_bind.
  destruct params as [args|];
    [|split; [reflexivity|split; [reflexivity|apply quiet_nil]]].
  assert (Hnull : args = JNull ∨ args ≠ JNull)
    by (destruct args; auto; right; discriminate).
  destruct Hnull as [->|Hnn];
    [split; [reflexivity|split; [reflexivity|apply quiet_nil]]|].
  assert (Hd : destructure (Some args) s = (Ret args, s, [])).
  { destruct args; try reflexivity. congruence. }
  rewrite Hd.
  destruct (negb (truthy_opt (prop args "session_id")));
    unfold delete_context; run_M;
    (split; [reflexivity|split; [reflexivity|apply quiet_nil]]).
Qed.

(** The [switch] on one of the three methods. *)
Lemma route_uncached (fuel : nat) (name : string) (params : option json) (s : state) :
  name ∈ uncached_methods →
  ∃ h : M json,
    route E fuel (JStr name) params s = start_handler name (h s) ∧
    cache_free s (h s) ∧
    (name ≠ "clear_context" →
     ∀ args prompt sid, params = Some args → valid_generate_args args prompt sid →
       (0 < fuel)%nat → (0 < provider_calls (trace_of (h s)))%nat).
Proof.
  unfold uncached_methods. rewrite !elem_of_cons, elem_of_nil.
  intros [->|[->|[->|[]]]].
  - exists (handleOpenAIGenerate E fuel params). split; [apply run_start|].
    rewrite openai_is_generate. split; [apply generate_cache_free|].
    intros _ args prompt sid -> Hv Hf. apply (generate_first_call _ _ _ _ _ _ _ _ _ Hv Hf).
  - exists (handleAnthropicGenerate E fuel params). split; [apply run_start|].
    rewrite anthropic_is_generate. split; [apply generate_cache_free|].
    intros _ args prompt sid -> Hv Hf. apply (generate_first_call _ _ _ _ _ _ _ _ _ Hv Hf).
  - exists (handleClearContext params). split; [apply run_start|].
    split; [apply clear_context_cache_free|]. congruence.
Qed.

Lemma uncached_fresh_only (name : string) :
  name ∈ uncached_methods → fresh_only name = true.
Proof.
  unfold uncached_methods. rewrite !elem_of_cons, elem_of_nil.
  intros [->|[->|[->|[]]]]; reflexivity.
Qed.

(** A valid request for one of the three methods: the handler is
    started, runs without a look at the caches, and that is all. *)
Lemma dispatch_uncached (fuel : nat) (req : envelope) (name : string) (s : state) :
  valid_envelope req → method req = Some (JStr name) → name ∈ uncached_methods →
  ∃ t,
    trace_of (dispatch E fuel req s) = EvHandler name :: t ∧ quiet t ∧
    memoryCache (state_of (dispatch E fuel req s)) = memoryCache s ∧
    redis (state_of (dispatch E fuel req s)) = redis s ∧
    (name ≠ "clear_context" →
     ∀ args prompt sid, params req = Some args → valid_generate_args args prompt sid →
       (0 < fuel)%nat → (0 < provider_calls t)%nat).
Proof.
  intros Hv Hm Hn.
  rewrite (dispatch_run E fuel req (JStr name) s Hv Hm).
  rewrite (cache_lookup_fresh_only E name _ _ s (uncached_fresh_only name Hn)).
  destruct (route_uncached fuel name (params req) s Hn)
    as (h & -> & (Hmc & Hrd & Hq) & Hcall).
  destruct (h s) as [[o s'] t]. exists t.
  assert (Hrun : ∀ o', trace_of (o' : outcome response, s', [] ++ EvHandler name :: t)
                       = EvHandler name :: t) by reflexivity.
  destruct o as [r|e|]; cbn [start_handler];
    rewrite ?(cache_populate_fresh_only E name _ _ s' (uncached_fresh_only name Hn)),
            ?app_nil_r;
    (split; [reflexivity|]); (split; [exact Hq|]);
    (split; [exact Hmc|]); (split; [exact Hrd|]); exact Hcall.
Qed.
End Uncached.

(** ** Tier 2 out of order *)

Section Degrade.
Variable E : env.

Lemma route_without_tier2 (fuel : nat) (m : json) (params : option json) :
  route (without_tier2 E) fuel m params = route E fuel m params.
Proof. reflexivity. Qed.

Lemma route_with_set_ok (fuel : nat) (m : json) (params : option json) :
  route (with_set_ok E) fuel m params = route E fuel m params.
Proof. reflexivity. Qed.
End Degrade.

Section DegradeRead.
Variable E : env.
Variable e : js_error.
Hypothesis get_fails : redis_get_fails E = Some e.

(** With reads failing, the lookup ends as without Redis, in the
    same state. *)
Lemma cache_lookup_get_fails (m : json) (params id : option json) (s : state) :
  ∃ o s1 t t',
    cache_lookup E m params id s = (o, s1, t) ∧
    cache_lookup (without_tier2 E) m params id s = (o, s1, t') ∧
    List.filter (fun ev => negb (is_tier2_event ev)) t
    = List.filter (fun ev => negb (is_tier2_event ev)) t'.
Proof.
  unfold cache_lookup. rewrite !run_bind.
  destruct (cacheable m s) as [[[c|err|] s0] t0]; [|eauto 10..].
  destruct c; [|eauto 10].
  rewrite !run_bind.
  change (memoryCache_get (without_tier2 E)) with (memoryCache_get E).
  destruct (memoryCache_get E (cacheKey m params) s0) as [[[v|err|] s1] t1];
    [|eauto 10..].
  destruct (truthy_opt v); [eauto 10|].
  change (redis_configured (without_tier2 E)) with false. cbn [andb].
  destruct (redis_configured E && redis_ready E); [|eauto 10].
  rewrite run_try_catch, run_bind. unfold redisClient_get.
  rewrite run_bind. unfold emit at 1. rewrite get_fails. run_M.
  do 4 eexists. split; [reflexivity|]. split; [reflexivity|].
  rewrite !app_nil_r, !List.filter_app. cbn. rewrite !app_nil_r. reflexivity.
Qed.
End DegradeRead.

Section DegradeParse.
Variable E : env.
Hypothesis parse_fails : ∀ text, JSON_parse E text = None.

(** With payloads that do not parse, the lookup ends as without
    Redis, in the same state. *)
Lemma cache_lookup_parse_fails (m : json) (params id : option json) (s : state) :
  ∃ o s1 t t',
    cache_lookup E m params id s = (o, s1, t) ∧
    cache_lookup (without_tier2 E) m params id s = (o, s1, t') ∧
    List.filter (fun ev => negb (is_tier2_event ev)) t
    = List.filter (fun ev => negb (is_tier2_event ev)) t'.
Proof.
  unfold cache_lookup. rewrite !run_bind.
  destruct (cacheable m s) as [[[c|err|] s0] t0]; [|eauto 10..].
  destruct c; [|eauto 10].
  rewrite !run_bind.
  change (memoryCache_get (without_tier2 E)) with (memoryCache_get E).
  destruct (memoryCache_get E (cacheKey m params) s0) as [[[v|err|] s1] t1];
    [|eauto 10..].
  destruct (truthy_opt v); [eauto 10|].
  change (redis_configured (without_tier2 E)) with false. cbn [andb].
  destruct (redis_configured E && redis_ready E); [|eauto 10].
  rewrite run_try_catch, run_bind. unfold redisClient_get, parse.
  rewrite run_bind. unfold emit at 1.
  destruct (redis_get_fails E) as [e|]; run_M.
  - do 4 eexists. split; [reflexivity|]. split; [reflexivity|].
    rewrite !app_nil_r, !List.filter_app. cbn. rewrite !app_nil_r. reflexivity.
  - destruct (redis s1 !! cacheKey m params) as [[payload t]|]; cbn.
    + destruct (now E <? t); cbn.
      * destruct (String.eqb payload EmptyString); cbn; rewrite ?parse_fails; cbn;
          do 4 eexists; (split; [reflexivity|]); (split; [reflexivity|]);
          rewrite ?app_nil_r, !List.filter_app; cbn; rewrite ?app_nil_r; reflexivity.
      * do 4 eexists. split; [reflexivity|]. split; [reflexivity|].
        rewrite ?app_nil_r, !List.filter_app. cbn. rewrite ?app_nil_r. reflexivity.
    + do 4 eexists. split; [reflexivity|]. split; [reflexivity|].
      rewrite ?app_nil_r, !List.filter_app. cbn. rewrite ?app_nil_r. reflexivity.
Qed.
End DegradeParse.

Ltac unfold_cache :=
  unfold cache_populate, cache_lookup, cacheable, high_value, method_includes,
    memoryCache_set, memoryCache_get, redisClient_set, redisClient_get, parse;
  run_M.

Ltac split_ifs :=
  repeat match goal with
         | p : (_ * _)%type |- _ => destruct p; cbn
         | |- context [if ?b then _ else _] => destruct b eqn:?; cbn
         | |- context [match ?x with Some _ => _ | None => _ end] => destruct x eqn:?; cbn
         end.

Section DegradeWrite.
Variable E : env.

(** The population step without Redis: tier 1 is written alike. *)
Lemma cache_populate_without_tier2 (m : json) (params : option json)
    (result : json) (s : state) :
  same_but_tier2 (cache_populate E m params result s)
                 (cache_populate (without_tier2 E) m params result s).
Proof.
  unfold same_but_tier2, observe, result_of, state_of, trace_of.
  destruct m; unfold_cache; cbn; split_ifs; rewrite ?app_nil_r; repeat split.
Qed.

(** Whether a write to Redis fails or not shows in Redis only. *)
Lemma cache_populate_with_set_ok (m : json) (params : option json)
    (result : json) (s : state) :
  same_but_tier2 (cache_populate E m params result s)
                 (cache_populate (with_set_ok E) m params result s).
Proof.
  unfold same_but_tier2, observe, result_of, state_of, trace_of.
  destruct m; unfold_cache; cbn; split_ifs; rewrite ?app_nil_r; repeat split.
Qed.

Lemma cache_lookup_with_set_ok (m : json) (params id : option json) :
  cache_lookup (with_set_ok E) m params id = cache_lookup E m params id.
Proof. reflexivity. Qed.
End DegradeWrite.

Lemma envelope_cases (req : envelope) :
  (valid_envelope req ∧ ∃ m, method req = Some m)
  ∨ (¬ valid_envelope req ∧
     ∀ E fuel s, dispatch E fuel req s = (Ret invalid_request, s, [])).
Proof.
  unfold valid_envelope, dispatch.
  destruct (jsonrpc req) as [v|];
    [|right; split; [intros (H & _); discriminate H|reflexivity]].
  destruct (strict_eq_str v "2.0") eqn:Hv.
  2:{ right. split; [|reflexivity]. intros ([= ->] & _).
      cbn in Hv. discriminate Hv. }
  apply strict_eq_str_true in Hv. subst v.
  destruct (method req) as [m|];
    [|right; split; [intros (_ & H & _); discriminate H|reflexivity]].
  destruct (truthy_opt (Some m));
    [|right; split; [intros (_ & H & _); discriminate H|reflexivity]].
  destruct (truthy_opt (id req));
    [|right; split; [intros (_ & _ & H); discriminate H|reflexivity]].
  left. eauto.
Qed.

Lemma same_but_tier2_observe (o : outcome response) (s s' : state) (t t' : list event) :
  memoryCache s = memoryCache s' → contextStore s = contextStore s' →
  List.filter (fun ev => negb (is_tier2_event ev)) t
  = List.filter (fun ev => negb (is_tier2_event ev)) t' →
  observe (o, s, t) = observe (o, s', t').
Proof.
  intros H1 H2 H3. unfold observe, result_of, state_of, trace_of. cbn [fst snd].
  rewrite H1, H2, H3. reflexivity.
Qed.

(** The dispatcher after the lookup, under two environments that route
    alike and populate tier 1 alike. *)
Lemma dispatch_same_but_tier2 (E E' : env) (fuel : nat) (req : envelope) (s : state) :
  (∀ m, route E' fuel m (params req) = route E fuel m (params req)) →
  (∀ m result s2,
     same_but_tier2 (cache_populate E m (params req) result s2)
                    (cache_populate E' m (params req) result s2)) →
  (∀ m, ∃ o s1 t t',
     cache_lookup E m (params req) (id req) s = (o, s1, t) ∧
     cache_lookup E' m (params req) (id req) s = (o, s1, t') ∧
     List.filter (fun ev => negb (is_tier2_event ev)) t
     = List.filter (fun ev => negb (is_tier2_event ev)) t') →
  observe (dispatch E fuel req s) = observe (dispatch E' fuel req s).
Proof.
  intros Hroute Hpop Hlook.
  destruct (envelope_cases req) as [[Hv [m Hm]]|[_ Hinv]]; [|rewrite !Hinv; reflexivity].
  rewrite (dispatch_run E fuel req m s Hv Hm), (dispatch_run E' fuel req m s Hv Hm).
  destruct (Hlook m) as (o & s1 & t & t' & -> & -> & Ht).
  destruct o as [[res|]|err|]; try (apply same_but_tier2_observe; auto).
  rewrite Hroute.
  destruct (route E fuel m (params req) s1) as [[[[result|]|err|] s2] t2];
    try (apply same_but_tier2_observe; auto; rewrite !List.filter_app, Ht; reflexivity).
  specialize (Hpop m result s2).
  destruct (cache_populate E m (params req) result s2) as [[o3 s3] t3].
  destruct (cache_populate E' m (params req) result s2) as [[o3' s3'] t3'].
  destruct Hpop as (Ho & Hmc & Hcs & Htr).
  unfold result_of, state_of, trace_of in Ho, Hmc, Hcs, Htr. cbn [fst snd] in *. subst o3'.
  destruct o3 as [[]|err|]; apply same_but_tier2_observe; auto;
    rewrite !List.filter_app, Ht, Htr; reflexivity.
Qed.

(** ** The dispatcher always answers *)

Lemma ends_ret {A} (a : A) : ends (ret a).
Proof. intros s. discriminate. Qed.

Lemma ends_mret {A} (a : A) : ends (mret a : M A).
Proof. intros s. discriminate. Qed.

Lemma ends_throw {A} (e : js_error) : ends (throw e : M A).
Proof. intros s. discriminate. Qed.

Lemma ends_emit (ev : event) : ends (emit ev).
Proof. intros s. discriminate. Qed.

Lemma ends_get_state : ends get_state.
Proof. intros s. discriminate. Qed.

Lemma ends_put_state (s' : state) : ends (put_state s').
Proof. intros s. discriminate. Qed.

Lemma ends_bind {A B} (m : M A) (k : A → M B) :
  ends m → (∀ a, ends (k a)) → ends (m ≫= k).
Proof.
  intros Hm Hk s. rewrite run_bind. specialize (Hm s).
  destruct (m s) as [[[a|e|] s1] t1]; try discriminate.
  - specialize (Hk a s1). destruct (k a s1) as [[r s2] t2]. exact Hk.
  - exfalso. apply Hm. reflexivity.
Qed.

Lemma ends_fmap {A B} (f : A → B) (m : M A) : ends m → ends (f <$> m).
Proof. intros Hm. apply (ends_bind m); [exact Hm|]. intros a. apply ends_ret. Qed.

Lemma ends_try_catch {A} (m : M A) (h : js_error → M A) :
  ends m → (∀ e, ends (h e)) → ends (try_catch m h).
Proof.
  intros Hm Hh s. rewrite run_try_catch. specialize (Hm s).
  destruct (m s) as [[[a|e|] s1] t1]; try discriminate.
  - specialize (Hh e s1). destruct (h e s1) as [[r s2] t2]. exact Hh.
  - exfalso. apply Hm. reflexivity.
Qed.

Ltac ends_step :=
  first [ apply ends_ret | apply ends_mret | apply ends_throw | apply ends_emit
        | apply ends_get_state | apply ends_put_state
        | apply ends_fmap
        | apply ends_try_catch; [|intros ?]
        | apply ends_bind; [|intros ?] ].

Ltac ends_auto :=
  repeat first
    [ ends_step
    | match goal with
      | |- ends (if ?b then _ else _) => destruct b
      | |- ends (match ?x with _ => _ end) => destruct x
      | |- ends (let '(_, _) := ?x in _) => destruct x
      end ].

Section Ends.
Variable E : env.

Lemma ends_destructure (params : option json) : ends (destructure params).
Proof. unfold destructure. ends_auto. Qed.

Lemma ends_reduce_sum (price : json → json) (data : list json) (sum : sum_value) :
  ends (reduce_sum price data sum).
Proof.
  revert sum. induction data as [|item rest IH]; intros sum; cbn [reduce_sum].
  - ends_auto.
  - destruct item; first [apply ends_throw | apply IH].
Qed.

Lemma ends_count_and_sum (price : json → json) (result : json) :
  ends (count_and_sum price result).
Proof.
  unfold count_and_sum.
  destruct (truthy result && truthy_opt (prop result "data")); [|ends_auto].
  destruct (prop result "data") as [[]|]; try apply ends_throw.
  apply ends_bind; [apply ends_reduce_sum|]. intros a. ends_auto.
Qed.

Lemma ends_getWalletTokens (a : option json) : ends (getWalletTokens E a).
Proof. unfold getWalletTokens. ends_auto. Qed.

Lemma ends_getWalletNfts (a : option json) : ends (getWalletNfts E a).
Proof. unfold getWalletNfts. ends_auto. Qed.

Lemma ends_promise_all (ps : list upstream_outcome) : ends (promise_all E ps).
Proof. unfold promise_all. ends_auto. Qed.

Lemma ends_overview (params : option json) : ends (handleSolanaWalletOverview E params).
Proof.
  unfold handleSolanaWalletOverview.
  apply ends_bind; [apply ends_destructure|]. intros args.
  destruct (negb _); [apply ends_throw|].
  apply ends_try_catch; [|intros e; apply ends_throw].
  apply ends_bind; [apply ends_getWalletTokens|]. intros p1.
  apply ends_bind; [apply ends_getWalletNfts|]. intros p2.
  apply ends_bind; [apply ends_promise_all|]. intros results.
  apply ends_bind; [apply ends_count_and_sum|]. intros tokens.
  destruct (match tokens with Some _ => _ | None => _ end) as [tokenCount total].
  apply ends_bind; [apply ends_count_and_sum|]. intros nfts.
  destruct (match nfts with Some _ => _ | None => _ end) as [nftCount total'].
  apply ends_ret.
Qed.

Lemma ends_issue_wallet_tokens (addresses : list json) :
  ends (issue_wallet_tokens E addresses).
Proof.
  induction addresses as [|a rest IH]; cbn [issue_wallet_tokens]; [ends_auto|].
  apply ends_bind; [apply ends_getWalletTokens|]. intros p.
  apply ends_bind; [apply IH|]. intros ps. ends_auto.
Qed.

Lemma ends_record_token (address : string) (token : json) (tbm : obj token_entry) :
  ends (record_token address token tbm).
Proof.
  unfold record_token. destruct token; try apply ends_throw;
    destruct (get _ tbm); try apply ends_ret;
    destruct (inherited _); first [apply ends_throw | apply ends_ret].
Qed.

Lemma ends_record_tokens (address : string) (data : list json) (tbm : obj token_entry) :
  ends (record_tokens address data tbm).
Proof.
  revert tbm. induction data as [|token rest IH]; intros tbm; cbn [record_tokens].
  - ends_auto.
  - apply ends_bind; [apply ends_record_token|]. intros tbm'. apply IH.
Qed.

Lemma ends_record_result (address result : json) (tbm : obj token_entry) :
  ends (record_result address result tbm).
Proof.
  unfold record_result.
  destruct result; try apply ends_ret;
    (destruct (truthy_opt _); [|apply ends_ret]);
    destruct (prop _ "data") as [[]|];
    first [apply ends_throw | apply ends_record_tokens].
Qed.

Lemma ends_record_results (addresses results : list json) (tbm : obj token_entry) :
  ends (record_results addresses results tbm).
Proof.
  revert results tbm. induction addresses as [|a addresses IH];
    intros results tbm; destruct results as [|result rest];
    cbn [record_results]; try apply ends_ret.
  apply ends_bind; [apply ends_record_result|]. intros tbm'. apply IH.
Qed.

Lemma ends_cross_analysis (params : option json) :
  ends (handleSolanaCrossAnalysis E params).
Proof.
  unfold handleSolanaCrossAnalysis.
  apply ends_bind; [apply ends_destructure|]. intros args.
  destruct (prop args "addresses") as [[| | | |[|a rest]|]|]; try apply ends_throw.
  apply ends_try_catch; [|intros e; apply ends_throw].
  apply ends_bind; [apply ends_issue_wallet_tokens|]. intros ps.
  apply ends_bind; [apply ends_promise_all|]. intros results.
  apply ends_bind; [apply ends_record_results|]. intros tbm.
  apply ends_ret.
Qed.

Lemma ends_clear_context (params : option json) : ends (handleClearContext params).
Proof.
  unfold handleClearContext, delete_context.
  apply ends_bind; [apply ends_destructure|]. intros args. ends_auto.
Qed.

Lemma ends_route (fuel : nat) (m : json) (params : option json) :
  (maxAttempts ≤ fuel)%nat → ends (route E fuel m params).
Proof.
  intros Hfuel. unfold route. destruct m; try apply ends_ret.
  repeat match goal with
         | |- ends (if ?b then _ else _) => destruct b
         end; try apply ends_ret;
    (apply ends_bind; [apply ends_emit|]; intros _; apply ends_fmap).
  - rewrite openai_is_generate. intros s0. apply generate_fuel. exact Hfuel.
  - rewrite anthropic_is_generate. intros s0. apply generate_fuel. exact Hfuel.
  - apply ends_clear_context.
  - apply ends_overview.
  - apply ends_cross_analysis.
  - unfold run_other. ends_auto.
Qed.

Lemma ends_cache_lookup (m : json) (params id : option json) :
  ends (cache_lookup E m params id).
Proof.
  intros s. unfold result_of.
  destruct m; unfold_cache; cbn; split_ifs; discriminate.
Qed.

Lemma ends_cache_populate (m : json) (params : option json) (result : json) :
  ends (cache_populate E m params result).
Proof.
  intros s. unfold result_of.
  destruct m; unfold_cache; cbn; split_ifs; discriminate.
Qed.

(** With fuel for the retry loop, every request gets a response. *)
Lemma dispatch_total (fuel : nat) (req : envelope) (s : state) :
  (maxAttempts ≤ fuel)%nat →
  ∃ res, result_of (dispatch E fuel req s) = Ret res.
Proof.
  intros Hfuel.
  destruct (envelope_cases req) as [[Hv [m Hm]]|[_ Hinv]];
    [|rewrite Hinv; eexists; reflexivity].
  rewrite (dispatch_run E fuel req m s Hv Hm).
  pose proof (ends_cache_lookup m (params req) (id req) s) as Hl.
  destruct (cache_lookup E m (params req) (id req) s) as [[[[res|]|err|] s1] t1];
    try (eexists; reflexivity); [|exfalso; apply Hl; reflexivity].
  pose proof (ends_route fuel m (params req) Hfuel s1) as Hr.
  destruct (route E fuel m (params req) s1) as [[[[result|]|err|] s2] t2];
    try (eexists; reflexivity); [|exfalso; apply Hr; reflexivity].
  pose proof (ends_cache_populate m (params req) result s2) as Hp.
  destruct (cache_populate E m (params req) result s2) as [[[[]|err|] s3] t3];
    try (eexists; reflexivity). exfalso; apply Hp; reflexivity.
Qed.
End Ends.

(** C8. A request for [openai_generate], [anthropic_generate] or
    [clear_context] never touches a cache tier: called twice in a row
    with the same envelope (the second call starting from the state
    the first one left), neither run reads or writes tier 1 or tier 2,
    and both tiers hold what they held before. When the envelope is
    valid, each run starts the handler of the method, first of all its
    effects and once, and a generative handler whose parameters pass
    validation calls its provider in each run. *)
Theorem generative_methods_never_cached (E1 E2 : env) (fuel : nat)
    (req : envelope) (name : string) (s : state) :
  method req = Some (JStr name) →
  name ∈ uncached_methods →
  let run1 := dispatch E1 fuel req s in
  let run2 := dispatch E2 fuel req (state_of run1) in
  (∀ ev, ev ∈ trace_of run1 ++ trace_of run2 → is_cache_event ev = false) ∧
  memoryCache (state_of run2) = memoryCache s ∧
  redis (state_of run2) = redis s ∧
  (valid_envelope req →
     head (trace_of run1) = Some (EvHandler name) ∧
     head (trace_of run2) = Some (EvHandler name) ∧
     List.filter is_handler_start (trace_of run1) = [EvHandler name] ∧
     List.filter is_handler_start (trace_of run2) = [EvHandler name] ∧
     (name ≠ "clear_context" →
      ∀ args prompt sid,
        params req = Some args → valid_generate_args args prompt sid → (0 < fuel)%nat →
        (0 < provider_calls (trace_of run1))%nat ∧
        (0 < provider_calls (trace_of run2))%nat)).
Proof.
  intros Hm Hn run1 run2.
  destruct (envelope_cases req) as [[Hv _]|[Hnv Hinv]].
  - destruct (dispatch_uncached E1 fuel req name s Hv Hm Hn)
      as (t1 & Ht1 & Hq1 & Hmc1 & Hrd1 & Hp1).
    destruct (dispatch_uncached E2 fuel req name (state_of run1) Hv Hm Hn)
      as (t2 & Ht2 & Hq2 & Hmc2 & Hrd2 & Hp2).
    fold run1 in Ht1, Hmc1, Hrd1, Ht2, Hmc2, Hrd2. fold run2 in Ht2, Hmc2, Hrd2.
    rewrite Ht1, Ht2. cbn [head List.filter is_handler_start].
    rewrite (quiet_no_handler_start t1 Hq1), (quiet_no_handler_start t2 Hq2).
    split; [|split; [congruence|split; [congruence|]]].
    + intros ev. rewrite elem_of_app, !elem_of_cons.
      intros [[->|H]|[->|H]]; try reflexivity; [apply (Hq1 ev H)|apply (Hq2 ev H)].
    + intros _. repeat (split; [reflexivity|]).
      intros Hne args prompt sid Ha Hva Hf.
      specialize (Hp1 Hne args prompt sid Ha Hva Hf).
      specialize (Hp2 Hne args prompt sid Ha Hva Hf).
      unfold provider_calls in *. cbn [List.filter is_provider_call]. split; assumption.
  - subst run2 run1. rewrite !Hinv. cbn [state_of fst snd]. rewrite ?Hinv.
    split; [|split; [reflexivity|split; [reflexivity|]]].
    + intros ev H. apply elem_of_nil in H. destruct H.
    + intros Hv. contradiction.
Qed.

(** C9. A request for a cacheable method that is served by neither
    tier and whose handler returns [result] is answered with [result];
    after the handler the dispatcher writes [result] into tier 1 under
    the request's key with the default TTL of 120 seconds, whatever
    the method, and then writes its serialization into tier 2, with an
    expiry of 300 seconds, exactly when Redis is configured and, at
    that time, ready and the method name contains "_overview",
    "_details" or "_holders".
    Nothing else is done, and 120 < 300. *)
Theorem full_miss_populates_caches (E : env) (fuel : nat) (req : envelope)
    (name : string) (s s1 s2 : state) (t1 t2 : list event) (result : json) :
  valid_envelope req →
  method req = Some (JStr name) →
  fresh_only name = false →
  cache_lookup E (JStr name) (params req) (id req) s = (Ret None, s1, t1) →
  route E fuel (JStr name) (params req) s1 = (Ret (Some result), s2, t2) →
  let key := cacheKey (JStr name) (params req) in
  let tier2 := redis_configured E && redis_ready_after E && high_value_name name in
  let run := dispatch E fuel req s in
  result_of run = Ret (ok_response result (id req)) ∧
  trace_of run
  = t1 ++ t2 ++ EvTier1Set key result
       :: (if tier2 then [EvTier2Set key (stringify result) 300] else []) ∧
  memoryCache (state_of run)
  = <[key := (result, now_after E + 120 * 1000)]> (memoryCache s2) ∧
  redis (state_of run)
  = (if tier2 && bool_decide (redis_set_fails E = None)
     then <[key := (stringify result, now_after E + 300 * 1000)]> (redis s2)
     else redis s2) ∧
  contextStore (state_of run) = contextStore s2 ∧
  stdTTL = 120 ∧ redisEX = 300 ∧ stdTTL < redisEX.
Proof.
  intros Hv Hm Hfresh Hlookup Hroute key tier2 run. subst run.
  rewrite (dispatch_run E fuel req (JStr name) s Hv Hm), Hlookup, Hroute.
  rewrite (cache_populate_run E name (params req) result s2 Hfresh).
  fold key. fold tier2.
  destruct tier2; cbn [andb].
  - destruct (redis_set_fails E) as [e|]; cbn [bool_decide];
      repeat split; reflexivity.
  - repeat split; reflexivity.
Qed.

(** C7. A failing read from Redis never fails the request: the
    response, tier 1, the context store and every effect other than
    the traffic with Redis are those of the same request served
    without Redis (tier 1 only). The same holds when what Redis holds
    does not parse. A failing write to Redis shows likewise nowhere
    but in Redis: the run is the one in which the write went through.
    With fuel for the retry loop the request gets its response. *)
Theorem tier2_failure_degrades_silently (E : env) (fuel : nat) (req : envelope) (s : state) :
  (∀ e, redis_get_fails E = Some e →
        observe (dispatch E fuel req s) = observe (dispatch (without_tier2 E) fuel req s)) ∧
  (∀ e, redis_set_fails E = Some e →
        observe (dispatch E fuel req s) = observe (dispatch (with_set_ok E) fuel req s)) ∧
  ((∀ text, JSON_parse E text = None) →
        observe (dispatch E fuel req s) = observe (dispatch (without_tier2 E) fuel req s)) ∧
  ((3 ≤ fuel)%nat → ∃ res, result_of (dispatch E fuel req s) = Ret res).
Proof.
  split; [|split; [|split]];
    [intros e He; apply dispatch_same_but_tier2..
    |intros He; apply dispatch_same_but_tier2|apply dispatch_total].
  - intros m. apply route_without_tier2.
  - intros m result s2. apply cache_populate_without_tier2.
  - intros m. apply (cache_lookup_get_fails E e He).
  - intros m. apply route_with_set_ok.
  - intros m result s2. apply cache_populate_with_set_ok.
  - intros m. rewrite cache_lookup_with_set_ok.
    destruct (cache_lookup E m (params req) (id req) s) as [[o s1] t]. eauto 10.
  - intros m. apply route_without_tier2.
  - intros m result s2. apply cache_populate_without_tier2.
  - intros m. apply (cache_lookup_parse_fails E He).
Qed.

(** ** Plain objects *)

Ltac eqb_facts :=
  repeat match goal with
         | H : String.eqb _ _ = true |- _ => apply String.eqb_eq in H; subst
         | H : String.eqb _ _ = false |- _ => apply String.eqb_neq in H
         end;
  congruence.

Section ObjFacts.
Context {V : Type}.
Implicit Types (o : obj V) (k : string) (v : V).

Lemma has_true k o : has k o = true ↔ k ∈ keys o.
Proof.
  unfold has, keys. induction o as [|[k' v'] r IH]; cbn [get List.map fst].
  - split; [discriminate|]. intros H. apply elem_of_nil in H. destruct H.
  - rewrite elem_of_cons. destruct (String.eqb_spec k k') as [->|Hne].
    + split; auto.
    + rewrite IH. split; [auto|]. intros [H|H]; [congruence|exact H].
Qed.

Lemma get_None k o : get k o = None ↔ k ∉ keys o.
Proof.
  rewrite <- has_true. unfold has. destruct (get k o); split; congruence.
Qed.

Lemma get_replace k k' v o :
  get k (replace k' v o)
  = if String.eqb k k' then (if has k' o then Some v else None) else get k o.
Proof.
  unfold has. induction o as [|[k0 v0] r IH]; cbn [replace get].
  - destruct (String.eqb k k'); reflexivity.
  - destruct (String.eqb k' k0) eqn:E1; cbn [get];
      destruct (String.eqb k k0) eqn:E2; destruct (String.eqb k k') eqn:E3;
      try reflexivity; try assumption; exfalso; eqb_facts.
Qed.

Lemma keys_replace k v o : keys (replace k v o) = keys o.
Proof.
  unfold keys. induction o as [|[k0 v0] r IH]; cbn [replace List.map fst]; [reflexivity|].
  destruct (String.eqb k k0); cbn [List.map fst]; [reflexivity|]. rewrite IH. reflexivity.
Qed.

Lemma get_insert_index (i : N) k k' v o :
  get k' o = None →
  get k (insert_index i k' v o) = if String.eqb k k' then Some v else get k o.
Proof.
  induction o as [|[k0 v0] r IH]; cbn [insert_index get]; intros Hk'.
  - reflexivity.
  - destruct (String.eqb k' k0) eqn:E1; [discriminate|].
    destruct (array_index k0) as [j|]; [destruct (j <? i)%N|]; cbn [get];
      try reflexivity.
    destruct (String.eqb k k0) eqn:E2.
    + destruct (String.eqb k k') eqn:E3; [exfalso; eqb_facts|reflexivity].
    + apply IH. exact Hk'.
Qed.

Lemma keys_insert_index (i : N) k v o : keys (insert_index i k v o) ≡ₚ k :: keys o.
Proof.
  unfold keys. induction o as [|[k0 v0] r IH]; cbn [insert_index List.map fst].
  - reflexivity.
  - destruct (array_index k0) as [j|]; [destruct (j <? i)%N|]; cbn [List.map fst];
      try reflexivity.
    rewrite IH. apply Permutation_swap.
Qed.

Lemma get_app_single k k' v o :
  get k (o ++ [(k', v)])
  = match get k o with
    | Some x => Some x
    | None => if String.eqb k k' then Some v else None
    end.
Proof.
  induction o as [|[k0 v0] r IH]; cbn [app get]; [reflexivity|].
  destruct (String.eqb k k0); [reflexivity|exact IH].
Qed.

(** Reading after an assignment. *)
Lemma get_set k k' v o :
  get k (set k' v o) = if String.eqb k k' then Some v else get k o.
Proof.
  unfold set. destruct (has k' o) eqn:Hhas.
  - rewrite get_replace, Hhas. reflexivity.
  - assert (Hnone : get k' o = None).
    { unfold has in Hhas. destruct (get k' o); [discriminate|reflexivity]. }
    destruct (array_index k') as [i|].
    + apply get_insert_index. exact Hnone.
    + rewrite get_app_single.
      destruct (String.eqb_spec k k') as [->|Hne].
      * rewrite Hnone. reflexivity.
      * destruct (get k o); reflexivity.
Qed.

(** The keys after an assignment: the same, or one more. *)
Lemma keys_set k v o :
  keys (set k v o) ≡ₚ if has k o then keys o else k :: keys o.
Proof.
  unfold set. destruct (has k o) eqn:Hhas.
  - rewrite keys_replace. reflexivity.
  - destruct (array_index k) as [i|].
    + apply keys_insert_index.
    + unfold keys. rewrite List.map_app. cbn [List.map fst].
      symmetry. apply Permutation_cons_append.
Qed.

Lemma NoDup_keys_set k v o : NoDup (keys o) → NoDup (keys (set k v o)).
Proof.
  intros Hnd. rewrite keys_set. destruct (has k o) eqn:Hhas; [exact Hnd|].
  apply NoDup_cons. split; [|exact Hnd].
  rewrite <- has_true. rewrite Hhas. discriminate.
Qed.
End ObjFacts.

(** ** Array-index keys *)

Lemma digit_inj (c1 c2 : ascii) (d : N) :
  digit c1 = Some d → digit c2 = Some d → c1 = c2.
Proof.
  unfold digit. intros H1 H2.
  destruct ((48 <=? N_of_ascii c1)%N && (N_of_ascii c1 <=? 57)%N) eqn:E1; [|discriminate].
  destruct ((48 <=? N_of_ascii c2)%N && (N_of_ascii c2 <=? 57)%N) eqn:E2; [|discriminate].
  apply andb_true_iff in E1 as [E1 _]. apply andb_true_iff in E2 as [E2 _].
  apply N.leb_le in E1, E2.
  injection H1 as H1. injection H2 as H2.
  rewrite <- (ascii_N_embedding c1), <- (ascii_N_embedding c2).
  f_equal. lia.
Qed.

Lemma digit_bound (c : ascii) (d : N) : digit c = Some d → (d < 10)%N.
Proof.
  unfold digit.
  destruct ((48 <=? N_of_ascii c)%N && (N_of_ascii c <=? 57)%N) eqn:E; [|discriminate].
  apply andb_true_iff in E as [E1 E2]. apply N.leb_le in E1, E2.
  intros [= <-]. lia.
Qed.

Lemma digit_zero (c : ascii) : digit c = Some 0%N → c = "0"%char.
Proof. intros H. apply (digit_inj c "0"%char 0%N H). reflexivity. Qed.

(** Two digit strings of one length with one value are one string. *)
Lemma digits_inj_length (s1 s2 : string) (a1 a2 n : N) :
  String.length s1 = String.length s2 →
  digits s1 a1 = Some n → digits s2 a2 = Some n → a1 = a2 ∧ s1 = s2.
Proof.
  revert s2 a1 a2. induction s1 as [|c1 r1 IH]; intros [|c2 r2] a1 a2 Hlen;
    try discriminate Hlen; cbn [digits].
  - intros [= <-] [= <-]. auto.
  - destruct (digit c1) as [d1|] eqn:Hd1; [|discriminate].
    destruct (digit c2) as [d2|] eqn:Hd2; [|discriminate].
    intros H1 H2. injection Hlen as Hlen.
    destruct (IH r2 _ _ Hlen H1 H2) as [Ha ->].
    pose proof (digit_bound _ _ Hd1). pose proof (digit_bound _ _ Hd2).
    assert (a1 = a2 ∧ d1 = d2) as [-> ->] by lia.
    split; [reflexivity|]. f_equal. exact (digit_inj c1 c2 d2 Hd1 Hd2).
Qed.

(** A longer digit string read from a positive accumulator is not the
    value of a shorter one read from 0. *)
Lemma digits_longer (s2 s1 : string) (a2 n : N) :
  (0 < a2)%N → (String.length s1 ≤ String.length s2)%nat →
  digits s1 0%N = Some n → digits s2 a2 = Some n → False.
Proof.
  revert a2. induction s2 as [|c2 r2 IH]; intros a2 Hpos Hlen H1 H2.
  - destruct s1; [|cbn in Hlen; lia]. cbn in H1, H2. injection H1 as <-.
    injection H2 as H2. lia.
  - destruct (decide (String.length s1 = String.length (String c2 r2))) as [Heq|Hne].
    + destruct (digits_inj_length s1 (String c2 r2) 0%N a2 n Heq H1 H2) as [<- _]. lia.
    + cbn [digits] in H2. destruct (digit c2) as [d2|]; [|discriminate].
      apply (IH (10 * a2 + d2)%N); [lia| |exact H1|exact H2].
      cbn [String.length] in Hlen, Hne. lia.
Qed.

Lemma array_index_digits (k : string) (n : N) :
  array_index k = Some n →
  digits k 0%N = Some n ∧
  ∃ c r, k = String c r ∧
         (r = EmptyString ∨ ∃ d, digit c = Some d ∧ (0 < d)%N).
Proof.
  unfold array_index. destruct k as [|c r]; [discriminate|].
  destruct (Ascii.eqb c "0" && negb (String.eqb r EmptyString)) eqn:Hz; [discriminate|].
  destruct (digits (String c r) 0%N) as [m|] eqn:Hd; [|discriminate].
  destruct (m <? 4294967295)%N; [|discriminate]. intros [= <-].
  split; [reflexivity|]. exists c, r. split; [reflexivity|].
  apply andb_false_iff in Hz as [Hz|Hz].
  - right. cbn [digits] in Hd. destruct (digit c) as [d|] eqn:Hc; [|discriminate].
    exists d. split; [reflexivity|].
    destruct (N.eq_dec d 0%N) as [->|Hnz]; [|lia].
    apply digit_zero in Hc. subst c. rewrite Ascii.eqb_refl in Hz. discriminate.
  - left. apply negb_false_iff, String.eqb_eq in Hz. exact Hz.
Qed.

Lemma canonical_not_longer (k1 k2 : string) (n : N) :
  array_index k1 = Some n → array_index k2 = Some n →
  ¬ (String.length k1 < String.length k2)%nat.
Proof.
  intros H1 H2 Hlt.
  apply array_index_digits in H1 as [Hd1 (c1 & r1 & Hk1 & _)].
  apply array_index_digits in H2 as [Hd2 (c & r & -> & Hr)].
  destruct Hr as [->|(d & Hc & Hpos)].
  - subst k1. cbn [String.length] in Hlt. lia.
  - cbn [digits] in Hd2. rewrite Hc in Hd2. cbn [String.length] in Hlt.
    apply (digits_longer r k1 (10 * 0 + d)%N n); [lia|lia|exact Hd1|exact Hd2].
Qed.

(** An array index has one spelling. *)
Lemma array_index_inj (k1 k2 : string) (n : N) :
  array_index k1 = Some n → array_index k2 = Some n → k1 = k2.
Proof.
  intros H1 H2.
  pose proof (canonical_not_longer k1 k2 n H1 H2).
  pose proof (canonical_not_longer k2 k1 n H2 H1).
  apply array_index_digits in H1 as [Hd1 _].
  apply array_index_digits in H2 as [Hd2 _].
  apply (digits_inj_length k1 k2 0%N 0%N n); [lia|exact Hd1|exact Hd2].
Qed.

(** ** The enumeration order of an object *)

Section Enumeration.
Context {V : Type}.
Implicit Types (o : obj V) (k : string) (v : V).

Lemma key_lt_trans k1 k2 k3 : key_lt k1 k2 → key_lt k2 k3 → key_lt k1 k3.
Proof.
  unfold key_lt.
  destruct (array_index k1), (array_index k2), (array_index k3); try tauto. lia.
Qed.

Lemma insert_index_app (i : N) k v (I N : obj V) :
  Forall (fun x => index_entry x = true) I →
  Forall (fun x => named_entry x = true) N →
  insert_index i k v (I ++ N) = insert_index i k v I ++ N.
Proof.
  intros HI HN. induction HI as [|[k' v'] I Hk' _ IH]; cbn [app insert_index].
  - destruct HN as [|[k' v'] N Hk' _]; [reflexivity|]. cbn [insert_index].
    unfold named_entry, is_index in Hk'. cbn [fst] in Hk'.
    destruct (array_index k'); [discriminate|reflexivity].
  - unfold index_entry, is_index in Hk'. cbn [fst] in Hk'.
    destruct (array_index k') as [j|]; [|discriminate].
    destruct (j <? i)%N; [|reflexivity]. rewrite IH. reflexivity.
Qed.

Lemma insert_index_perm (i : N) k v o : insert_index i k v o ≡ₚ (k, v) :: o.
Proof.
  induction o as [|[k0 v0] r IH]; cbn [insert_index]; [reflexivity|].
  destruct (array_index k0) as [j|]; [destruct (j <? i)%N|]; try reflexivity.
  rewrite IH. apply Permutation_swap.
Qed.

Lemma insert_index_ascending (i : N) k v (I : obj V) :
  array_index k = Some i →
  Forall (fun x => index_entry x = true) I →
  k ∉ keys I →
  ascending I → ascending (insert_index i k v I).
Proof.
  intros Hk HI Hnin Hs. unfold ascending in *.
  induction Hs as [|[k' v'] r Hr IH Hk']; cbn [insert_index].
  - apply SSorted_cons; [apply SSorted_nil|apply List.Forall_nil].
  - apply Forall_cons in HI as [HI1 HI].
    unfold index_entry, is_index in HI1. cbn [fst] in HI1.
    destruct (array_index k') as [j|] eqn:Hj; [|discriminate].
    assert (Hne : k ≠ k').
    { intros ->. apply Hnin. unfold keys. cbn. apply list_elem_of_here. }
    assert (Hij : i ≠ j).
    { intros ->. apply Hne. exact (array_index_inj k k' j Hk Hj). }
    assert (Hnin' : k ∉ keys r).
    { intros H. apply Hnin. unfold keys in *. cbn. apply list_elem_of_further, H. }
    destruct (N.ltb_spec j i) as [Hlt|Hge].
    + apply SSorted_cons; [apply IH; assumption|].
      apply (proj2 (List.Forall_forall _ _)). intros z Hz.
      apply (Permutation_in _ (insert_index_perm i k v r)) in Hz.
      destruct Hz as [<-|Hz].
      * unfold key_lt. cbn [fst]. rewrite Hj, Hk. exact Hlt.
      * apply (proj1 (List.Forall_forall _ _) Hk'). exact Hz.
    + apply SSorted_cons; [apply SSorted_cons; assumption|].
      assert (Hkk' : key_lt k k').
      { unfold key_lt. rewrite Hj, Hk. lia. }
      apply List.Forall_cons; [exact Hkk'|].
      apply (proj2 (List.Forall_forall _ _)). intros z Hz.
      pose proof (proj1 (List.Forall_forall _ _) Hk' z Hz) as Hz'. cbn beta in Hz'.
      cbn [fst] in *. exact (key_lt_trans _ _ _ Hkk' Hz').
Qed.

Lemma key_lt_irrefl k : ¬ key_lt k k.
Proof. unfold key_lt. destruct (array_index k); [lia|tauto]. Qed.

(** Two ascending lists with the same entries are the same list. *)
Lemma ascending_unique (I1 I2 : obj V) :
  ascending I1 → ascending I2 → I1 ≡ₚ I2 → I1 = I2.
Proof.
  unfold ascending. intros H1. revert I2.
  induction H1 as [|x r1 Hr1 IH Hx]; intros I2 H2 Hp.
  - apply Permutation_nil in Hp. auto.
  - destruct H2 as [|y r2 Hr2 Hy].
    { symmetry in Hp. apply Permutation_nil in Hp. discriminate. }
    assert (Hxy : x = y).
    { assert (Hin1 : List.In x (y :: r2))
        by (apply (Permutation_in _ Hp); left; reflexivity).
      assert (Hin2 : List.In y (x :: r1))
        by (apply (Permutation_in _ (Permutation_sym Hp)); left; reflexivity).
      destruct Hin1 as [Hin1|Hin1]; [auto|].
      destruct Hin2 as [Hin2|Hin2]; [auto|].
      pose proof (proj1 (List.Forall_forall _ _) Hy x Hin1) as Hyx.
      pose proof (proj1 (List.Forall_forall _ _) Hx y Hin2) as Hxy.
      cbn beta in *. exfalso.
      exact (key_lt_irrefl _ (key_lt_trans _ _ _ Hyx Hxy)). }
    subst y. f_equal. apply IH; [exact Hr2|].
    exact (Permutation_cons_inv Hp).
Qed.

(** What [from_entries] builds, for keys that are all different:
    the index keys in ascending order, then the other keys in the
    order of the assignments. *)
Lemma from_entries_snoc (l : list (string * V)) k v :
  from_entries (l ++ [(k, v)]) = set k v (from_entries l).
Proof. unfold from_entries. rewrite fold_left_app. reflexivity. Qed.

Lemma keys_from_entries (l : list (string * V)) :
  NoDup (keys l) → keys (from_entries l) ≡ₚ keys l.
Proof.
  induction l as [|[k v] l IH] using rev_ind; [reflexivity|].
  unfold keys in *. rewrite List.map_app. cbn [List.map fst].
  intros Hnd. rewrite from_entries_snoc.
  apply NoDup_app in Hnd as (Hnd & Hdisj & _).
  rewrite (keys_set k v (from_entries l)).
  assert (Hhas : has k (from_entries l) = false).
  { destruct (has k (from_entries l)) eqn:Hh; [|reflexivity].
    apply has_true in Hh. unfold keys in Hh. rewrite (IH Hnd) in Hh.
    exfalso. apply (Hdisj k Hh). apply list_elem_of_here. }
  rewrite Hhas. unfold keys. rewrite (IH Hnd).
  apply Permutation_cons_append.
Qed.

Lemma from_entries_normal (l : list (string * V)) :
  NoDup (keys l) →
  ∃ I, from_entries l = I ++ List.filter named_entry l ∧
       I ≡ₚ List.filter index_entry l ∧ ascending I.
Proof.
  induction l as [|[k v] l IH] using rev_ind.
  - intros _. exists []. repeat split; [reflexivity|apply SSorted_nil].
  - intros Hnd. unfold keys in Hnd. rewrite List.map_app in Hnd. cbn [List.map fst] in Hnd.
    apply NoDup_app in Hnd as (Hnd & Hdisj & _).
    destruct (IH Hnd) as (I & HI & Hperm & Hasc).
    rewrite from_entries_snoc.
    assert (Hnin : k ∉ keys (from_entries l)).
    { rewrite (keys_from_entries l Hnd). intros H. apply (Hdisj k H).
      apply list_elem_of_here. }
    assert (Hhas : has k (from_entries l) = false).
    { destruct (has k (from_entries l)) eqn:Hh; [|reflexivity].
      apply has_true in Hh. contradiction. }
    unfold set. rewrite Hhas, !List.filter_app. cbn [List.filter].
    unfold named_entry at 2, index_entry at 2, is_index. cbn [fst].
    assert (HFI : Forall (fun x => index_entry x = true) I).
    { apply Forall_forall. intros x Hx. rewrite Hperm in Hx.
      apply list_elem_of_In, List.filter_In in Hx. apply Hx. }
    assert (HFN : Forall (fun x => named_entry x = true) (List.filter named_entry l)).
    { apply Forall_forall. intros x Hx.
      apply list_elem_of_In, List.filter_In in Hx. apply Hx. }
    destruct (array_index k) as [i|] eqn:Hk; cbn [negb].
    + exists (insert_index i k v I). rewrite HI, app_nil_r.
      split; [apply insert_index_app; assumption|]. split.
      * rewrite insert_index_perm, Hperm. apply Permutation_cons_append.
      * apply insert_index_ascending; try assumption.
        intros H. apply Hnin. rewrite HI. unfold keys in *.
        rewrite List.map_app. apply elem_of_app. left. exact H.
    + exists I. rewrite HI, app_nil_r, <- app_assoc.
      split; [reflexivity|]. split; assumption.
Qed.

(** Objects with the same entries, whose named keys were assigned in
    the same order, are enumerated alike. *)
Lemma from_entries_order (l1 l2 : list (string * V)) :
  NoDup (keys l1) → l1 ≡ₚ l2 →
  List.filter named_entry l1 = List.filter named_entry l2 →
  from_entries l1 = from_entries l2.
Proof.
  intros Hnd Hp Hnamed.
  assert (Hnd2 : NoDup (keys l2)).
  { unfold keys in *. rewrite <- Hp. exact Hnd. }
  destruct (from_entries_normal l1 Hnd) as (I1 & -> & Hp1 & Ha1).
  destruct (from_entries_normal l2 Hnd2) as (I2 & -> & Hp2 & Ha2).
  rewrite Hnamed. f_equal. apply ascending_unique; try assumption.
  rewrite Hp1, Hp2. clear -Hp. induction Hp; cbn [List.filter].
  - reflexivity.
  - destruct (index_entry x); [apply perm_skip|]; exact IHHp.
  - destruct (index_entry x), (index_entry y);
      try reflexivity; apply Permutation_swap.
  - etransitivity; eassumption.
Qed.
End Enumeration.



(** ** Cross analysis *)

Section CrossRun.
Variable E : env.

Lemma record_token_run (a : string) (token : json) (tbm : obj token_entry) (s : state) :
  token ≠ JNull → inherited (mint_of token) = false →
  record_token a token tbm s = (Ret (recorded tbm (a, token)), s, []).
Proof.
  intros Hnn Hinh. unfold record_token, recorded. cbn [fst snd].
  fold (mint_of token). fold (holding_of token).
  destruct token; try congruence;
    (destruct (get _ tbm); [reflexivity|]); rewrite Hinh; reflexivity.
Qed.

Lemma record_tokens_run (a : string) (data : list json) (tbm : obj token_entry) (s : state) :
  Forall (fun token => token ≠ JNull ∧ inherited (mint_of token) = false) data →
  record_tokens a data tbm s
  = (Ret (fold_left recorded ((fun token => (a, token)) <$> data) tbm), s, []).
Proof.
  intros Hwf. revert tbm. induction Hwf as [|token rest [Hnn Hinh] _ IH]; intros tbm.
  - reflexivity.
  - cbn [record_tokens fmap list_fmap fold_left]. rewrite run_bind.
    rewrite (record_token_run a token tbm s Hnn Hinh). rewrite IH. reflexivity.
Qed.

Lemma record_result_run (address result : json) (tbm : obj token_entry) (s : state) :
  well_formed result →
  record_result address result tbm s
  = (Ret (fold_left recorded
            ((fun token => (property_key (Some address), token)) <$> tokens_of result)
            tbm), s, []).
Proof.
  intros [Harr Hwf]. unfold record_result, tokens_of in *.
  destruct (truthy_opt (prop result "data")) eqn:Ht.
  - destruct (Harr eq_refl) as [data Hd]. rewrite Hd in *.
    destruct result; try discriminate Hd; apply record_tokens_run; exact Hwf.
  - destruct result; reflexivity.
Qed.

Lemma record_results_run (addresses results : list json) (tbm : obj token_entry)
    (s : state) :
  length addresses = length results →
  Forall well_formed results →
  record_results addresses results tbm s
  = (Ret (fold_left recorded (holdings_stream addresses results) tbm), s, []).
Proof.
  unfold holdings_stream.
  revert results tbm. induction addresses as [|a addresses IH];
    intros results tbm Hlen Hwf; destruct results as [|result results];
    try discriminate Hlen; [reflexivity|].
  cbn [record_results zip_with concat]. rewrite run_bind.
  apply Forall_cons in Hwf as [Hwf1 Hwf].
  rewrite (record_result_run a result tbm s Hwf1).
  rewrite IH by (auto; cbn in Hlen; lia).
  rewrite fold_left_app, app_nil_l. reflexivity.
Qed.

Lemma issue_wallet_tokens_run (addresses results : list json) (s : state) :
  Forall2 (fun a r => truthy a = true ∧ request_wallet_tokens E a = Resolved r)
          addresses results →
  issue_wallet_tokens E addresses s
  = (Ret (Resolved <$> results), s, EvUpstream WalletTokens <$> addresses).
Proof.
  induction 1 as [|a r addresses results [Ht Hr] _ IH]; [reflexivity|].
  cbn [issue_wallet_tokens fmap list_fmap]. rewrite run_bind.
  unfold getWalletTokens at 1. cbn [truthy_opt default_to]. rewrite Ht. cbn [negb].
  rewrite run_bind. unfold emit at 1. unfold ret at 1. rewrite Hr.
  cbn [app]. rewrite run_bind, IH. unfold ret. rewrite app_nil_r. reflexivity.
Qed.

Lemma promise_all_resolved (results : list json) (s : state) :
  promise_all E (Resolved <$> results) s = (Ret results, s, []).
Proof.
  unfold promise_all.
  assert (Hrej : rejections (Resolved <$> results) = []).
  { unfold rejections. induction results; [reflexivity|exact IHresults]. }
  assert (Hres : resolutions (Resolved <$> results) = results).
  { clear Hrej. unfold resolutions. induction results as [|r results IH]; [reflexivity|].
    cbn. f_equal. exact IH. }
  rewrite Hrej, Hres. reflexivity.
Qed.
End CrossRun.

Lemma get_add_holder (a a' : string) (h : holding) (hs : obj holding) :
  get a' (add_holder a h hs)
  = if String.eqb a' a && negb (String.eqb a "__proto__") then Some h else get a' hs.
Proof.
  unfold add_holder. destruct (String.eqb a "__proto__") eqn:Hp.
  - rewrite andb_false_r. reflexivity.
  - rewrite get_set, andb_true_r. reflexivity.
Qed.

Lemma NoDup_add_holder (a : string) (h : holding) (hs : obj holding) :
  NoDup (keys hs) → NoDup (keys (add_holder a h hs)).
Proof.
  unfold add_holder. destruct (String.eqb a "__proto__"); [auto|apply NoDup_keys_set].
Qed.

(** One more pair changes one holding, the one it names. *)
Lemma holding_in_recorded (tbm : obj token_entry) (p : string * json) (m a : string) :
  holding_in (recorded tbm p) m a
  = if held m a p then Some (holding_of p.2) else holding_in tbm m a.
Proof.
  unfold holding_in, recorded, held.
  destruct (get (mint_of p.2) tbm) as [entry|] eqn:Hg; rewrite get_set;
    rewrite (String.eqb_sym m);
    destruct (String.eqb (mint_of p.2) m) eqn:Hm;
    rewrite ?andb_false_r; cbn [andb]; try reflexivity;
    apply String.eqb_eq in Hm; subst m; rewrite Hg;
    cbn [holders]; rewrite get_add_holder;
    rewrite (String.eqb_sym a);
    destruct (String.eqb p.1 a) eqn:Ha; cbn [andb];
    try reflexivity; apply String.eqb_eq in Ha; subst a;
    destruct (String.eqb p.1 "__proto__"); reflexivity.
Qed.

(** The mapping the merge builds gives every wallet, under every mint,
    the holding of its last token of that mint. *)
Lemma holding_in_stream (stream : list (string * json)) (tbm : obj token_entry)
    (m a : string) :
  holding_in (fold_left recorded stream tbm) m a
  = match last_holding stream m a with
    | Some h => Some h
    | None => holding_in tbm m a
    end.
Proof.
  revert tbm. induction stream as [|p rest IH]; intros tbm; cbn [fold_left last_holding].
  - reflexivity.
  - rewrite IH. destruct (last_holding rest m a); [reflexivity|].
    rewrite holding_in_recorded. destruct (held m a p); reflexivity.
Qed.

Lemma distinct_keys_recorded (tbm : obj token_entry) (p : string * json) :
  distinct_keys tbm → distinct_keys (recorded tbm p).
Proof.
  intros [Hk Hh]. unfold recorded.
  destruct (get (mint_of p.2) tbm) as [entry|] eqn:Hg; split;
    try (apply NoDup_keys_set; exact Hk);
    intros m e; rewrite get_set;
    (destruct (String.eqb m (mint_of p.2)); [|apply Hh]);
    intros [= <-]; cbn [holders]; apply NoDup_add_holder.
  - apply (Hh _ _ Hg).
  - apply NoDup_nil_2.
Qed.

Lemma distinct_keys_stream (stream : list (string * json)) (tbm : obj token_entry) :
  distinct_keys tbm → distinct_keys (fold_left recorded stream tbm).
Proof.
  revert tbm. induction stream as [|p rest IH]; intros tbm H; cbn [fold_left]; [exact H|].
  apply IH, distinct_keys_recorded, H.
Qed.

Lemma distinct_keys_empty : distinct_keys [].
Proof. split; [apply NoDup_nil_2|]. intros m e [=]. Qed.

(** ** Sorting by holder count *)

Lemma insert_desc_perm (x : string * token_entry) (l : list (string * token_entry)) :
  insert_desc x l ≡ₚ x :: l.
Proof.
  induction l as [|y r IH]; cbn [insert_desc]; [reflexivity|].
  destruct (holders_count x <? holders_count y)%nat; [|reflexivity].
  rewrite IH. apply Permutation_swap.
Qed.

Lemma sort_desc_perm (l : list (string * token_entry)) : sort_desc l ≡ₚ l.
Proof.
  unfold sort_desc. induction l as [|x r IH]; cbn [foldr]; [reflexivity|].
  rewrite insert_desc_perm, IH. reflexivity.
Qed.

Lemma insert_desc_sorted (x : string * token_entry) (l : list (string * token_entry)) :
  descending l → descending (insert_desc x l).
Proof.
  unfold descending. induction 1 as [|y r Hr IH Hy]; cbn [insert_desc].
  - apply SSorted_cons; [apply SSorted_nil|apply List.Forall_nil].
  - destruct (Nat.ltb_spec (holders_count x) (holders_count y)) as [Hlt|Hge].
    + apply SSorted_cons; [exact IH|].
      apply (proj2 (List.Forall_forall _ _)). intros z Hz.
      apply (Permutation_in _ (insert_desc_perm x r)) in Hz.
      destruct Hz as [<-|Hz]; [lia|].
      apply (proj1 (List.Forall_forall _ _) Hy). exact Hz.
    + apply SSorted_cons; [apply SSorted_cons; assumption|].
      apply List.Forall_cons; [exact Hge|].
      apply (proj2 (List.Forall_forall _ _)). intros z Hz.
      pose proof (proj1 (List.Forall_forall _ _) Hy z Hz) as Hzy. cbn beta in Hzy. lia.
Qed.

Lemma sort_desc_sorted (l : list (string * token_entry)) : descending (sort_desc l).
Proof.
  unfold sort_desc. induction l as [|x r IH]; cbn [foldr].
  - apply SSorted_nil.
  - apply insert_desc_sorted, IH.
Qed.

Lemma elem_of_obj {V} (o : obj V) (k : string) (v : V) :
  NoDup (keys o) → (k, v) ∈ o ↔ get k o = Some v.
Proof.
  unfold keys. induction o as [|[k0 v0] r IH]; cbn [List.map fst get]; intros Hnd.
  - split; [intros H; apply elem_of_nil in H; destruct H|discriminate].
  - apply NoDup_cons in Hnd as [Hnin Hnd]. rewrite elem_of_cons.
    destruct (String.eqb_spec k k0) as [->|Hne].
    + split.
      * intros [[= ->]|Hin]; [reflexivity|].
        exfalso. apply Hnin. change (List.map fst r) with (fst <$> r).
        apply list_elem_of_fmap. exists (k0, v). split; [reflexivity|exact Hin].
      * intros [= ->]. left. reflexivity.
    + rewrite <- (IH Hnd). split; [|auto]. intros [[= -> ->]|Hin]; [congruence|exact Hin].
Qed.

Lemma commonTokensData_listed (E : env) (names : obj string) (total : nat)
    (common : list (string * token_entry)) :
  commonTokensData E names total common
  = match firstn 10 common with
    | [] => nl +:+ "No common tokens found between addresses"
    | _ => String.concat EmptyString (imap (token_block E names total) (firstn 10 common))
    end.
Proof. destruct common; reflexivity. Qed.

(** ** The merge against the words of the specification *)

Lemma held_iff (m a : string) (p : string * json) :
  held m a p = true ↔ a = p.1 ∧ held m p.1 p = true.
Proof.
  unfold held. rewrite String.eqb_refl. cbn [andb]. split.
  - intros H. apply andb_true_iff in H as [H Hp]. apply andb_true_iff in H as [Ha Hm].
    apply String.eqb_eq in Ha. subst a. split; [reflexivity|]. rewrite Hm, Hp. reflexivity.
  - intros [-> H]. rewrite String.eqb_refl. exact H.
Qed.

Lemma last_holding_wallets (stream : list (string * json)) (m a : string) :
  is_Some (last_holding stream m a) ↔ a ∈ holding_wallets stream m.
Proof.
  unfold holding_wallets. rewrite elem_of_remove_dups.
  induction stream as [|p rest IH]; cbn [last_holding omap list_omap].
  - rewrite is_Some_alt, elem_of_nil. reflexivity.
  - destruct (last_holding rest m a) as [h|] eqn:Hl.
    + split; [intros _|intros _; eexists; reflexivity].
      destruct (held m p.1 p); [apply elem_of_cons; right|]; apply IH; eexists; reflexivity.
    + destruct (held m a p) eqn:Hh.
      * apply held_iff in Hh as [-> Hh]. rewrite Hh.
        split; [intros _; apply list_elem_of_here|intros _; eexists; reflexivity].
      * split; [intros [h Hh']; discriminate|].
        destruct (held m p.1 p) eqn:Hp; [|intros H; apply IH in H as [h Hh']; discriminate].
        intros H. apply elem_of_cons in H as [->|H].
        -- exfalso. assert (Hc : held m p.1 p = true) by exact Hp. congruence.
        -- apply IH in H as [h Hh']. discriminate.
Qed.

Lemma held_not_proto (m a : string) (p : string * json) :
  held m a p = true → a ≠ "__proto__".
Proof.
  unfold held. intros H. apply andb_true_iff in H as [_ H].
  apply negb_true_iff, String.eqb_neq in H. exact H.
Qed.

Lemma last_holding_not_proto (stream : list (string * json)) (m a : string) (h : holding) :
  last_holding stream m a = Some h → a ≠ "__proto__".
Proof.
  revert h. induction stream as [|p rest IH]; intros h; cbn [last_holding]; [discriminate|].
  destruct (last_holding rest m a) as [h'|]; [intros _; apply (IH h'); reflexivity|].
  destruct (held m a p) eqn:Hh; [|discriminate]. intros _. eapply held_not_proto, Hh.
Qed.

(** The symbol of an entry is set when the entry is made. *)
Lemma symbol_recorded (tbm : obj token_entry) (p : string * json) (m : string)
    (entry : token_entry) :
  get m (recorded tbm p) = Some entry →
  symbol entry
  = match get m tbm with
    | Some e0 => symbol e0
    | None => or_else (prop p.2 "symbol") (JStr "Unknown")
    end ∧
  (get m tbm = None → String.eqb (mint_of p.2) m = true).
Proof.
  unfold recorded. destruct (get (mint_of p.2) tbm) as [e0|] eqn:Hg; rewrite get_set.
  - destruct (String.eqb_spec m (mint_of p.2)) as [->|Hne].
    + intros [= <-]. rewrite Hg. split; [reflexivity|discriminate].
    + intros Hm. rewrite Hm. split; [reflexivity|discriminate].
  - destruct (String.eqb_spec m (mint_of p.2)) as [->|Hne].
    + intros [= <-]. rewrite Hg. split; [reflexivity|]. intros _. apply String.eqb_refl.
    + intros Hm. rewrite Hm. split; [reflexivity|discriminate].
Qed.

Lemma recorded_keeps (tbm : obj token_entry) (p : string * json) (m : string)
    (e0 : token_entry) :
  get m tbm = Some e0 → ∃ e1, get m (recorded tbm p) = Some e1 ∧ symbol e1 = symbol e0.
Proof.
  intros Hm. unfold recorded.
  destruct (get (mint_of p.2) tbm) as [e|] eqn:Hg; rewrite get_set.
  - destruct (String.eqb_spec m (mint_of p.2)) as [->|Hne].
    + rewrite Hg in Hm. injection Hm as ->. eexists. split; reflexivity.
    + exists e0. split; [exact Hm|reflexivity].
  - destruct (String.eqb_spec m (mint_of p.2)) as [->|Hne]; [congruence|].
    exists e0. split; [exact Hm|reflexivity].
Qed.

Lemma recorded_absent (tbm : obj token_entry) (p : string * json) (m : string) :
  get m tbm = None → String.eqb (mint_of p.2) m = false → get m (recorded tbm p) = None.
Proof.
  intros Hm Hne. unfold recorded.
  assert (Hne' : String.eqb m (mint_of p.2) = false).
  { apply String.eqb_neq. apply String.eqb_neq in Hne. congruence. }
  destruct (get (mint_of p.2) tbm); rewrite get_set, Hne'; exact Hm.
Qed.

Lemma symbol_stream (stream : list (string * json)) (tbm : obj token_entry) (m : string)
    (entry : token_entry) :
  get m (fold_left recorded stream tbm) = Some entry →
  symbol entry
  = match get m tbm with
    | Some e0 => symbol e0
    | None => listed_symbol stream m
    end.
Proof.
  revert tbm. induction stream as [|p rest IH]; intros tbm; cbn [fold_left].
  - intros ->. reflexivity.
  - intros Hm. rewrite (IH _ Hm). unfold listed_symbol. cbn [List.find].
    destruct (get m tbm) as [e0|] eqn:Hg.
    + destruct (recorded_keeps tbm p m e0 Hg) as (e1 & -> & He1). exact He1.
    + destruct (String.eqb (mint_of p.2) m) eqn:Hp.
      * destruct (get m (recorded tbm p)) as [e1|] eqn:H1.
        -- destruct (symbol_recorded tbm p m e1 H1) as [-> _]. rewrite Hg. reflexivity.
        -- exfalso. unfold recorded in H1. apply String.eqb_eq in Hp. subst m.
           rewrite Hg, get_set, String.eqb_refl in H1. discriminate.
      * rewrite (recorded_absent tbm p m Hg Hp). reflexivity.
Qed.

(** The labels of the handler are those of the specification. *)
Lemma name_addresses_get (addresses : list json) (index : nat) (names : obj string)
    (a : string) :
  a ≠ "__proto__" →
  get a (name_addresses addresses index names)
  = match wallet_position addresses a index with
    | Some i => Some ("Wallet " +:+ pretty (i + 1)%nat)
    | None => get a names
    end.
Proof.
  intros Ha. revert index names.
  induction addresses as [|address rest IH]; intros index names;
    cbn [name_addresses wallet_position]; [reflexivity|].
  rewrite IH. destruct (wallet_position rest a (S index)) as [i|]; [reflexivity|].
  destruct (String.eqb_spec (property_key (Some address)) "__proto__") as [Hp|Hp].
  - destruct (String.eqb_spec (property_key (Some address)) a) as [He|He]; [congruence|].
    reflexivity.
  - rewrite get_set.
    destruct (String.eqb_spec a (property_key (Some address))) as [->|He].
    + rewrite String.eqb_refl. reflexivity.
    + destruct (String.eqb_spec (property_key (Some address)) a) as [He'|He']; [congruence|].
      reflexivity.
Qed.

Lemma wallet_label_get (addresses : list json) (a : string) :
  a ≠ "__proto__" →
  default "undefined" (get a (name_addresses addresses 0 [])) = wallet_label addresses a.
Proof.
  intros Ha. rewrite (name_addresses_get addresses 0 [] a Ha). unfold wallet_label.
  destruct (wallet_position addresses a 0); reflexivity.
Qed.

Lemma sorted_parts {A} (R : A → A → Prop) (l1 l2 : list A) :
  StronglySorted R (l1 ++ l2) →
  StronglySorted R l1 ∧ ∀ x y, x ∈ l1 → y ∈ l2 → R x y.
Proof.
  induction l1 as [|z l1 IH]; cbn [app]; intros Hs.
  - split; [constructor|]. intros x y Hx. apply elem_of_nil in Hx. destruct Hx.
  - apply StronglySorted_inv in Hs as [Hs Hz]. destruct (IH Hs) as [H1 H2].
    apply Forall_app in Hz as [Hz1 Hz2]. split; [constructor; assumption|].
    intros x y Hx Hy. apply elem_of_cons in Hx as [->|Hx].
    + rewrite Forall_forall in Hz2. apply Hz2, Hy.
    + apply H2; assumption.
Qed.

Lemma sorted_among {A} (R R' : A → A → Prop) (l : list A) :
  (∀ x y, x ∈ l → y ∈ l → R x y → R' x y) → StronglySorted R l → StronglySorted R' l.
Proof.
  induction l as [|z l IH]; intros Himp Hs; [constructor|].
  apply StronglySorted_inv in Hs as [Hs Hz]. constructor.
  - apply IH; [|exact Hs]. intros x y Hx Hy. apply Himp; apply elem_of_cons; right; assumption.
  - rewrite Forall_forall in Hz |- *. intros y Hy.
    apply Himp; [apply list_elem_of_here|apply elem_of_cons; right; exact Hy|apply Hz, Hy].
Qed.

Lemma filter_sublist {A} (f : A → bool) (l : list A) : List.filter f l `sublist_of` l.
Proof.
  induction l as [|x l IH]; cbn [List.filter]; [constructor|].
  destruct (f x); [apply sublist_skip|apply sublist_cons]; exact IH.
Qed.

(** An entry of the mapping holds the wallets of the specification. *)
Lemma entry_holders (stream : list (string * json)) (tbm : obj token_entry) (m : string)
    (entry : token_entry) :
  distinct_keys tbm → (∀ m a, holding_in tbm m a = last_holding stream m a) →
  get m tbm = Some entry →
  NoDup (keys (holders entry)) ∧
  (∀ a h, (a, h) ∈ holders entry ↔ last_holding stream m a = Some h) ∧
  length (holders entry) = holder_number stream m.
Proof.
  intros [_ Hdk] Hhold Hm.
  assert (Hnd : NoDup (keys (holders entry))) by exact (Hdk m entry Hm).
  assert (Hget : ∀ a, get a (holders entry) = last_holding stream m a).
  { intros a. rewrite <- Hhold. unfold holding_in. rewrite Hm. reflexivity. }
  split; [exact Hnd|]. split.
  - intros a h. rewrite (elem_of_obj _ _ _ Hnd), Hget. reflexivity.
  - unfold holder_number. rewrite <- (length_map fst (holders entry)).
    change (List.map fst (holders entry)) with (keys (holders entry)).
    apply Permutation_length, NoDup_Permutation; [exact Hnd|apply NoDup_remove_dups|].
    intros a. rewrite <- last_holding_wallets, <- Hget.
    destruct (get a (holders entry)) as [h|] eqn:Hg.
    + split; [intros _; eexists; reflexivity|intros _].
      destruct (decide (a ∈ keys (holders entry))) as [Hin|Hnin]; [exact Hin|].
      apply get_None in Hnin. congruence.
    + split; [intros Hin|intros [h Hh]; discriminate].
      apply get_None in Hg. contradiction.
Qed.

(** A mint that wallets hold has its entry. *)
Lemma held_mint_entry (stream : list (string * json)) (tbm : obj token_entry) (m : string) :
  (∀ m a, holding_in tbm m a = last_holding stream m a) →
  (0 < holder_number stream m)%nat → ∃ entry, get m tbm = Some entry.
Proof.
  intros Hhold Hn. unfold holder_number in Hn.
  destruct (holding_wallets stream m) as [|a l] eqn:Hw; [cbn in Hn; lia|].
  assert (Hin : a ∈ holding_wallets stream m) by (rewrite Hw; apply list_elem_of_here).
  apply last_holding_wallets in Hin as [h Hh]. rewrite <- Hhold in Hh.
  unfold holding_in in Hh. destruct (get m tbm) as [entry|]; [|discriminate].
  exists entry. reflexivity.
Qed.


(** ** Wallet overview *)

Lemma pure_ret {A} (a : A) : pure_run (ret a).
Proof. exists (Ret a). reflexivity. Qed.

Lemma pure_throw {A} (e : js_error) : pure_run (throw e : M A).
Proof. exists (Throw e). reflexivity. Qed.

Lemma pure_bind {A B} (m : M A) (k : A → M B) :
  pure_run m → (∀ a, pure_run (k a)) → pure_run (m ≫= k).
Proof.
  intros [o Ho] Hk. destruct o as [a|e|].
  - destruct (Hk a) as [o' Ho']. exists o'. intros s.
    rewrite run_bind, Ho, Ho'. reflexivity.
  - exists (Throw e). intros s. rewrite run_bind, Ho. reflexivity.
  - exists OutOfFuel. intros s. rewrite run_bind, Ho. reflexivity.
Qed.

Lemma pure_reduce_sum (price : json → json) (data : list json) (sum : sum_value) :
  pure_run (reduce_sum price data sum).
Proof.
  revert sum. induction data as [|item rest IH]; intros sum; cbn [reduce_sum].
  - apply pure_ret.
  - destruct item; first [apply pure_throw | apply IH].
Qed.

Lemma pure_count_and_sum (price : json → json) (result : json) :
  pure_run (count_and_sum price result).
Proof.
  unfold count_and_sum.
  destruct (truthy result && truthy_opt (prop result "data")); [|apply pure_ret].
  destruct (prop result "data") as [[]|]; try apply pure_throw.
  apply pure_bind; [apply pure_reduce_sum|]. intros a. apply pure_ret.
Qed.

Section Overview.
Variable E : env.

(** The two calls are issued before either result is looked at. *)
Lemma overview_run (args address : json) (s : state) :
  prop args "address" = Some address → truthy address = true →
  ∃ after : list json → M json,
    (∀ results, pure_run (after results)) ∧
    handleSolanaWalletOverview E (Some args) s
    = match
        match promise_all E [request_wallet_tokens E address;
                             request_wallet_nfts E address] s with
        | (Ret results, s1, t1) =>
            match after results s1 with (r, s2, t2) => (r, s2, t1 ++ t2) end
        | (Throw e, s1, t1) => (Throw e, s1, t1)
        | (OutOfFuel, s1, t1) => (OutOfFuel, s1, t1)
        end
      with
      | (Throw e, s1, t) =>
          (Throw (coded_error ("Error fetching Solana data: " +:+ message e) (-32000)),
           s1, [EvUpstream WalletTokens address; EvUpstream WalletNfts address] ++ t)
      | (r, s1, t) =>
          (r, s1, [EvUpstream WalletTokens address; EvUpstream WalletNfts address] ++ t)
      end.
Proof.
  intros Ha Ht.
  eexists (fun results =>
    tokens ← count_and_sum (fun token => or_else (prop token "valueUsd") (JNum 0))
               (default JNull (results !! 0%nat));
    let '(tokenCount, totalUsdValue) :=
      match tokens with
      | Some (n, sum) => (n, js_plus_sum (SNum 0) sum)
      | None => (0%nat, SNum 0)
      end in
    nfts ← count_and_sum
             (fun nft => or_else (prop nft "valueUsd")
                           (or_else (prop nft "usdPrice") (JNum 0)))
             (default JNull (results !! 1%nat));
    let '(nftCount, totalUsdValue) :=
      match nfts with
      | Some (n, sum) => (n, js_plus_sum totalUsdValue sum)
      | None => (0%nat, totalUsdValue)
      end in
    let formattedUsdValue :=
      match totalUsdValue with
      | SNum n => pretty n
      | SStr _ => "N/A"
      end in
    ret (text_result (JStr (
      "Wallet Overview for " +:+ to_string address +:+ ":" +:+ nl +:+
      "Total USD Value: $" +:+ formattedUsdValue +:+ nl +:+
      "Number of Tokens: " +:+ pretty tokenCount +:+ nl +:+
      "Number of NFTs: " +:+ pretty nftCount)))).
  split.
  - intros results. apply pure_bind; [apply pure_count_and_sum|]. intros tokens.
    destruct (match tokens with Some _ => _ | None => _ end) as [tokenCount total].
    apply pure_bind; [apply pure_count_and_sum|]. intros nfts.
    destruct (match nfts with Some _ => _ | None => _ end) as [nftCount total'].
    apply pure_ret.
  - unfold handleSolanaWalletOverview. rewrite run_bind.
    assert (Hd : destructure (Some args) s = (Ret args, s, [])).
    { destruct args; try reflexivity. discriminate. }
    rewrite Hd, Ha. cbn [truthy_opt default_to]. rewrite Ht. cbn [negb].
    rewrite run_try_catch, run_bind.
    unfold getWalletTokens at 1. cbn [truthy_opt default_to]. rewrite Ht. cbn [negb].
    rewrite run_bind. unfold emit at 1. unfold ret at 1.
    rewrite run_bind.
    unfold getWalletNfts at 1. cbn [truthy_opt default_to]. rewrite Ht. cbn [negb].
    rewrite run_bind. unfold emit at 1. unfold ret at 1.
    rewrite run_bind.
    destruct (promise_all E _ s) as [[[results|e|] s1] t1]; cbn [app];
      try reflexivity; [|unfold throw; rewrite app_nil_r; reflexivity].
    match goal with
    | |- context [?f s1] =>
        match type of (f s1) with
        | (outcome json * state * list event)%type => destruct (f s1) as [[[r|e|] s2] t2]
        end
    end; unfold throw; rewrite ?app_nil_r; reflexivity.
Qed.
End Overview.

Section OverviewClaim.
Variable E : env.

Lemma promise_all_pure (ps : list upstream_outcome) : pure_run (promise_all E ps).
Proof.
  unfold promise_all. destruct (rejections ps); [apply pure_ret|apply pure_throw].
Qed.

(** One rejection of the pair rejects the aggregate, with the error
    of a call that failed. *)
Lemma promise_all_pair_rejected (p1 p2 : upstream_outcome) (s : state) :
  (∃ e, p1 = Rejected e) ∨ (∃ e, p2 = Rejected e) →
  ∃ e, (p1 = Rejected e ∨ p2 = Rejected e) ∧
       promise_all E [p1; p2] s = (Throw e, s, []).
Proof.
  unfold promise_all, rejections.
  destruct p1 as [a|e1], p2 as [b|e2]; cbn [omap];
    intros [[e He]|[e He]]; try discriminate He;
    destruct (first_rejection E) as [|[|n]]; cbn;
    eexists; (split; [|reflexivity]); auto.
Qed.
End OverviewClaim.


(** ** The claims at concrete requests *)

Lemma invalid_envelope_rejected_witness :
  dispatch ex_answering 3
    {| jsonrpc := Some (JStr "2.0"); method := None;
       params := Some ex_generate_args; id := Some (JNum 1) |} ex_empty
  = (Ret invalid_request, ex_empty, []).
Proof. apply invalid_envelope_rejected. left. reflexivity. Defined.

Lemma ex_generate_args_valid : valid_generate_args ex_generate_args "hello" (JStr "s1").
Proof. repeat split; try reflexivity; discriminate. Defined.

(** Three attempts against a rate-limited provider, then the failure. *)
Lemma generation_retry_policy_witness :
  let run := handleOpenAIGenerate ex_rate_limited 3 (Some ex_generate_args) ex_empty in
  (provider_calls (trace_of run) ≤ 3)%nat ∧
  result_of run = Throw (coded_error "OpenAI error: rate limit" (-32000)) ∧
  provider_calls (trace_of run) = 3%nat.
Proof.
  destruct (generation_retry_policy ex_rate_limited (openai_family ex_rate_limited) 3
              (Some ex_generate_args) ex_empty) as [Hle Hpolicy].
  { apply list_elem_of_here. }
  split; [exact Hle|].
  destruct (Hpolicy ex_generate_args "hello" (JStr "s1") eq_refl ex_generate_args_valid
              (Nat.le_refl 3)) as [_ Hterm].
  apply (Hterm 2%nat (ex_failure 429 "rate limit")).
  - lia.
  - intros k _. exists (ex_failure 429 "rate limit"). split; [reflexivity|].
    exists 429. split; [reflexivity|left; reflexivity].
  - reflexivity.
  - right. reflexivity.
Defined.

(** A status that is not retryable ends the call at attempt 1. *)
Lemma generation_not_retried :
  let run := handleOpenAIGenerate ex_bad_request 3 (Some ex_generate_args) ex_empty in
  result_of run = Throw (coded_error "OpenAI error: bad request" (-32000)) ∧
  provider_calls (trace_of run) = 1%nat.
Proof. split; reflexivity. Qed.

(** Both families on the session of ten turns: each handler returns
    the answer of its provider, and of the twelve turns it stores turn
    0 and the last 9. *)
Lemma stored_context_truncated_witness :
  let stored_with answer :=
    [(JStr "s1",
      mk_turn "user" (JNum 0)
        :: drop 3 ex_ten_turns
        ++ [mk_turn "user" (JStr "hello"); mk_turn "assistant" (JStr answer)])] in
  let openai := handleOpenAIGenerate ex_answering 3 (Some ex_generate_args) ex_long_session in
  let anthropic :=
    handleAnthropicGenerate ex_answering 3 (Some ex_generate_args) ex_long_session in
  (result_of openai = Ret (text_result (JStr "hi")) ∧
   contextStore (state_of openai) = stored_with "hi") ∧
  (result_of anthropic = Ret (text_result (JStr "hello")) ∧
   contextStore (state_of anthropic) = stored_with "hello").
Proof.
  cbv zeta. split.
  - destruct (stored_context_truncated ex_answering (openai_family ex_answering) 3
                (Some ex_generate_args) ex_long_session (list_elem_of_here _ _))
      as [_ Hanswered].
    destruct (Hanswered ex_generate_args "hello" (JStr "s1") 0%nat (JStr "hi") []
                eq_refl ex_generate_args_valid (Nat.le_refl 3))
      as [Hresult Hstate].
    + lia.
    + intros k Hk. lia.
    + reflexivity.
    + split; [exact Hresult|].
      change (f_handler (openai_family ex_answering)) with (handleOpenAIGenerate ex_answering)
        in Hstate.
      rewrite Hstate. reflexivity.
  - destruct (stored_context_truncated ex_answering (anthropic_family ex_answering) 3
                (Some ex_generate_args) ex_long_session
                (list_elem_of_further _ _ _ (list_elem_of_here _ _)))
      as [_ Hanswered].
    destruct (Hanswered ex_generate_args "hello" (JStr "s1") 0%nat (JStr "hello") []
                eq_refl ex_generate_args_valid (Nat.le_refl 3))
      as [Hresult Hstate].
    + lia.
    + intros k Hk. lia.
    + reflexivity.
    + split; [exact Hresult|].
      change (f_handler (anthropic_family ex_answering))
        with (handleAnthropicGenerate ex_answering) in Hstate.
      rewrite Hstate. reflexivity.
Defined.

(** The twelve turns of that call are stored as turn 0 and the last 9. *)
Lemma truncation_example :
  contextStore
    (state_of (handleOpenAIGenerate ex_answering 3 (Some ex_generate_args) ex_long_session))
  = [(JStr "s1",
      mk_turn "user" (JNum 0)
        :: drop 3 ex_ten_turns
        ++ [mk_turn "user" (JStr "hello"); mk_turn "assistant" (JStr "hi")])].
Proof. reflexivity. Qed.

Lemma failed_generation_keeps_context_witness :
  (∀ e, result_of (handleOpenAIGenerate ex_rate_limited 3 (Some ex_generate_args)
                     ex_long_session) = Throw e →
        state_of (handleOpenAIGenerate ex_rate_limited 3 (Some ex_generate_args)
                    ex_long_session) = ex_long_session) ∧
  state_of (handleOpenAIGenerate ex_rate_limited 3 (Some ex_generate_args) ex_long_session)
  = ex_long_session.
Proof.
  pose proof (failed_generation_keeps_context ex_rate_limited
                (openai_family ex_rate_limited) 3 (Some ex_generate_args) ex_long_session
                (list_elem_of_here _ _)) as [Hthrow _].
  split; [exact Hthrow|].
  apply (Hthrow (coded_error "OpenAI error: rate limit" (-32000))). reflexivity.
Defined.

Lemma generative_methods_never_cached_witness :
  let req := ex_request "openai_generate" ex_generate_args in
  let run1 := dispatch ex_answering 3 req ex_empty in
  let run2 := dispatch ex_answering 3 req (state_of run1) in
  (∀ ev, ev ∈ trace_of run1 ++ trace_of run2 → is_cache_event ev = false) ∧
  memoryCache (state_of run2) = memoryCache ex_empty ∧
  redis (state_of run2) = redis ex_empty ∧
  List.filter is_handler_start (trace_of run1) = [EvHandler "openai_generate"] ∧
  List.filter is_handler_start (trace_of run2) = [EvHandler "openai_generate"] ∧
  (0 < provider_calls (trace_of run1))%nat ∧
  (0 < provider_calls (trace_of run2))%nat.
Proof.
  destruct (generative_methods_never_cached ex_answering ex_answering 3
              (ex_request "openai_generate" ex_generate_args) "openai_generate" ex_empty)
    as (Hev & Hm & Hr & Hvalid).
  { reflexivity. }
  { apply list_elem_of_here. }
  destruct Hvalid as (_ & _ & H1 & H2 & Hp).
  { repeat split. }
  destruct (Hp ltac:(discriminate) ex_generate_args "hello" (JStr "s1") eq_refl
              ex_generate_args_valid ltac:(lia)) as [Hp1 Hp2].
  repeat split; assumption.
Defined.

Lemma full_miss_populates_caches_witness :
  let req := ex_request "solana_wallet_overview" ex_overview_args in
  let lookup := cache_lookup ex_answering (JStr "solana_wallet_overview")
                  (params req) (id req) ex_empty in
  let routed := route ex_answering 3 (JStr "solana_wallet_overview") (params req)
                  (state_of lookup) in
  let result :=
    text_result (JStr ("Wallet Overview for A:" +:+ nl +:+ "Total USD Value: $21" +:+ nl +:+
                       "Number of Tokens: 2" +:+ nl +:+ "Number of NFTs: 0")) in
  let key := cacheKey (JStr "solana_wallet_overview") (params req) in
  let run := dispatch ex_answering 3 req ex_empty in
  result_of run = Ret (ok_response result (id req)) ∧
  trace_of run
  = trace_of lookup ++ trace_of routed
    ++ [EvTier1Set key result; EvTier2Set key (stringify result) 300] ∧
  memoryCache (state_of run) !! key = Some (result, 122000) ∧
  redis (state_of run) !! key = Some (stringify result, 302000).
Proof.
  cbn zeta.
  destruct (full_miss_populates_caches ex_answering 3
              (ex_request "solana_wallet_overview" ex_overview_args)
              "solana_wallet_overview" ex_empty
              (state_of (cache_lookup ex_answering (JStr "solana_wallet_overview")
                           (Some ex_overview_args) (Some (JNum 1)) ex_empty))
              (state_of (route ex_answering 3 (JStr "solana_wallet_overview")
                           (Some ex_overview_args) ex_empty))
              (trace_of (cache_lookup ex_answering (JStr "solana_wallet_overview")
                           (Some ex_overview_args) (Some (JNum 1)) ex_empty))
              (trace_of (route ex_answering 3 (JStr "solana_wallet_overview")
                           (Some ex_overview_args) ex_empty))
              (text_result (JStr ("Wallet Overview for A:" +:+ nl +:+
                                  "Total USD Value: $21" +:+ nl +:+
                                  "Number of Tokens: 2" +:+ nl +:+ "Number of NFTs: 0"))))
    as (Hres & Htrace & Ht1 & Ht2 & _).
  - repeat split.
  - reflexivity.
  - reflexivity.
  - vm_compute. reflexivity.
  - vm_compute. reflexivity.
  - split; [exact Hres|]. split; [exact Htrace|]. split.
    + rewrite Ht1. apply lookup_insert_eq.
    + rewrite Ht2. apply lookup_insert_eq.
Defined.

(** With Redis refusing reads, the same request is answered alike. *)
Lemma tier2_failure_degrades_silently_witness :
  let req := ex_request "solana_wallet_overview" ex_overview_args in
  observe (dispatch ex_redis_down 3 req ex_empty)
  = observe (dispatch (without_tier2 ex_redis_down) 3 req ex_empty) ∧
  ∃ res, result_of (dispatch ex_redis_down 3 req ex_empty) = Ret res.
Proof.
  destruct (tier2_failure_degrades_silently ex_redis_down 3
              (ex_request "solana_wallet_overview" ex_overview_args) ex_empty)
    as (Hget & _ & _ & Htotal).
  split.
  - apply (Hget (plain_error "ECONNREFUSED")). reflexivity.
  - apply Htotal. lia.
Defined.





(** The example of the specification: A holds mintX and mintY, B holds
    mintX. Only mintX is listed, with its two holders. *)
Lemma cross_analysis_example :
  result_of (handleSolanaCrossAnalysis ex_answering (Some ex_cross_args) ex_empty)
  = Ret (text_result (JStr (
      "Cross-analysis of 2 addresses:" +:+ nl +:+ "        " +:+ nl +:+
      "Common tokens:" +:+ nl +:+
      "1. X (2/2 wallets):" +:+ nl +:+
      "   - Wallet 1: 10 ($20)" +:+ nl +:+
      "   - Wallet 2: 3 ($6)"))).
Proof. vm_compute. reflexivity. Qed.


(* ===================================================================== *)
(** * Further properties of the gateway *)
(* ===================================================================== *)

Section Follows.
Context (P : event → Prop) (R : state → state → Prop).
Hypothesis R_refl : ∀ s, R s s.
Hypothesis R_trans : ∀ s1 s2 s3, R s1 s2 → R s2 s3 → R s1 s3.

Lemma follows_ret {A} (a : A) : follows P R (ret a).
Proof. intros s. split; [constructor|apply R_refl]. Qed.

Lemma follows_throw {A} (e : js_error) : follows P R (throw e : M A).
Proof. intros s. split; [constructor|apply R_refl]. Qed.

Lemma follows_out_of_fuel {A} : follows P R (out_of_fuel : M A).
Proof. intros s. split; [constructor|apply R_refl]. Qed.

Lemma follows_emit (ev : event) : P ev → follows P R (emit ev).
Proof. intros H s. split; [repeat constructor; exact H|apply R_refl]. Qed.

Lemma follows_get_state : follows P R get_state.
Proof. intros s. split; [constructor|apply R_refl]. Qed.

Lemma follows_bind {A B} (m : M A) (k : A → M B) :
  follows P R m → (∀ a, follows P R (k a)) → follows P R (m ≫= k).
Proof.
  intros Hm Hk s. rewrite run_bind. destruct (Hm s) as [Ht Hs].
  destruct (m s) as [[[a|e|] s1] t1]; [|split; assumption..].
  destruct (Hk a s1) as [Ht' Hs']. destruct (k a s1) as [[r s2] t2].
  unfold trace_of, state_of in *. cbn [fst snd] in *.
  split; [apply Forall_app; split; assumption|eapply R_trans; eassumption].
Qed.

Lemma follows_fmap {A B} (f : A → B) (m : M A) : follows P R m → follows P R (f <$> m).
Proof. intros Hm. apply (follows_bind m); [exact Hm|]. intros a. apply follows_ret. Qed.

Lemma follows_try_catch {A} (m : M A) (h : js_error → M A) :
  follows P R m → (∀ e, follows P R (h e)) → follows P R (try_catch m h).
Proof.
  intros Hm Hh s. rewrite run_try_catch. destruct (Hm s) as [Ht Hs].
  destruct (m s) as [[[a|e|] s1] t1]; [split; assumption| |split; assumption].
  destruct (Hh e s1) as [Ht' Hs']. destruct (h e s1) as [[r s2] t2].
  unfold trace_of, state_of in *. cbn [fst snd] in *.
  split; [apply Forall_app; split; assumption|eapply R_trans; eassumption].
Qed.
End Follows.

Ltac follows_side :=
  solve [ assumption | intros; reflexivity | intros; etransitivity; eassumption
        | auto ].

Ltac follows_step :=
  first [ apply follows_ret; follows_side | apply follows_throw; follows_side
        | apply follows_get_state; follows_side
        | apply follows_fmap; [follows_side..|]
        | apply follows_try_catch; [follows_side..| |intros ?]
        | apply follows_bind; [follows_side..| |intros ?] ].

Ltac follows_auto :=
  repeat first
    [ follows_step
    | match goal with
      | |- follows _ _ (if ?b then _ else _) => destruct b
      | |- follows _ _ (match ?x with _ => _ end) => destruct x
      | |- follows _ _ (let '(_, _) := ?x in _) => destruct x
      end ].

(** ** The handlers of the analytics methods keep no state *)

Section Stateless.
Variable E : env.
Context (P : event → Prop).
Hypothesis P_upstream : ∀ op a, P (EvUpstream op a).

Lemma stateless_destructure (params : option json) : follows P eq (destructure params).
Proof. unfold destructure. follows_auto. Qed.

Lemma stateless_reduce_sum (price : json → json) (data : list json) (sum : sum_value) :
  follows P eq (reduce_sum price data sum).
Proof.
  revert sum. induction data as [|item rest IH]; intros sum; cbn [reduce_sum].
  - follows_auto.
  - destruct item; first [apply follows_throw; follows_side | apply IH].
Qed.

Lemma stateless_count_and_sum (price : json → json) (result : json) :
  follows P eq (count_and_sum price result).
Proof.
  unfold count_and_sum.
  destruct (truthy result && truthy_opt (prop result "data")); [|follows_auto].
  destruct (prop result "data") as [[]|]; try (apply follows_throw; follows_side).
  apply follows_bind; [follows_side..|apply stateless_reduce_sum|]. intros a. follows_auto.
Qed.

Lemma stateless_getWalletTokens (a : option json) : follows P eq (getWalletTokens E a).
Proof.
  unfold getWalletTokens. destruct (negb _); [follows_auto|].
  apply follows_bind; [follows_side..|apply follows_emit; auto|]. intros _. follows_auto.
Qed.

Lemma stateless_getWalletNfts (a : option json) : follows P eq (getWalletNfts E a).
Proof.
  unfold getWalletNfts. destruct (negb _); [follows_auto|].
  apply follows_bind; [follows_side..|apply follows_emit; auto|]. intros _. follows_auto.
Qed.

Lemma stateless_promise_all (ps : list upstream_outcome) : follows P eq (promise_all E ps).
Proof. unfold promise_all. follows_auto. Qed.

Lemma stateless_overview (params : option json) :
  follows P eq (handleSolanaWalletOverview E params).
Proof.
  unfold handleSolanaWalletOverview.
  apply follows_bind; [follows_side..|apply stateless_destructure|]. intros args.
  destruct (negb _); [follows_auto|].
  apply follows_try_catch; [follows_side..| |intros e; follows_auto].
  apply follows_bind; [follows_side..|apply stateless_getWalletTokens|]. intros p1.
  apply follows_bind; [follows_side..|apply stateless_getWalletNfts|]. intros p2.
  apply follows_bind; [follows_side..|apply stateless_promise_all|]. intros results.
  apply follows_bind; [follows_side..|apply stateless_count_and_sum|]. intros tokens.
  destruct (match tokens with Some _ => _ | None => _ end) as [tokenCount total].
  apply follows_bind; [follows_side..|apply stateless_count_and_sum|]. intros nfts.
  destruct (match nfts with Some _ => _ | None => _ end) as [nftCount total'].
  follows_auto.
Qed.

Lemma stateless_issue_wallet_tokens (addresses : list json) :
  follows P eq (issue_wallet_tokens E addresses).
Proof.
  induction addresses as [|a rest IH]; cbn [issue_wallet_tokens]; [follows_auto|].
  apply follows_bind; [follows_side..|apply stateless_getWalletTokens|]. intros p.
  apply follows_bind; [follows_side..|apply IH|]. intros ps. follows_auto.
Qed.

Lemma stateless_record_token (address : string) (token : json) (tbm : obj token_entry) :
  follows P eq (record_token address token tbm).
Proof.
  unfold record_token. destruct token; try (apply follows_throw; follows_side);
    destruct (get _ tbm); try (apply follows_ret; follows_side);
    destruct (inherited _); first [apply follows_throw; follows_side | apply follows_ret; follows_side].
Qed.

Lemma stateless_record_tokens (address : string) (data : list json) (tbm : obj token_entry) :
  follows P eq (record_tokens address data tbm).
Proof.
  revert tbm. induction data as [|token rest IH]; intros tbm; cbn [record_tokens].
  - follows_auto.
  - apply follows_bind; [follows_side..|apply stateless_record_token|]. intros tbm'. apply IH.
Qed.

Lemma stateless_record_result (address result : json) (tbm : obj token_entry) :
  follows P eq (record_result address result tbm).
Proof.
  unfold record_result.
  destruct result; try (apply follows_ret; follows_side);
    (destruct (truthy_opt _); [|apply follows_ret; follows_side]);
    destruct (prop _ "data") as [[]|];
    first [apply follows_throw; follows_side | apply stateless_record_tokens].
Qed.

Lemma stateless_record_results (addresses results : list json) (tbm : obj token_entry) :
  follows P eq (record_results addresses results tbm).
Proof.
  revert results tbm. induction addresses as [|a addresses IH];
    intros results tbm; destruct results as [|result rest];
    cbn [record_results]; try (apply follows_ret; follows_side).
  apply follows_bind; [follows_side..|apply stateless_record_result|]. intros tbm'. apply IH.
Qed.

Lemma stateless_cross_analysis (params : option json) :
  follows P eq (handleSolanaCrossAnalysis E params).
Proof.
  unfold handleSolanaCrossAnalysis.
  apply follows_bind; [follows_side..|apply stateless_destructure|]. intros args.
  destruct (prop args "addresses") as [[| | | |[|a rest]|]|]; try (apply follows_throw; follows_side).
  apply follows_try_catch; [follows_side..| |intros e; follows_auto].
  apply follows_bind; [follows_side..|apply stateless_issue_wallet_tokens|]. intros ps.
  apply follows_bind; [follows_side..|apply stateless_promise_all|]. intros results.
  apply follows_bind; [follows_side..|apply stateless_record_results|]. intros tbm.
  follows_auto.
Qed.

Lemma stateless_run_other (name : string) (params : option json) :
  follows P eq (run_other E name params).
Proof. unfold run_other. follows_auto. Qed.
End Stateless.

(** ** What a request writes into the caches *)

Lemma generate_step (p : provider)
    (create : nat → completion_request → provider_outcome)
    (default_model prefix : string) (fuel : nat) (params : option json) (s : state) :
  handler_step s (state_of (generate p create default_model prefix fuel params s)).
Proof.
  destruct (generate_state p create default_model prefix fuel params s) as [->|[result H]];
    [constructor|].
  destruct (generate_ret p create default_model prefix fuel params s result H)
    as (args & prompt & sid & n & c & cs & _ & _ & _ & _ & _ & ->).
  constructor.
Qed.

Lemma clear_context_step (params : option json) (s : state) :
  handler_step s (state_of (handleClearContext params s)).
Proof.
  unfold handleClearContext. rewrite run_bind.
  destruct params as [args|]; [|constructor].
  destruct args; cbn [destructure]; run_M; try constructor;
    (destruct (negb (truthy_opt _)); unfold delete_context; run_M; cbn; constructor).
Qed.

Lemma start_handler_run (name : string) (run : outcome json * state * list event) :
  state_of (start_handler name run) = state_of run ∧
  trace_of (start_handler name run) = EvHandler name :: trace_of run.
Proof. destruct run as [[[r|e|] s] t]; split; reflexivity. Qed.

Lemma quiet_Forall (t : list event) :
  quiet t → Forall (fun ev => is_cache_event ev = false) t.
Proof. intros H. apply Forall_forall. intros ev Hev. apply H, Hev. Qed.

(** The [switch]: a handler touches no cache tier. *)
Lemma route_step (E : env) (fuel : nat) (m : json) (params : option json) (s : state) :
  Forall (fun ev => is_cache_event ev = false) (trace_of (route E fuel m params s)) ∧
  handler_step s (state_of (route E fuel m params s)).
Proof.
  assert (Hstateless : ∀ name (h : M json),
            follows (fun ev => is_cache_event ev = false) eq h →
            Forall (fun ev => is_cache_event ev = false)
                   (trace_of ((emit (EvHandler name);; Some <$> h) s)) ∧
            handler_step s (state_of ((emit (EvHandler name);; Some <$> h) s))).
  { intros name h Hh. rewrite run_start.
    destruct (start_handler_run name (h s)) as [-> ->]. destruct (Hh s) as [Ht <-].
    split; [constructor; [reflexivity|exact Ht]|constructor]. }
  unfold route. destruct m; try (split; [constructor|constructor]).
  repeat match goal with
         | |- context [if ?b then _ else _] => destruct b
         end; try (split; [constructor|constructor]).
  - rewrite run_start, openai_is_generate.
    destruct (start_handler_run s0 (generate OpenAI (openai_create E) "gpt-4o"
                "OpenAI error: " fuel params s)) as [-> ->].
    split; [|apply generate_step].
    constructor; [reflexivity|]. apply quiet_Forall, generate_cache_free.
  - rewrite run_start, anthropic_is_generate.
    destruct (start_handler_run s0 (generate Anthropic (anthropic_create E)
                "claude-3-5-sonnet-20240620" "Anthropic error: " fuel params s)) as [-> ->].
    split; [|apply generate_step].
    constructor; [reflexivity|]. apply quiet_Forall, generate_cache_free.
  - rewrite run_start.
    destruct (start_handler_run s0 (handleClearContext params s)) as [-> ->].
    split; [|apply clear_context_step].
    constructor; [reflexivity|]. apply quiet_Forall, clear_context_cache_free.
  - apply Hstateless, stateless_overview. reflexivity.
  - apply Hstateless, stateless_cross_analysis. reflexivity.
  - apply Hstateless, stateless_run_other.
Qed.

Lemma handler_step_caches (s s' : state) :
  handler_step s s' → memoryCache s' = memoryCache s ∧ redis s' = redis s.
Proof. intros []; split; reflexivity. Qed.

Ltac in_trace :=
  repeat match goal with
         | H : _ ∈ [] |- _ => apply elem_of_nil in H; destruct H
         | H : _ ∈ _ :: _ |- _ => apply elem_of_cons in H; destruct H as [H|H]
         | H : _ ∈ _ ++ _ |- _ => apply elem_of_app in H; destruct H as [H|H]
         | H : EvTier1Set _ _ = _ |- _ => first [discriminate H | injection H as ? ?; subst]
         | H : EvTier2Set _ _ _ = _ |- _ => first [discriminate H | injection H as ? ? ?; subst]
         end.

Section Writes.
Variable E : env.

(** The lookup writes tier 1 only when it serves from tier 2, and then
    what it serves. *)
Lemma cache_lookup_writes (m : json) (params id : option json) (s : state) :
  let run := cache_lookup E m params id s in
  let key := cacheKey m params in
  (∀ k v, EvTier1Set k v ∈ trace_of run →
     k = key ∧ result_of run = Ret (Some (ok_response v id))) ∧
  (∀ k payload ex, EvTier2Set k payload ex ∉ trace_of run) ∧
  (∀ k, k ≠ key → memoryCache (state_of run) !! k = memoryCache s !! k) ∧
  redis (state_of run) = redis s ∧
  contextStore (state_of run) = contextStore s.
Proof.
  cbn zeta. unfold result_of, state_of, trace_of.
  destruct m; unfold_cache; cbn; split_ifs; rewrite ?app_nil_r;
    (split; [intros k v Hin; in_trace; split; reflexivity|]);
    (split; [intros k payload ex Hin; in_trace|]);
    (split; [intros k Hk; cbn;
             rewrite ?lookup_insert_ne, ?lookup_delete_ne by congruence; reflexivity|]);
    split; reflexivity.
Qed.

(** The population step writes the result, under the key of the
    request. *)
Lemma cache_populate_writes (m : json) (params : option json) (result : json) (s : state) :
  let run := cache_populate E m params result s in
  let key := cacheKey m params in
  (∀ k v, EvTier1Set k v ∈ trace_of run → k = key ∧ v = result ∧ result_of run = Ret tt) ∧
  (∀ k payload ex, EvTier2Set k payload ex ∈ trace_of run →
     k = key ∧ payload = stringify result ∧ ex = redisEX ∧ result_of run = Ret tt) ∧
  (∀ k, k ≠ key → memoryCache (state_of run) !! k = memoryCache s !! k ∧
                   redis (state_of run) !! k = redis s !! k) ∧
  contextStore (state_of run) = contextStore s.
Proof.
  cbn zeta. unfold result_of, state_of, trace_of.
  destruct m; unfold_cache; cbn; split_ifs; rewrite ?app_nil_r;
    (split; [intros k v Hin; in_trace; repeat split; reflexivity|]);
    (split; [intros k payload ex Hin; in_trace; repeat split; reflexivity|]);
    (split; [intros k Hk; cbn;
             rewrite ?lookup_insert_ne by congruence; split; reflexivity|]);
    reflexivity.
Qed.
End Writes.

Lemma Forall_not_set (t : list event) :
  Forall (fun ev => is_cache_event ev = false) t →
  (∀ k v, EvTier1Set k v ∉ t) ∧ (∀ k payload ex, EvTier2Set k payload ex ∉ t).
Proof.
  rewrite Forall_forall. intros H.
  split; [intros k v Hin|intros k p ex Hin]; apply H in Hin; discriminate Hin.
Qed.

(** X1. Only what a request is answered with enters the caches, and
    under the key of that request: a write to tier 1 holds the result
    of the response, a write to tier 2 its serialization with EX 300;
    a request answered with an error writes nothing. Entries under
    other keys stay as they were, in both tiers. *)
Theorem only_results_are_cached (E : env) (fuel : nat) (req : envelope) (s : state) :
  let run := dispatch E fuel req s in
  let key := cacheKey (default_to JNull (method req)) (params req) in
  (∀ k v, EvTier1Set k v ∈ trace_of run →
     k = key ∧ result_of run = Ret (ok_response v (id req))) ∧
  (∀ k payload ex, EvTier2Set k payload ex ∈ trace_of run →
     k = key ∧ ex = 300 ∧
     ∃ v, payload = stringify v ∧ result_of run = Ret (ok_response v (id req))) ∧
  (∀ k, k ≠ key →
     memoryCache (state_of run) !! k = memoryCache s !! k ∧
     redis (state_of run) !! k = redis s !! k).
Proof.
  cbn zeta.
  destruct (envelope_cases req) as [[Hv [m Hm]]|[_ Hinv]].
  2:{ rewrite Hinv. unfold trace_of, state_of. cbn [fst snd].
      split; [intros k v Hin; in_trace|].
      split; [intros k p ex Hin; in_trace|]. intros k _. split; reflexivity. }
  rewrite (dispatch_run E fuel req m s Hv Hm), Hm. cbn [default_to].
  destruct (cache_lookup_writes E m (params req) (id req) s)
    as (Hl1 & Hl2 & Hlm & Hlr & _).
  destruct (cache_lookup E m (params req) (id req) s) as [[o1 s1] t1].
  unfold result_of, state_of, trace_of in Hl1, Hl2, Hlm, Hlr. cbn [fst snd] in *.
  assert (Hframe1 : ∀ k, k ≠ cacheKey m (params req) →
            memoryCache s1 !! k = memoryCache s !! k ∧ redis s1 !! k = redis s !! k).
  { intros k Hk. rewrite Hlr. split; [apply Hlm, Hk|reflexivity]. }
  destruct o1 as [[res|]|err|].
  - unfold result_of, state_of, trace_of. cbn [fst snd].
    split; [|split; [|exact Hframe1]].
    + intros k v Hin. destruct (Hl1 k v Hin) as [-> [= ->]]. split; reflexivity.
    + intros k p ex Hin. destruct (Hl2 k p ex Hin).
  - destruct (route_step E fuel m (params req) s1) as [Hr Hstep].
    apply Forall_not_set in Hr as [Hr1 Hr2].
    apply handler_step_caches in Hstep as [Hmc Hrd].
    destruct (route E fuel m (params req) s1) as [[o2 s2] t2].
    unfold state_of, trace_of in Hr1, Hr2, Hmc, Hrd. cbn [fst snd] in *.
    assert (Hframe2 : ∀ k, k ≠ cacheKey m (params req) →
              memoryCache s2 !! k = memoryCache s !! k ∧ redis s2 !! k = redis s !! k).
    { intros k Hk. rewrite Hmc, Hrd. apply Hframe1, Hk. }
    assert (Hno : ∀ o : outcome response,
              let run := (o, s2, t1 ++ t2) in
              (∀ k v, EvTier1Set k v ∈ trace_of run →
                 k = cacheKey m (params req) ∧ result_of run = Ret (ok_response v (id req))) ∧
              (∀ k payload ex, EvTier2Set k payload ex ∈ trace_of run →
                 k = cacheKey m (params req) ∧ ex = 300 ∧
                 ∃ v, payload = stringify v ∧ result_of run = Ret (ok_response v (id req))) ∧
              (∀ k, k ≠ cacheKey m (params req) →
                 memoryCache (state_of run) !! k = memoryCache s !! k ∧
                 redis (state_of run) !! k = redis s !! k)).
    { intros o. cbn zeta. unfold result_of, state_of, trace_of. cbn [fst snd].
      split; [|split; [|exact Hframe2]].
      - intros k v Hin. apply elem_of_app in Hin as [Hin|Hin];
          [destruct (Hl1 k v Hin) as [_ [=]]|destruct (Hr1 k v Hin)].
      - intros k p ex Hin. apply elem_of_app in Hin as [Hin|Hin];
          [destruct (Hl2 k p ex Hin)|destruct (Hr2 k p ex Hin)]. }
    destruct o2 as [[result|]|err|]; try apply Hno.
    destruct (cache_populate_writes E m (params req) result s2)
      as (Hp1 & Hp2 & Hpf & _).
    destruct (cache_populate E m (params req) result s2) as [[o3 s3] t3].
    unfold result_of, state_of, trace_of in Hp1, Hp2, Hpf. cbn [fst snd] in *.
    assert (Hframe3 : ∀ k, k ≠ cacheKey m (params req) →
              memoryCache s3 !! k = memoryCache s !! k ∧ redis s3 !! k = redis s !! k).
    { intros k Hk. destruct (Hpf k Hk) as [-> ->]. apply Hframe2, Hk. }
    assert (Hin1 : ∀ k v, EvTier1Set k v ∈ t1 ++ t2 ++ t3 →
              k = cacheKey m (params req) ∧ v = result ∧ o3 = Ret tt).
    { intros k v Hin. apply elem_of_app in Hin as [Hin|Hin];
        [destruct (Hl1 k v Hin) as [_ [=]]|].
      apply elem_of_app in Hin as [Hin|Hin]; [destruct (Hr1 k v Hin)|].
      apply Hp1, Hin. }
    assert (Hin2 : ∀ k p ex, EvTier2Set k p ex ∈ t1 ++ t2 ++ t3 →
              k = cacheKey m (params req) ∧ p = stringify result ∧ ex = redisEX ∧ o3 = Ret tt).
    { intros k p ex Hin. apply elem_of_app in Hin as [Hin|Hin];
        [destruct (Hl2 k p ex Hin)|].
      apply elem_of_app in Hin as [Hin|Hin]; [destruct (Hr2 k p ex Hin)|].
      apply Hp2, Hin. }
    destruct o3 as [[]|err|]; unfold result_of, state_of, trace_of; cbn [fst snd];
      (split; [|split; [|exact Hframe3]]).
    + intros k v Hin. destruct (Hin1 k v Hin) as (-> & -> & _). split; reflexivity.
    + intros k p ex Hin. destruct (Hin2 k p ex Hin) as (-> & -> & -> & _).
      split; [reflexivity|]. split; [reflexivity|]. exists result. split; reflexivity.
    + intros k v Hin. destruct (Hin1 k v Hin) as (_ & _ & [=]).
    + intros k p ex Hin. destruct (Hin2 k p ex Hin) as (_ & _ & _ & [=]).
    + intros k v Hin. destruct (Hin1 k v Hin) as (_ & _ & [=]).
    + intros k p ex Hin. destruct (Hin2 k p ex Hin) as (_ & _ & _ & [=]).
  - unfold result_of, state_of, trace_of. cbn [fst snd].
    split; [|split; [|exact Hframe1]].
    + intros k v Hin. destruct (Hl1 k v Hin) as [_ [=]].
    + intros k p ex Hin. destruct (Hl2 k p ex Hin).
  - unfold result_of, state_of, trace_of. cbn [fst snd].
    split; [|split; [|exact Hframe1]].
    + intros k v Hin. destruct (Hl1 k v Hin) as [_ [=]].
    + intros k p ex Hin. destruct (Hl2 k p ex Hin).
Qed.

(** ** How a handler fails *)

Lemma try_catch_coded {A} (m : M A) (prefix : string) (c : Z) (s : state)
    (e : js_error) :
  result_of (try_catch m (fun error => throw (coded_error (prefix +:+ message error) c)) s)
  = Throw e →
  ∃ msg, e = coded_error msg c.
Proof.
  rewrite run_try_catch. destruct (m s) as [[[a|err|] s1] t1]; try discriminate.
  unfold throw, result_of. cbn [fst]. intros [= <-]. eexists. reflexivity.
Qed.

Lemma generate_failure (p : provider)
    (create : nat → completion_request → provider_outcome)
    (default_model prefix : string) (fuel : nat) (params : option json) (s : state)
    (e : js_error) :
  result_of (generate p create default_model prefix fuel params s) = Throw e →
  handler_failure params e (trace_of (generate p create default_model prefix fuel params s)).
Proof.
  unfold generate. rewrite run_bind.
  destruct params as [args|];
    [|intros [= <-]; right; right; repeat split; auto].
  assert (Hnull : args = JNull ∨ args ≠ JNull)
    by (destruct args; auto; right; discriminate).
  destruct Hnull as [->|Hnn];
    [intros [= <-]; right; right; repeat split; auto|].
  assert (Hd : destructure (Some args) s = (Ret args, s, [])).
  { destruct args; try reflexivity. congruence. }
  rewrite Hd.
  destruct (negb (truthy_opt (prop args "prompt")) || negb (typeof_string (prop args "prompt")));
    [intros [= <-]; left; eexists; split; reflexivity|].
  destruct (negb (truthy_opt (prop args "session_id")));
    [intros [= <-]; left; eexists; split; reflexivity|].
  match goal with
  | |- context [try_catch ?m ?h s] =>
      pose proof (try_catch_coded m prefix (-32000) s e) as Hc;
      destruct (try_catch m h s) as [[o s'] t]
  end.
  intros H. right. left. apply Hc, H.
Qed.

Lemma clear_context_failure (params : option json) (s : state) (e : js_error) :
  result_of (handleClearContext params s) = Throw e →
  handler_failure params e (trace_of (handleClearContext params s)).
Proof.
  unfold handleClearContext. rewrite run_bind.
  destruct params as [args|];
    [|intros [= <-]; right; right; repeat split; auto].
  destruct args; cbn [destructure]; run_M;
    try (intros [= <-]; right; right; repeat split; auto; fail);
    (destruct (negb (truthy_opt _));
     [intros [= <-]; left; eexists; split; reflexivity
     |unfold delete_context; run_M; cbn; discriminate]).
Qed.

Lemma overview_failure (E : env) (params : option json) (s : state) (e : js_error) :
  result_of (handleSolanaWalletOverview E params s) = Throw e →
  handler_failure params e (trace_of (handleSolanaWalletOverview E params s)).
Proof.
  unfold handleSolanaWalletOverview. rewrite run_bind.
  destruct params as [args|];
    [|intros [= <-]; right; right; repeat split; auto].
  assert (Hnull : args = JNull ∨ args ≠ JNull)
    by (destruct args; auto; right; discriminate).
  destruct Hnull as [->|Hnn];
    [intros [= <-]; right; right; repeat split; auto|].
  assert (Hd : destructure (Some args) s = (Ret args, s, [])).
  { destruct args; try reflexivity. congruence. }
  rewrite Hd.
  destruct (negb (truthy_opt (prop args "address")));
    [intros [= <-]; left; eexists; split; reflexivity|].
  match goal with
  | |- context [try_catch ?m ?h s] =>
      pose proof (try_catch_coded m "Error fetching Solana data: " (-32000) s e) as Hc;
      destruct (try_catch m h s) as [[o s'] t]
  end.
  intros H. right. left. apply Hc, H.
Qed.

Lemma cross_analysis_failure (E : env) (params : option json) (s : state) (e : js_error) :
  result_of (handleSolanaCrossAnalysis E params s) = Throw e →
  handler_failure params e (trace_of (handleSolanaCrossAnalysis E params s)).
Proof.
  unfold handleSolanaCrossAnalysis. rewrite run_bind.
  destruct params as [args|];
    [|intros [= <-]; right; right; repeat split; auto].
  assert (Hnull : args = JNull ∨ args ≠ JNull)
    by (destruct args; auto; right; discriminate).
  destruct Hnull as [->|Hnn];
    [intros [= <-]; right; right; repeat split; auto|].
  assert (Hd : destructure (Some args) s = (Ret args, s, [])).
  { destruct args; try reflexivity. congruence. }
  rewrite Hd.
  destruct (prop args "addresses") as [[| | | |[|a rest]|]|];
    try (intros [= <-]; left; eexists; split; reflexivity).
  match goal with
  | |- context [try_catch ?m ?h s] =>
      pose proof (try_catch_coded m "Error in cross analysis: " (-32000) s e) as Hc;
      destruct (try_catch m h s) as [[o s'] t]
  end.
  intros H. right. left. apply Hc, H.
Qed.

(** The [switch] on a modelled method: the handler is started, and
    fails in one of the three ways. *)
Lemma route_modelled (E : env) (fuel : nat) (name : string) (params : option json)
    (s : state) :
  name ∈ modelled_methods →
  ∃ h : M json,
    route E fuel (JStr name) params s = start_handler name (h s) ∧
    (∀ e, result_of (h s) = Throw e → handler_failure params e (trace_of (h s))).
Proof.
  unfold modelled_methods. rewrite !elem_of_cons, elem_of_nil.
  intros [->|[->|[->|[->|[->|[]]]]]].
  - exists (handleOpenAIGenerate E fuel params). split; [apply run_start|].
    rewrite openai_is_generate. apply generate_failure.
  - exists (handleAnthropicGenerate E fuel params). split; [apply run_start|].
    rewrite anthropic_is_generate. apply generate_failure.
  - exists (handleClearContext params). split; [apply run_start|].
    apply clear_context_failure.
  - exists (handleSolanaWalletOverview E params). split; [apply run_start|].
    apply overview_failure.
  - exists (handleSolanaCrossAnalysis E params). split; [apply run_start|].
    apply cross_analysis_failure.
Qed.

Section LookupStr.
Variable E : env.

(** On a method that is a string the lookup does not throw, and its
    effects are cache accesses. *)
Lemma cache_lookup_str (name : string) (params id : option json) (s : state) :
  (∃ served, result_of (cache_lookup E (JStr name) params id s) = Ret served ∧
     match served with
     | Some res => ∃ result, res = ok_response result id
     | None => True
     end) ∧
  Forall (fun ev => is_outside ev = false ∧ is_handler_start ev = false)
         (trace_of (cache_lookup E (JStr name) params id s)).
Proof.
  unfold result_of, trace_of. unfold_cache; cbn; split_ifs; rewrite ?app_nil_r;
    (split; [eexists; split; [reflexivity|]; try exact I; eexists; reflexivity|]);
    repeat constructor.
Qed.

Lemma cache_populate_str (name : string) (params : option json) (result : json)
    (s : state) :
  result_of (cache_populate E (JStr name) params result s) = Ret tt ∧
  Forall (fun ev => is_outside ev = false ∧ is_handler_start ev = false)
         (trace_of (cache_populate E (JStr name) params result s)).
Proof.
  unfold result_of, trace_of. unfold_cache; cbn; split_ifs; rewrite ?app_nil_r;
    (split; [reflexivity|]); repeat constructor.
Qed.
End LookupStr.

Lemma coded_error_response (msg : string) (c : Z) (id : option json) :
  c ≠ 0 →
  ∃ msg', error_response (coded_error msg c) id
          = {| http_status := 500; body := RpcError c msg' id |}.
Proof.
  intros Hc. unfold error_response, coded_error. cbn.
  destruct (Z.eqb_spec c 0); [contradiction|]. eexists. reflexivity.
Qed.

(** X2. A modelled method answers with a result (HTTP 200) or with HTTP
    500 and one of three codes: -32602 when a parameter is rejected,
    and then neither a provider nor the analytics API was called;
    -32000 when a call or the work on its answer failed; -32603 when
    the request had no parameter object. No other status or code
    leaves the gateway for these methods. *)
Theorem handler_failures_are_http_500 (E : env) (fuel : nat) (req : envelope)
    (name : string) (s : state) :
  valid_envelope req → method req = Some (JStr name) → name ∈ modelled_methods →
  (3 ≤ fuel)%nat →
  let run := dispatch E fuel req s in
  (∃ result, result_of run = Ret (ok_response result (id req))) ∨
  (∃ c msg,
     result_of run = Ret {| http_status := 500; body := RpcError c msg (id req) |} ∧
     ((c = -32602 ∧ Forall (fun ev => is_outside ev = false) (trace_of run)) ∨
      c = -32000 ∨
      (c = -32603 ∧ (params req = None ∨ params req = Some JNull)))).
Proof.
  intros Hv Hm Hn Hfuel. cbn zeta.
  rewrite (dispatch_run E fuel req (JStr name) s Hv Hm).
  destruct (cache_lookup_str E name (params req) (id req) s)
    as [(served & Hs & Hres) Ht1].
  destruct (cache_lookup E (JStr name) (params req) (id req) s) as [[o1 s1] t1].
  unfold result_of, trace_of in Hs, Ht1. cbn [fst snd] in *. subst o1.
  destruct served as [res|].
  { destruct Hres as [result ->]. left. exists result. reflexivity. }
  destruct (route_modelled E fuel name (params req) s1 Hn) as (h & Hroute & Hfail).
  pose proof (ends_route E fuel (JStr name) (params req) Hfuel s1) as Hends.
  rewrite Hroute in Hends |- *.
  destruct (h s1) as [[[result|e|] s2] t2]; cbn [start_handler] in *.
  - destruct (cache_populate_str E name (params req) result s2) as [Hp _].
    destruct (cache_populate E (JStr name) (params req) result s2) as [[o3 s3] t3].
    unfold result_of in Hp. cbn [fst] in Hp. subst o3.
    left. exists result. reflexivity.
  - right. unfold result_of, trace_of in *. cbn [fst snd] in *.
    destruct (Hfail e eq_refl) as [(msg & -> & ->)|[(msg & ->)|(Hc & Hh & -> & Hp)]].
    + destruct (coded_error_response msg (-32602) (id req)) as [msg' ->]; [lia|].
      exists (-32602), msg'. split; [reflexivity|]. left. split; [reflexivity|].
      apply Forall_app. split; [|repeat constructor].
      eapply Forall_impl; [exact Ht1|]. intros ev [H _]. exact H.
    + destruct (coded_error_response msg (-32000) (id req)) as [msg' ->]; [lia|].
      exists (-32000), msg'. split; [reflexivity|]. right. left. reflexivity.
    + unfold error_response. rewrite Hc, Hh. cbn [number_or].
      do 2 eexists. split; [reflexivity|]. right. right. split; [reflexivity|exact Hp].
  - exfalso. apply Hends. reflexivity.
Qed.

(** ** Serving from the caches *)

Lemma pretty_N_go_length (x : N) (s : string) :
  (String.length s ≤ String.length (pretty_N_go x s))%nat.
Proof.
  revert s. induction (N.lt_wf_0 x) as [x _ IH]. intros s.
  assert (x = 0 ∨ 0 < x)%N as [->|Hx] by lia; [rewrite pretty_N_go_0; lia|].
  rewrite pretty_N_go_step by exact Hx.
  etransitivity; [|apply IH, N.div_lt; [exact Hx|reflexivity]]. cbn. lia.
Qed.

Lemma pretty_N_nonempty (x : N) : pretty x ≠ EmptyString.
Proof.
  unfold pretty, pretty_N. destruct (decide (x = 0%N)) as [|Hx]; [discriminate|].
  rewrite pretty_N_go_step by lia.
  intros H. pose proof (pretty_N_go_length (x `div` 10)
                          (String (pretty_N_char (x `mod` 10)) EmptyString)) as Hl.
  rewrite H in Hl. cbn in Hl. lia.
Qed.

Lemma stringify_nonempty (v : json) : stringify v ≠ EmptyString.
Proof.
  destruct v as [|[]|n|s|l|o]; cbn [stringify]; try discriminate.
  destruct n as [|p|p]; cbn; try discriminate. apply pretty_N_nonempty.
Qed.

Section Serving.
Variable E : env.

(** A fresh truthy entry of tier 1 is served as it is. *)
Lemma cache_lookup_hit (name : string) (params id : option json) (s : state)
    (v : json) (t : Z) :
  fresh_only name = false →
  memoryCache s !! cacheKey (JStr name) params = Some (v, t) →
  now E ≤ t → truthy v = true →
  cache_lookup E (JStr name) params id s
  = (Ret (Some (ok_response v id)), s, [EvTier1Get (cacheKey (JStr name) params)]).
Proof.
  intros Hf Hk Ht Hv. unfold cache_lookup.
  rewrite run_bind, cacheable_str, Hf. cbn [negb]. rewrite run_bind.
  unfold memoryCache_get. run_M. rewrite Hk.
  destruct (Z.ltb_spec t (now E)) as [Hlt|_]; [lia|]. cbn. rewrite Hv. reflexivity.
Qed.

(** An entry of tier 1 past its time is dropped; an entry of tier 2
    that is still alive is parsed, served and copied back to tier 1. *)
Lemma cache_lookup_promote (name : string) (params id : option json) (s : state)
    (v parsed : json) (t t2 : Z) (payload : string) :
  fresh_only name = false →
  let key := cacheKey (JStr name) params in
  memoryCache s !! key = Some (v, t) → t < now E →
  redis_configured E && redis_ready E = true → redis_get_fails E = None →
  redis s !! key = Some (payload, t2) → now E < t2 →
  payload ≠ EmptyString → JSON_parse E payload = Some parsed →
  cache_lookup E (JStr name) params id s
  = (Ret (Some (ok_response parsed id)),
     with_tier1 s key parsed (now E + stdTTL * 1000),
     [EvTier1Get key; EvTier2Get key; EvTier1Set key parsed]).
Proof.
  intros Hf key Hk Ht Hr Hg Hk2 Ht2 Hne Hp. unfold cache_lookup.
  rewrite run_bind, cacheable_str, Hf. cbn [negb]. fold key. rewrite run_bind.
  unfold memoryCache_get. run_M. rewrite Hk.
  destruct (Z.ltb_spec t (now E)) as [_|Hge]; [|lia]. cbn. rewrite Hr.
  unfold redisClient_get, parse, memoryCache_set. run_M. rewrite Hg. cbn. rewrite Hk2.
  destruct (Z.ltb_spec (now E) t2) as [_|Hge]; [|lia]. cbn.
  apply String.eqb_neq in Hne. rewrite Hne. cbn. rewrite Hp. cbn.
  unfold with_tier1. cbn. rewrite insert_delete_eq. reflexivity.
Qed.
End Serving.

(** The first of two requests, answered by its handler. *)
Lemma dispatch_computed (E : env) (fuel : nat) (req : envelope) (name : string)
    (s : state) (result : json) :
  valid_envelope req → method req = Some (JStr name) → fresh_only name = false →
  EvHandler name ∈ trace_of (dispatch E fuel req s) →
  result_of (dispatch E fuel req s) = Ret (ok_response result (id req)) →
  let key := cacheKey (JStr name) (params req) in
  let tier2 := redis_configured E && redis_ready_after E && high_value_name name in
  ∃ s2,
    memoryCache (state_of (dispatch E fuel req s))
    = <[key := (result, now_after E + stdTTL * 1000)]> (memoryCache s2) ∧
    redis (state_of (dispatch E fuel req s))
    = (if tier2 && bool_decide (redis_set_fails E = None)
       then <[key := (stringify result, now_after E + redisEX * 1000)]> (redis s2)
       else redis s2).
Proof.
  intros Hv Hm Hf. cbn zeta.
  rewrite (dispatch_run E fuel req (JStr name) s Hv Hm).
  destruct (cache_lookup_str E name (params req) (id req) s)
    as [(served & Hs & _) Ht1].
  destruct (cache_lookup E (JStr name) (params req) (id req) s) as [[o1 s1] t1].
  unfold result_of, trace_of in Hs, Ht1. cbn [fst snd] in *. subst o1.
  rewrite Forall_forall in Ht1.
  destruct served as [res|].
  { intros Hin. apply Ht1 in Hin as [_ Hin]. discriminate Hin. }
  destruct (route E fuel (JStr name) (params req) s1) as [[[[result'|]|e|] s2] t2];
    try (intros _ H; discriminate H).
  rewrite (cache_populate_run E name (params req) result' s2 Hf).
  destruct (redis_configured E && redis_ready_after E && high_value_name name).
  - intros _ [= <-]. exists s2. unfold state_of. cbn [fst snd andb].
    destruct (redis_set_fails E); cbn; split; reflexivity.
  - intros _ [= <-]. exists s2. unfold state_of. cbn [fst snd andb]. split; reflexivity.
Qed.

(** X3. A request whose response was computed by the handler is
    answered from tier 1 when it is asked again within 120 seconds:
    the same result under the id of the asking request, without a
    handler run, an outside call or a change of state. *)
Theorem repeated_request_served_from_memory (E1 E2 : env) (fuel : nat)
    (req again : envelope) (name : string) (s : state) (result : json) :
  valid_envelope req → method req = Some (JStr name) → fresh_only name = false →
  EvHandler name ∈ trace_of (dispatch E1 fuel req s) →
  result_of (dispatch E1 fuel req s) = Ret (ok_response result (id req)) →
  truthy result = true →
  valid_envelope again → method again = method req → params again = params req →
  now E2 ≤ now_after E1 + 120 * 1000 →
  let first := dispatch E1 fuel req s in
  dispatch E2 fuel again (state_of first)
  = (Ret (ok_response result (id again)), state_of first,
     [EvTier1Get (cacheKey (JStr name) (params req))]).
Proof.
  intros Hv Hm Hf Hin Hres Htr Hv' Hm' Hp' Hnow. cbn zeta.
  destruct (dispatch_computed E1 fuel req name s result Hv Hm Hf Hin Hres)
    as (s2 & Hmc & _).
  rewrite Hm in Hm'.
  rewrite (dispatch_run E2 fuel again (JStr name) _ Hv' Hm'), Hp'.
  rewrite (cache_lookup_hit E2 name (params req) (id again) _ result
             (now_after E1 + stdTTL * 1000) Hf);
    [reflexivity|rewrite Hmc; apply lookup_insert_eq|unfold stdTTL; lia|exact Htr].
Qed.

(** X4. Past the 120 seconds of tier 1 and within the 300 seconds of
    tier 2, a result that went to Redis is answered from Redis: the
    entry of tier 1 is dropped, the payload is parsed, written back to
    tier 1 for another 120 seconds and served, without a handler run. *)
Theorem expired_entry_served_from_redis (E1 E2 : env) (fuel : nat)
    (req again : envelope) (name : string) (s : state) (result parsed : json) :
  valid_envelope req → method req = Some (JStr name) → fresh_only name = false →
  EvHandler name ∈ trace_of (dispatch E1 fuel req s) →
  result_of (dispatch E1 fuel req s) = Ret (ok_response result (id req)) →
  redis_configured E1 && redis_ready_after E1 && high_value_name name = true →
  redis_set_fails E1 = None →
  valid_envelope again → method again = method req → params again = params req →
  now_after E1 + 120 * 1000 < now E2 < now_after E1 + 300 * 1000 →
  redis_configured E2 && redis_ready E2 = true → redis_get_fails E2 = None →
  JSON_parse E2 (stringify result) = Some parsed →
  let first := dispatch E1 fuel req s in
  let key := cacheKey (JStr name) (params req) in
  dispatch E2 fuel again (state_of first)
  = (Ret (ok_response parsed (id again)),
     with_tier1 (state_of first) key parsed (now E2 + 120 * 1000),
     [EvTier1Get key; EvTier2Get key; EvTier1Set key parsed]).
Proof.
  intros Hv Hm Hf Hin Hres Ht2 Hset Hv' Hm' Hp' Hnow Hr2 Hget Hparse. cbn zeta.
  destruct (dispatch_computed E1 fuel req name s result Hv Hm Hf Hin Hres)
    as (s2 & Hmc & Hrd).
  rewrite Ht2, Hset in Hrd. cbn in Hrd.
  rewrite Hm in Hm'.
  rewrite (dispatch_run E2 fuel again (JStr name) _ Hv' Hm'), Hp'.
  rewrite (cache_lookup_promote E2 name (params req) (id again) _ result parsed
             (now_after E1 + stdTTL * 1000) (now_after E1 + redisEX * 1000)
             (stringify result) Hf);
    [reflexivity|rewrite Hmc; apply lookup_insert_eq|unfold stdTTL; lia|exact Hr2
    |exact Hget|rewrite Hrd; apply lookup_insert_eq|unfold redisEX; lia
    |apply stringify_nonempty|exact Hparse].
Qed.

(** ** Requests that reach no handler *)

Lemma route_unknown (E : env) (fuel : nat) (name : string) (params : option json)
    (s : state) :
  name ∉ routed_methods → route E fuel (JStr name) params s = (Ret None, s, []).
Proof.
  intros Hn. unfold route.
  assert (Hne : ∀ n, n ∈ routed_methods → String.eqb name n = false).
  { intros n Hin. apply String.eqb_neq. intros ->. contradiction. }
  rewrite !Hne by (unfold routed_methods, modelled_methods; cbn; set_solver).
  destruct (existsb (String.eqb name) other_methods) eqn:Hex; [|reflexivity].
  apply existsb_exists in Hex as (n & Hin & Heq).
  apply String.eqb_eq in Heq. subst n. exfalso. apply Hn.
  unfold routed_methods. apply elem_of_app. right. apply list_elem_of_In, Hin.
Qed.

Section Miss.
Variable E : env.

(** With nothing stored under the key, the lookup only reads. *)
Lemma cache_lookup_miss (name : string) (params id : option json) (s : state) :
  memoryCache s !! cacheKey (JStr name) params = None →
  redis s !! cacheKey (JStr name) params = None →
  ∃ t, cache_lookup E (JStr name) params id s = (Ret None, s, t) ∧
       Forall (fun ev => is_cache_read ev = true) t.
Proof.
  intros H1 H2. unfold cache_lookup. rewrite run_bind, cacheable_str.
  destruct (fresh_only name); cbn [negb];
    [exists []; split; [reflexivity|constructor]|].
  rewrite run_bind. unfold memoryCache_get. run_M. rewrite H1. cbn.
  destruct (redis_configured E && redis_ready E);
    [|eexists; split; [reflexivity|repeat constructor]].
  unfold redisClient_get. run_M.
  destruct (redis_get_fails E); cbn; rewrite ?H2; cbn;
    eexists; (split; [reflexivity|]); repeat constructor.
Qed.
End Miss.


(** ** The context store *)

Lemma same_value_zero_sym (a b : json) : same_value_zero a b = same_value_zero b a.
Proof.
  destruct a, b; cbn; try reflexivity.
  - destruct b, b0; reflexivity.
  - apply Z.eqb_sym.
  - apply String.eqb_sym.
Qed.

Lemma same_value_zero_trans (a b c : json) :
  same_value_zero a b = true → same_value_zero b c = true → same_value_zero a c = true.
Proof.
  destruct a, b; cbn; try discriminate; destruct c; cbn; try discriminate; try reflexivity.
  - destruct b, b0, b1; cbn; congruence.
  - rewrite !Z.eqb_eq. congruence.
  - rewrite !String.eqb_eq. congruence.
Qed.

Lemma same_value_zero_false (a b c : json) :
  same_value_zero a b = true → same_value_zero c a = false → same_value_zero c b = false.
Proof.
  intros Hab Hca. destruct (same_value_zero c b) eqn:Hcb; [|reflexivity].
  rewrite same_value_zero_sym in Hab.
  rewrite (same_value_zero_trans c b a Hcb Hab) in Hca. discriminate.
Qed.

Section Store.
Context {V : Type}.
Implicit Types (m : list (json * V)) (k : json).

Lemma map_get_set_ne k k' (v : V) m :
  same_value_zero k' k = false → map_get k' (map_set k v m) = map_get k' m.
Proof.
  intros Hk. induction m as [|[k0 v0] r IH]; cbn [map_set map_get].
  - rewrite Hk. reflexivity.
  - destruct (same_value_zero k k0) eqn:Hk0; cbn [map_get].
    + rewrite (same_value_zero_false k k0 k' Hk0 Hk). reflexivity.
    + rewrite IH. reflexivity.
Qed.

Lemma map_get_delete_ne k k' m :
  same_value_zero k' k = false → map_get k' (map_delete k m) = map_get k' m.
Proof.
  intros Hk. induction m as [|[k0 v0] r IH]; cbn [map_delete map_get]; [reflexivity|].
  destruct (same_value_zero k k0) eqn:Hk0; cbn [map_get].
  - rewrite (same_value_zero_false k k0 k' Hk0 Hk). reflexivity.
  - rewrite IH. reflexivity.
Qed.

Lemma map_get_None_ne k k' k0 :
  same_value_zero k k0 = true → same_value_zero k' k = false →
  same_value_zero k' k0 = false.
Proof. apply same_value_zero_false. Qed.

Lemma map_get_set_None k k' (v : V) m :
  map_get k' m = None → same_value_zero k' k = false →
  map_get k' (map_set k v m) = None.
Proof. intros H Hk. rewrite map_get_set_ne; assumption. Qed.

Lemma map_get_delete_None k k' m :
  map_get k' m = None → map_get k' (map_delete k m) = None.
Proof.
  induction m as [|[k0 v0] r IH]; cbn [map_delete map_get]; [reflexivity|].
  destruct (same_value_zero k' k0) eqn:Hk0; [discriminate|]. intros H.
  destruct (same_value_zero k k0); [exact H|]. cbn [map_get]. rewrite Hk0. auto.
Qed.
End Store.

Lemma sessions_distinct_set (k : json) (v : list turn) (m : list (json * list turn)) :
  sessions_distinct m → sessions_distinct (map_set k v m).
Proof.
  induction m as [|[k0 v0] r IH]; cbn [map_set sessions_distinct].
  - intros _. split; [reflexivity|exact I].
  - intros [Hk0 Hr]. destruct (same_value_zero k k0) eqn:Hk; cbn [sessions_distinct].
    + split; assumption.
    + split; [|apply IH, Hr]. apply map_get_set_None; [exact Hk0|].
      rewrite same_value_zero_sym. exact Hk.
Qed.

Lemma sessions_distinct_delete (k : json) (m : list (json * list turn)) :
  sessions_distinct m → sessions_distinct (map_delete k m).
Proof.
  induction m as [|[k0 v0] r IH]; cbn [map_delete sessions_distinct]; [trivial|].
  intros [Hk0 Hr]. destruct (same_value_zero k k0); [exact Hr|].
  cbn [sessions_distinct]. split; [apply map_get_delete_None, Hk0|apply IH, Hr].
Qed.

Lemma map_get_delete_eq (k : json) (m : list (json * list turn)) :
  sessions_distinct m → same_value_zero k k = true → map_get k (map_delete k m) = None.
Proof.
  intros Hd Hk. induction m as [|[k0 v0] r IH]; cbn [map_delete map_get]; [reflexivity|].
  destruct Hd as [Hk0 Hr]. destruct (same_value_zero k k0) eqn:Hkk0.
  - destruct (map_get k r) eqn:Hg; [|reflexivity]. exfalso.
    clear IH Hr. induction r as [|[k1 v1] r IH]; [discriminate|].
    cbn [map_get] in Hk0, Hg.
    destruct (same_value_zero k0 k1) eqn:H01; [discriminate|].
    destruct (same_value_zero k k1) eqn:H1; [|auto].
    rewrite same_value_zero_sym in Hkk0.
    rewrite (same_value_zero_trans k0 k k1 Hkk0 H1) in H01. discriminate.
  - cbn [map_get]. rewrite Hkk0. apply IH, Hr.
Qed.

Lemma sessions_bounded_set (k : json) (v : list turn) (m : list (json * list turn)) :
  (length v ≤ 10)%nat → sessions_bounded m → sessions_bounded (map_set k v m).
Proof.
  intros Hv. unfold sessions_bounded.
  induction m as [|[k0 v0] r IH]; cbn [map_set]; intros Hm.
  - constructor; [exact Hv|constructor].
  - apply Forall_cons in Hm as [H0 Hr].
    destruct (same_value_zero k k0); constructor; auto.
Qed.

Lemma sessions_bounded_delete (k : json) (m : list (json * list turn)) :
  sessions_bounded m → sessions_bounded (map_delete k m).
Proof.
  unfold sessions_bounded.
  induction m as [|[k0 v0] r IH]; cbn [map_delete]; intros Hm; [constructor|].
  apply Forall_cons in Hm as [H0 Hr].
  destruct (same_value_zero k k0); [exact Hr|constructor; auto].
Qed.

Lemma stored_turns_length (updated : list turn) : (length (stored_turns updated) ≤ 10)%nat.
Proof.
  unfold stored_turns. destruct (Nat.ltb_spec 10 (length updated)) as [H|H]; [|exact H].
  unfold index0, slice_last. rewrite length_app, length_take, length_drop. lia.
Qed.

Lemma handler_step_store_ok (s s' : state) : handler_step s s' → store_ok s → store_ok s'.
Proof.
  intros [| sid updated | sid] [Hd Hb]; [split; assumption| |]; split; cbn.
  - apply sessions_distinct_set, Hd.
  - apply sessions_bounded_set; [apply stored_turns_length|exact Hb].
  - apply sessions_distinct_delete, Hd.
  - apply sessions_bounded_delete, Hb.
Qed.

(** One request keeps the store in order. *)
Lemma dispatch_store_ok (E : env) (fuel : nat) (req : envelope) (s : state) :
  store_ok s → store_ok (state_of (dispatch E fuel req s)).
Proof.
  intros Hok.
  destruct (envelope_cases req) as [[Hv [m Hm]]|[_ Hinv]]; [|rewrite Hinv; exact Hok].
  rewrite (dispatch_run E fuel req m s Hv Hm).
  destruct (cache_lookup_writes E m (params req) (id req) s) as (_ & _ & _ & _ & Hc1).
  destruct (cache_lookup E m (params req) (id req) s) as [[o1 s1] t1].
  unfold state_of in Hc1 |- *. cbn [fst snd] in *.
  assert (Hok1 : store_ok s1) by (unfold store_ok; rewrite Hc1; exact Hok).
  destruct o1 as [[res|]|err|]; try exact Hok1.
  destruct (route_step E fuel m (params req) s1) as [_ Hstep].
  destruct (route E fuel m (params req) s1) as [[o2 s2] t2].
  unfold state_of in Hstep. cbn [fst snd] in *.
  pose proof (handler_step_store_ok s1 s2 Hstep Hok1) as Hok2.
  destruct o2 as [[result|]|err|]; try exact Hok2.
  destruct (cache_populate_writes E m (params req) result s2) as (_ & _ & _ & Hc3).
  destruct (cache_populate E m (params req) result s2) as [[o3 s3] t3].
  unfold state_of in Hc3. cbn [fst snd] in *.
  assert (Hok3 : store_ok s3) by (unfold store_ok; rewrite Hc3; exact Hok2).
  destruct o3 as [[]|err|]; exact Hok3.
Qed.

(** X6. In a process that starts with an empty context store, whatever
    requests are served, in whatever environments: no session ever
    holds more than ten turns, and no session is held twice. *)
Theorem context_store_stays_bounded (requests : list (env * nat * envelope)) (s : state) :
  contextStore s = [] →
  let store := contextStore (serve requests s) in
  (∀ sid turns, (sid, turns) ∈ store → (length turns ≤ 10)%nat) ∧
  sessions_distinct store.
Proof.
  intros Hs. cbn zeta.
  assert (Hok : store_ok s) by (unfold store_ok; rewrite Hs; split; [exact I|constructor]).
  clear Hs. revert s Hok.
  induction requests as [|[[E fuel] req] rest IH]; intros s Hok; cbn [serve].
  - destruct Hok as [Hd Hb]. split; [|exact Hd].
    intros sid turns Hin. unfold sessions_bounded in Hb. rewrite Forall_forall in Hb.
    apply (Hb (sid, turns) Hin).
  - apply IH, dispatch_store_ok, Hok.
Qed.

(** X7. [clear_context] forgets one session and nothing else: the
    request is answered with the confirmation, touches no cache, and
    afterwards the session has no turns (a generation on it sends the
    prompt alone) while every other session reads as before. *)
Theorem clear_context_forgets (E : env) (fuel : nat) (req : envelope)
    (args sid : json) (s : state) :
  valid_envelope req → method req = Some (JStr "clear_context") →
  params req = Some args → prop args "session_id" = Some sid → truthy sid = true →
  sessions_distinct (contextStore s) →
  let run := dispatch E fuel req s in
  result_of run
  = Ret (ok_response (text_result (JStr "Context cleared successfully")) (id req)) ∧
  trace_of run = [EvHandler "clear_context"] ∧
  memoryCache (state_of run) = memoryCache s ∧ redis (state_of run) = redis s ∧
  (same_value_zero sid sid = true →
     map_get sid (contextStore (state_of run)) = None ∧
     ∀ prompt, sent_messages (state_of run) prompt sid = [mk_turn "user" (JStr prompt)]) ∧
  (∀ k, same_value_zero k sid = false →
     map_get k (contextStore (state_of run)) = map_get k (contextStore s)).
Proof.
  intros Hv Hm Hp Hsid Ht Hd. cbn zeta.
  rewrite (dispatch_run E fuel req (JStr "clear_context") s Hv Hm).
  rewrite (cache_lookup_fresh_only E "clear_context" _ _ s eq_refl).
  assert (Hroute : route E fuel (JStr "clear_context") (params req) s
                   = (Ret (Some (text_result (JStr "Context cleared successfully"))),
                      {| memoryCache := memoryCache s; redis := redis s;
                         contextStore := map_delete sid (contextStore s) |},
                      [EvHandler "clear_context"])).
  { change (route E fuel (JStr "clear_context") (params req))
      with (emit (EvHandler "clear_context");; Some <$> handleClearContext (params req)).
    rewrite run_start, Hp. unfold handleClearContext. rewrite run_bind.
    assert (Hdes : destructure (Some args) s = (Ret args, s, [])).
    { destruct args; try reflexivity. discriminate. }
    rewrite Hdes, Hsid. cbn [truthy_opt default_to]. rewrite Ht. cbn [negb].
    unfold delete_context. run_M. reflexivity. }
  rewrite Hroute.
  rewrite (cache_populate_fresh_only E "clear_context" _ _ _ eq_refl).
  unfold result_of, state_of, trace_of. cbn [fst snd app].
  split; [reflexivity|]. split; [reflexivity|]. split; [reflexivity|].
  split; [reflexivity|]. split.
  - intros Hk. pose proof (map_get_delete_eq sid (contextStore s) Hd Hk) as Hnone.
    split; [exact Hnone|]. intros prompt. unfold sent_messages. cbn [contextStore].
    rewrite Hnone. reflexivity.
  - intros k Hk. apply map_get_delete_ne, Hk.
Qed.

Lemma map_set_fresh {V} (k : json) (v : V) (m : list (json * V)) :
  (∀ k', same_value_zero k k' = false) → map_set k v m = m ++ [(k, v)].
Proof.
  intros Hk. induction m as [|[k0 v0] r IH]; cbn [map_set app]; [reflexivity|].
  rewrite Hk, IH. reflexivity.
Qed.

Lemma map_get_fresh {V} (k : json) (m : list (json * V)) :
  (∀ k', same_value_zero k k' = false) → map_get k m = None.
Proof.
  intros Hk. induction m as [|[k0 v0] r IH]; cbn [map_get]; [reflexivity|].
  rewrite Hk. exact IH.
Qed.

Lemma map_get_app_fresh {V} (k k' : json) (v : V) (m : list (json * V)) :
  same_value_zero k' k = false → map_get k' (m ++ [(k, v)]) = map_get k' m.
Proof.
  intros Hk. induction m as [|[k0 v0] r IH]; cbn [map_get app].
  - rewrite Hk. reflexivity.
  - destruct (same_value_zero k' k0); [reflexivity|exact IH].
Qed.

(** X8. A [session_id] that is an array or an object never finds its
    context: a [Map] compares such keys by identity, and every request
    brings a new value. A generation under such an id sends the prompt
    alone, whatever the store holds, and its two turns are added to
    the store as a binding that no later lookup can read. *)
Theorem unhashable_session_never_recalled (E : env) (g : family) (fuel : nat)
    (args : json) (prompt : string) (sid c : json) (cs : list json) (s : state) :
  g ∈ families E → valid_generate_args args prompt sid →
  (∃ l, sid = JArr l) ∨ (∃ o, sid = JObj o) →
  (0 < fuel)%nat →
  let r := mk_request (default_to (JStr (f_default_model g)) (prop args "model"))
             (default_to (JNum 1000) (prop args "max_tokens"))
             [mk_turn "user" (JStr prompt)] in
  f_create g 0%nat r = Reply (c :: cs) →
  let run := f_handler g fuel (Some args) s in
  let turns := [mk_turn "user" (JStr prompt); mk_turn "assistant" c] in
  result_of run = Ret (text_result c) ∧
  trace_of run = [EvProvider (f_provider g) 0 r] ∧
  contextStore (state_of run) = contextStore s ++ [(sid, turns)] ∧
  ∀ k, map_get k (contextStore (state_of run)) = map_get k (contextStore s).
Proof.
  intros Hg Hv Hsid Hfuel r Hc. cbn zeta.
  assert (Hfresh : ∀ k, same_value_zero sid k = false).
  { intros k. destruct Hsid as [[l ->]|[o ->]]; reflexivity. }
  assert (Hfresh' : ∀ k, same_value_zero k sid = false).
  { intros k. rewrite same_value_zero_sym. apply Hfresh. }
  rewrite (family_is_generate E g Hg), (generate_valid _ _ _ _ _ _ _ _ _ Hv).
  assert (Hsent : sent_request (f_default_model g) s args prompt sid = r).
  { unfold sent_request, sent_messages. rewrite (map_get_fresh sid _ Hfresh). reflexivity. }
  rewrite Hsent. unfold sent_messages. rewrite (map_get_fresh sid _ Hfresh).
  destruct fuel as [|fuel]; [lia|]. rewrite retry_loop_S.
  cbn [Nat.ltb Nat.leb maxAttempts]. rewrite Hc.
  unfold conclude, stored_turns, with_context, result_of, state_of, trace_of.
  cbn [fst snd length app Nat.ltb Nat.leb default contextStore].
  rewrite (map_set_fresh sid _ _ Hfresh).
  split; [reflexivity|]. split; [reflexivity|]. split; [reflexivity|].
  intros k. apply map_get_app_fresh, Hfresh'.
Qed.

(** ** The waits between attempts *)

Section Backoff.
Variable p : provider.
Variable r : completion_request.
Variable create : nat → completion_request → provider_outcome.

Lemma retry_loop_schedule (fuel : nat) (s : state) :
  (3 ≤ fuel)%nat →
  ∃ n, (1 ≤ n ≤ 3)%nat ∧
       trace_of (retry_loop p r create fuel 0 s) = attempts p r n ∧
       (∀ k, (S k < n)%nat → ∃ e, create k r = Fail e ∧ is_retryable e = true) ∧
       (n = 3%nat ∨ (∃ response, create (n - 1)%nat r = Reply response)
        ∨ ∃ e, create (n - 1)%nat r = Fail e ∧ is_retryable e = false).
Proof.
  intros Hfuel. destruct fuel as [|[|[|fuel]]]; try lia.
  rewrite retry_loop_S. cbn [Nat.ltb Nat.leb maxAttempts orb].
  destruct (create 0%nat r) as [c0|e0] eqn:H0.
  { exists 1%nat. split; [lia|]. split; [reflexivity|]. split; [intros k Hk; lia|].
    right. left. exists c0. exact H0. }
  destruct (is_retryable e0) eqn:Hr0; cbn [negb].
  2:{ exists 1%nat. split; [lia|]. split; [reflexivity|]. split; [intros k Hk; lia|].
      right. right. exists e0. split; assumption. }
  rewrite retry_loop_S. cbn [Nat.ltb Nat.leb maxAttempts orb].
  destruct (create 1%nat r) as [c1|e1] eqn:H1.
  { exists 2%nat. split; [lia|]. split; [reflexivity|]. split.
    - intros k Hk. assert (k = 0%nat) as -> by lia. exists e0. split; assumption.
    - right. left. exists c1. exact H1. }
  destruct (is_retryable e1) eqn:Hr1; cbn [negb].
  2:{ exists 2%nat. split; [lia|]. split; [reflexivity|]. split.
      - intros k Hk. assert (k = 0%nat) as -> by lia. exists e0. split; assumption.
      - right. right. exists e1. split; assumption. }
  rewrite retry_loop_S. cbn [Nat.ltb Nat.leb maxAttempts orb].
  exists 3%nat. split; [lia|]. split.
  - destruct (create 2%nat r) as [c2|e2]; reflexivity.
  - split; [|left; reflexivity].
    intros k Hk. assert (k = 0%nat ∨ k = 1%nat) as [->| ->] by lia;
      [exists e0|exists e1]; split; assumption.
Qed.
End Backoff.

(** X9. The effects of a generative call are its attempts and nothing
    else: between one and three completions of the same request, with
    a wait of 2 seconds before the second and of 4 seconds before the
    third (6 seconds at most in all), and no wait after the last. An
    attempt is followed by another exactly when it failed with a
    retryable status and was not the third. *)
Theorem retry_backoff_schedule (E : env) (g : family) (fuel : nat)
    (args : json) (prompt : string) (sid : json) (s : state) :
  g ∈ families E → valid_generate_args args prompt sid → (3 ≤ fuel)%nat →
  let r := sent_request (f_default_model g) s args prompt sid in
  ∃ n, (1 ≤ n ≤ 3)%nat ∧
       trace_of (f_handler g fuel (Some args) s) = attempts (f_provider g) r n ∧
       (∀ k, (S k < n)%nat → ∃ e, f_create g k r = Fail e ∧ retryable_status e) ∧
       (n = 3%nat ∨ (∃ response, f_create g (n - 1)%nat r = Reply response)
        ∨ ∃ e, f_create g (n - 1)%nat r = Fail e ∧ ¬ retryable_status e).
Proof.
  intros Hg Hv Hfuel r.
  rewrite (family_is_generate E g Hg), (generate_valid _ _ _ _ _ _ _ _ _ Hv). fold r.
  destruct (retry_loop_schedule (f_provider g) r (f_create g) fuel s Hfuel)
    as (n & Hn & Htrace & Hbefore & Hlast).
  exists n. split; [exact Hn|]. split.
  - destruct (retry_loop (f_provider g) r (f_create g) fuel 0 s) as [[o s'] t].
    destruct o as [[[|c cs]|]|e'|]; exact Htrace.
  - split.
    + intros k Hk. destruct (Hbefore k Hk) as (e & He & Hr). exists e.
      split; [exact He|]. apply is_retryable_iff, Hr.
    + destruct Hlast as [H|[H|(e & He & Hr)]]; [left; exact H|right; left; exact H|].
      right. right. exists e. split; [exact He|].
      intros Hs. apply is_retryable_iff in Hs. congruence.
Qed.

(** ** The figures of a wallet overview *)

Lemma reduce_sum_priced (price : json → json) (data : list json) (acc : Z) (s : state) :
  Forall (priced price) data →
  reduce_sum price data (SNum acc) s = (Ret (SNum (acc + price_sum price data)), s, []).
Proof.
  revert acc. induction data as [|item rest IH]; intros acc Hp; cbn [reduce_sum price_sum foldr].
  - rewrite Z.add_0_r. reflexivity.
  - apply Forall_cons in Hp as [[Hnn [n Hn]] Hrest].
    fold (price_sum price rest).
    assert (Hstep : reduce_sum price (item :: rest) (SNum acc)
                    = reduce_sum price rest (SNum (acc + n))).
    { cbn [reduce_sum]. rewrite Hn. cbn [js_plus]. destruct item; congruence. }
    cbn [reduce_sum] in Hstep. rewrite Hstep, (IH _ Hrest), Hn. cbn [number_of].
    rewrite Z.add_assoc. reflexivity.
Qed.

Lemma count_and_sum_priced (price : json → json) (result : json) (items : list json)
    (s : state) :
  listing result items → Forall (priced price) items →
  ∃ r, count_and_sum price result s = (Ret r, s, []) ∧
       match r with
       | Some (n, sum) => n = length items ∧ sum = SNum (price_sum price items)
       | None => items = []
       end.
Proof.
  intros [[Ht Hd]|[Hg ->]] Hp; unfold count_and_sum.
  - rewrite Ht, Hd. cbn [truthy_opt truthy andb]. rewrite run_bind.
    rewrite (reduce_sum_priced price items 0 s Hp). cbn.
    eexists. split; [reflexivity|]. split; reflexivity.
  - rewrite Hg. exists None. split; reflexivity.
Qed.


(** ** Cache keys tell requests apart *)

Lemma string_app_cons (c : ascii) (a b : string) : String c a +:+ b = String c (a +:+ b).
Proof. reflexivity. Qed.

Lemma string_app_nil_l (a : string) : EmptyString +:+ a = a.
Proof. reflexivity. Qed.

Ltac str_simpl := rewrite ?string_app_cons, ?string_app_nil_l.
Ltac str_simpl_in H := rewrite ?string_app_cons, ?string_app_nil_l in H.

Lemma string_app_assoc (a b c : string) : (a +:+ b) +:+ c = a +:+ b +:+ c.
Proof. induction a as [|x a IH]; str_simpl; [reflexivity|]. f_equal. exact IH. Qed.

Lemma string_app_nil_r (a : string) : a +:+ EmptyString = a.
Proof. induction a as [|x a IH]; str_simpl; [reflexivity|]. f_equal. exact IH. Qed.

Lemma string_app_prefix (a b x y : string) :
  a +:+ x = b +:+ y → String.prefix a b = true ∨ String.prefix b a = true.
Proof.
  revert b. induction a as [|c a IH]; intros b H.
  - left. destruct b; reflexivity.
  - destruct b as [|c' b]; [right; reflexivity|].
    str_simpl_in H. injection H as -> H. cbn.
    destruct (Ascii.ascii_dec c' c') as [_|Hne]; [|congruence]. apply IH, H.
Qed.

Lemma json_induction (P : json → Prop) :
  P JNull → (∀ b, P (JBool b)) → (∀ n, P (JNum n)) → (∀ s, P (JStr s)) →
  (∀ l, Forall P l → P (JArr l)) →
  (∀ o, Forall (fun kv => P kv.2) o → P (JObj o)) →
  ∀ v, P v.
Proof.
  intros Hnull Hbool Hnum Hstr Harr Hobj. fix IH 1. intros [|b|n|s|l|o].
  - exact Hnull.
  - apply Hbool.
  - apply Hnum.
  - apply Hstr.
  - apply Harr. induction l as [|x l IHl]; constructor; [apply IH|exact IHl].
  - apply Hobj. induction o as [|[k x] o IHo]; constructor; [apply IH|exact IHo].
Qed.

(** *** Numbers *)

Lemma pretty_N_char_digit (x : N) : is_digit (pretty_N_char x) = true.
Proof. unfold pretty_N_char. repeat case_match; reflexivity. Qed.

Lemma pretty_N_go_digits (x : N) (s : string) :
  ∃ d, pretty_N_go x s = d +:+ s ∧ all_digits d = true.
Proof.
  revert s. induction (N.lt_wf_0 x) as [x _ IH]. intros s.
  assert (x = 0 ∨ 0 < x)%N as [->|Hx] by lia.
  - exists EmptyString. rewrite pretty_N_go_0. split; reflexivity.
  - rewrite pretty_N_go_step by exact Hx.
    destruct (IH (x `div` 10)%N (N.div_lt x 10 Hx eq_refl)
                (String (pretty_N_char (x `mod` 10)) s)) as (d & -> & Hd).
    exists (d +:+ String (pretty_N_char (x `mod` 10)) EmptyString). split.
    + rewrite string_app_assoc. reflexivity.
    + clear -Hd. induction d as [|c d IHd]; str_simpl; cbn [all_digits] in *.
      * rewrite pretty_N_char_digit. reflexivity.
      * apply andb_true_iff in Hd as [-> Hd]. cbn [andb]. apply IHd, Hd.
Qed.

Lemma pretty_N_digits (x : N) : all_digits (pretty x) = true ∧ pretty x ≠ EmptyString.
Proof.
  split; [|apply pretty_N_nonempty].
  unfold pretty, pretty_N. destruct (decide (x = 0%N)); [reflexivity|].
  destruct (pretty_N_go_digits x EmptyString) as (d & -> & Hd).
  rewrite string_app_nil_r. exact Hd.
Qed.

(** Two runs of digits, each followed by something that is no digit. *)
Lemma digits_apart (d d' r r' : string) :
  all_digits d = true → all_digits d' = true →
  no_digit_ahead r → no_digit_ahead r' →
  d +:+ r = d' +:+ r' → d = d' ∧ r = r'.
Proof.
  revert d'. induction d as [|c d IH]; intros d' Hd Hd' Hr Hr' H.
  - destruct d' as [|c' d']; [split; [reflexivity|exact H]|].
    str_simpl_in H. subst r. cbn in Hd', Hr. apply andb_true_iff in Hd' as [Hc _]. congruence.
  - destruct d' as [|c' d'].
    + str_simpl_in H. subst r'. cbn in Hd, Hr'. apply andb_true_iff in Hd as [Hc _]. congruence.
    + str_simpl_in H. injection H as -> H. cbn in Hd, Hd'.
      apply andb_true_iff in Hd as [_ Hd]. apply andb_true_iff in Hd' as [_ Hd'].
      destruct (IH d' Hd Hd' Hr Hr' H) as [-> ->]. split; reflexivity.
Qed.

Lemma closes_no_digit (r : string) : closes r → no_digit_ahead r.
Proof. destruct r as [|c r]; [trivial|]. intros [->|[->| ->]]; reflexivity. Qed.

Lemma pretty_positive_apart (x y : positive) (r r' : string) :
  no_digit_ahead r → no_digit_ahead r' →
  pretty x +:+ r = pretty y +:+ r' → x = y ∧ r = r'.
Proof.
  intros Hr Hr' H. unfold pretty, pretty_positive in H.
  destruct (pretty_N_digits (N.pos x)) as [Hx _].
  destruct (pretty_N_digits (N.pos y)) as [Hy _].
  destruct (digits_apart _ _ _ _ Hx Hy Hr Hr' H) as [Heq ->].
  apply (inj pretty) in Heq. injection Heq as ->. split; reflexivity.
Qed.

Lemma pretty_positive_head (x : positive) (r : string) :
  ∃ c t, pretty x +:+ r = String c t ∧ is_digit c = true.
Proof.
  unfold pretty, pretty_positive.
  destruct (pretty_N_digits (N.pos x)) as [Hd Hne].
  destruct (pretty (N.pos x)) as [|c d]; [congruence|].
  cbn in Hd. apply andb_true_iff in Hd as [Hc _]. exists c, (d +:+ r). split; [reflexivity|exact Hc].
Qed.

Lemma pretty_Z_apart (x y : Z) (r r' : string) :
  no_digit_ahead r → no_digit_ahead r' →
  pretty x +:+ r = pretty y +:+ r' → x = y ∧ r = r'.
Proof.
  intros Hr Hr' H. unfold pretty, pretty_Z in H.
  destruct x as [|x|x], y as [|y|y].
  - str_simpl_in H. injection H as ->. split; reflexivity.
  - change "0" with (pretty 0%N) in H.
    destruct (pretty_N_digits 0) as [H0 _]. destruct (pretty_N_digits (N.pos y)) as [Hy _].
    destruct (digits_apart _ _ _ _ H0 Hy Hr Hr' H) as [Heq _].
    apply (inj pretty) in Heq. discriminate.
  - str_simpl_in H. discriminate.
  - change "0" with (pretty 0%N) in H.
    destruct (pretty_N_digits 0) as [H0 _]. destruct (pretty_N_digits (N.pos x)) as [Hx _].
    destruct (digits_apart _ _ _ _ Hx H0 Hr Hr' H) as [Heq _].
    apply (inj pretty) in Heq. discriminate.
  - destruct (pretty_positive_apart x y r r' Hr Hr' H) as [-> ->]. split; reflexivity.
  - destruct (pretty_positive_head x r) as (c & t & Hc & Hd). rewrite Hc in H.
    str_simpl_in H. injection H as -> _. discriminate Hd.
  - str_simpl_in H. discriminate.
  - destruct (pretty_positive_head y r') as (c & t & Hc & Hd). rewrite Hc in H.
    str_simpl_in H. injection H as <- _. discriminate Hd.
  - str_simpl_in H. injection H as H.
    destruct (pretty_positive_apart x y r r' Hr Hr' H) as [-> ->]. split; reflexivity.
Qed.

Lemma pretty_Z_head (x : Z) (r : string) :
  ∃ c t, pretty x +:+ r = String c t ∧ (is_digit c = true ∨ c = "-"%char).
Proof.
  destruct x as [|x|x].
  - exists "0"%char, r. split; [reflexivity|left; reflexivity].
  - destruct (pretty_positive_head x r) as (c & t & Hc & Hd). exists c, t. auto.
  - eexists _, _. split; [reflexivity|right; reflexivity].
Qed.

(** *** Strings *)

Lemma escapes_apart_all : forallb (fun c => forallb (escapes_apart c) all_ascii) all_ascii = true.
Proof. vm_compute. reflexivity. Qed.

Lemma in_all_ascii (c : ascii) : In c all_ascii.
Proof.
  unfold all_ascii. apply in_map_iff. exists (nat_of_ascii c).
  split; [apply ascii_nat_embedding|]. apply in_seq.
  pose proof (nat_ascii_bounded c). lia.
Qed.

Lemma quote_char_apart (c c' : ascii) (x y : string) :
  quote_char c +:+ x = quote_char c' +:+ y → c = c' ∧ x = y.
Proof.
  intros H.
  assert (Hc : c = c').
  { pose proof escapes_apart_all as Hall. rewrite forallb_forall in Hall.
    destruct (string_app_prefix _ _ _ _ H) as [Hp|Hp].
    - pose proof (Hall c (in_all_ascii c)) as Hrow. rewrite forallb_forall in Hrow.
      specialize (Hrow c' (in_all_ascii c')). unfold escapes_apart in Hrow.
      rewrite Hp in Hrow. cbn in Hrow. rewrite orb_false_r in Hrow.
      apply Ascii.eqb_eq, Hrow.
    - pose proof (Hall c' (in_all_ascii c')) as Hrow. rewrite forallb_forall in Hrow.
      specialize (Hrow c (in_all_ascii c)). unfold escapes_apart in Hrow.
      rewrite Hp in Hrow. cbn in Hrow. rewrite orb_false_r in Hrow.
      symmetry. apply Ascii.eqb_eq, Hrow. }
  subst c'. split; [reflexivity|]. apply (inj (String.app (quote_char c))), H.
Qed.

Lemma quote_char_head_all : forallb escape_opens all_ascii = true.
Proof. vm_compute. reflexivity. Qed.

Lemma quote_char_head (c : ascii) (x y : string) : quote_char c +:+ x ≠ dquote +:+ y.
Proof.
  intros H. pose proof quote_char_head_all as Hall. rewrite forallb_forall in Hall.
  specialize (Hall c (in_all_ascii c)). unfold escape_opens in Hall.
  destruct (quote_char c) as [|a q]; [discriminate|].
  unfold dquote in H. str_simpl_in H. injection H as -> _.
  rewrite Ascii.eqb_refl in Hall. discriminate.
Qed.

Lemma quote_body_apart (s s' r r' : string) :
  quote_body s +:+ dquote +:+ r = quote_body s' +:+ dquote +:+ r' → s = s' ∧ r = r'.
Proof.
  revert s'. induction s as [|c s IH]; intros s' H.
  - destruct s' as [|c' s']; cbn [quote_body] in H.
    + str_simpl_in H. apply (inj (String.app dquote)) in H. split; [reflexivity|exact H].
    + rewrite string_app_assoc in H. str_simpl_in H.
      symmetry in H. destruct (quote_char_head _ _ _ H).
  - destruct s' as [|c' s']; cbn [quote_body] in H.
    + rewrite string_app_assoc in H. str_simpl_in H.
      destruct (quote_char_head _ _ _ H).
    + rewrite !string_app_assoc in H.
      apply quote_char_apart in H as [-> H].
      destruct (IH s' H) as [-> ->]. split; reflexivity.
Qed.

Lemma quote_apart (s s' r r' : string) :
  quote s +:+ r = quote s' +:+ r' → s = s' ∧ r = r'.
Proof.
  unfold quote. rewrite !string_app_assoc. intros H.
  apply (inj (String.app dquote)) in H. apply quote_body_apart, H.
Qed.

(** *** Values *)

Lemma stringify_opens (v : json) (r : string) :
  ∃ c t, stringify v +:+ r = String c t ∧ opens v c.
Proof.
  destruct v as [|[]|n|s|l|o]; cbn [stringify opens];
    try (eexists _, _; split; [reflexivity|reflexivity]).
  apply pretty_Z_head.
Qed.

Lemma concat_tail (sep x : string) (l : list string) (r : string) :
  String.concat sep (x :: l) +:+ r = x +:+ seq_tail sep l r.
Proof.
  destruct l as [|y l]; [reflexivity|].
  change (String.concat sep (x :: y :: l))
    with (x +:+ sep +:+ String.concat sep (y :: l)).
  rewrite !string_app_assoc. reflexivity.
Qed.

Section Sequence.
Context {A : Type} (pr : A → string) (close : ascii).
Hypothesis close_closes : ∀ r, closes (String close r).
Hypothesis close_not_comma : close ≠ ","%char.
Hypothesis pr_not_close : ∀ x t t', pr x +:+ t ≠ String close t'.

Lemma seq_tail_closes (l : list string) (r : string) :
  closes (seq_tail "," l (String close r)).
Proof. destruct l; [apply close_closes|left; reflexivity]. Qed.

Lemma sequence_apart (l l' : list A) (r r' : string) :
  Forall (reads_back pr) l →
  String.concat "," (List.map pr l) +:+ String close r
  = String.concat "," (List.map pr l') +:+ String close r' →
  l = l' ∧ r = r'.
Proof.
  revert l'. induction l as [|x l IH]; intros l' Hl H.
  - destruct l' as [|x' l']; cbn [List.map] in H.
    + change (String.concat "," []) with EmptyString in H. str_simpl_in H.
      injection H as ->. split; reflexivity.
    + rewrite concat_tail in H.
      change (String.concat "," []) with EmptyString in H. str_simpl_in H.
      symmetry in H. destruct (pr_not_close _ _ _ H).
  - apply Forall_cons in Hl as [Hx Hl].
    destruct l' as [|x' l']; cbn [List.map] in H; rewrite !concat_tail in H.
    + change (String.concat "," []) with EmptyString in H. str_simpl_in H.
      destruct (pr_not_close _ _ _ H).
    + apply Hx in H as [-> H]; [|apply seq_tail_closes..].
      destruct l as [|y l], l' as [|y' l']; cbn [List.map seq_tail] in H.
      * injection H as ->. split; reflexivity.
      * str_simpl_in H. injection H as H _. contradiction.
      * str_simpl_in H. injection H as H _. symmetry in H. contradiction.
      * str_simpl_in H. injection H as H.
        destruct (IH (y' :: l') Hl H) as [-> ->]. split; reflexivity.
Qed.
End Sequence.

Lemma stringify_not_bracket (v : json) (t t' : string) :
  stringify v +:+ t ≠ String "]" t'.
Proof.
  intros H. destruct (stringify_opens v t) as (c & u & Hc & Ho). rewrite Hc in H.
  injection H as -> _. destruct v as [|[]|n|s|l|o]; cbn in Ho;
    try discriminate Ho. destruct Ho as [Ho|Ho]; discriminate Ho.
Qed.

Lemma stringify_entry_not_brace (kv : string * json) (t t' : string) :
  stringify_entry kv +:+ t ≠ String "}" t'.
Proof.
  unfold stringify_entry, quote, dquote. rewrite !string_app_assoc. str_simpl. discriminate.
Qed.

Lemma stringify_entry_reads_back (kv : string * json) :
  reads_back stringify kv.2 → reads_back stringify_entry kv.
Proof.
  intros Hv [k' v'] t t' Ht Ht' H. destruct kv as [k v]. unfold stringify_entry in H.
  cbn [fst snd] in *. rewrite !string_app_assoc in H.
  apply quote_apart in H as [-> H]. str_simpl_in H. injection H as H.
  apply Hv in H as [-> ->]; [|assumption..]. split; reflexivity.
Qed.

Lemma stringify_JObj (o : list (string * json)) :
  stringify (JObj o)
  = "{" +:+ String.concat "," (List.map stringify_entry o) +:+ "}".
Proof. reflexivity. Qed.

(** A serialization is read back in one way. *)
Lemma stringify_reads_back (v : json) : reads_back stringify v.
Proof.
  induction v as [|b|n|s|l IHl|o IHo] using json_induction; intros v' t t' Ht Ht' H;
    destruct (stringify_opens v' t') as (c & u & Hc & Ho).
  - cbn [stringify] in H. str_simpl_in H. rewrite Hc in H. injection H as <- H.
    destruct v' as [|[]|n'|s'|l'|o']; cbn in Ho; try discriminate Ho;
      [|destruct Ho as [Ho|Ho]; discriminate Ho].
    cbn [stringify] in Hc. str_simpl_in Hc. injection Hc as <-.
    injection H as ->. split; reflexivity.
  - destruct b; cbn [stringify] in H; str_simpl_in H; rewrite Hc in H;
      injection H as <- H;
      (destruct v' as [|[]|n'|s'|l'|o']; cbn in Ho; try discriminate Ho;
       [|destruct Ho as [Ho|Ho]; discriminate Ho]);
      cbn [stringify] in Hc; str_simpl_in Hc; injection Hc as <-;
      injection H as ->; split; reflexivity.
  - pose proof H as H0. destruct (pretty_Z_head n t) as (c0 & u0 & Hc0 & Ho0).
    cbn [stringify] in H0. rewrite Hc0, Hc in H0. injection H0 as -> _.
    destruct v' as [|[]|n'|s'|l'|o']; cbn in Ho; subst;
      try (destruct Ho0 as [Ho0|Ho0]; discriminate Ho0).
    cbn [stringify] in H.
    apply pretty_Z_apart in H as [-> ->]; [split; reflexivity|apply closes_no_digit..];
      assumption.
  - pose proof H as H0.
    assert (Hq : ∃ u0, stringify (JStr s) +:+ t = String (ascii_of_N 34) u0).
    { cbn [stringify]. unfold quote, dquote. str_simpl. eexists. reflexivity. }
    destruct Hq as [u0 Hq]. rewrite Hq, Hc in H0. injection H0 as <- _.
    destruct v' as [|[]|n'|s'|l'|o']; cbn in Ho; try discriminate Ho;
      [destruct Ho as [Ho|Ho]; discriminate Ho|].
    cbn [stringify] in H.
    apply quote_apart in H as [-> ->]. split; reflexivity.
  - cbn [stringify] in H. str_simpl_in H. rewrite Hc in H. injection H as <- H.
    destruct v' as [|[]|n'|s'|l'|o']; cbn in Ho; try discriminate Ho;
      [destruct Ho as [Ho|Ho]; discriminate Ho|].
    cbn [stringify] in Hc. str_simpl_in Hc. injection Hc as <-.
    rewrite !string_app_assoc in H. str_simpl_in H.
    apply (sequence_apart stringify "]") in H as [-> ->];
      [split; reflexivity|intros r; right; left; reflexivity|discriminate
      |apply stringify_not_bracket|exact IHl].
  - rewrite stringify_JObj in H. str_simpl_in H. rewrite Hc in H. injection H as <- H.
    destruct v' as [|[]|n'|s'|l'|o']; cbn in Ho; try discriminate Ho;
      [destruct Ho as [Ho|Ho]; discriminate Ho|].
    rewrite stringify_JObj in Hc. str_simpl_in Hc. injection Hc as <-.
    rewrite !string_app_assoc in H. str_simpl_in H.
    apply (sequence_apart stringify_entry "}") in H as [-> ->];
      [split; reflexivity|intros r; right; right; reflexivity|discriminate
      |apply stringify_entry_not_brace|].
    eapply Forall_impl; [exact IHo|]. intros kv. apply stringify_entry_reads_back.
Qed.

Lemma stringify_inj (v v' : json) : stringify v = stringify v' → v = v'.
Proof.
  intros H. apply (stringify_reads_back v v' EmptyString EmptyString I I).
  rewrite !string_app_nil_r. exact H.
Qed.

Lemma stringify_opt_inj (p p' : option json) : stringify_opt p = stringify_opt p' → p = p'.
Proof.
  destruct p as [v|], p' as [v'|]; cbn [stringify_opt]; intros H.
  - f_equal. apply stringify_inj, H.
  - exfalso. destruct (stringify_opens v EmptyString) as (c & u & Hc & Ho).
    rewrite string_app_nil_r, H in Hc. injection Hc as <- _.
    destruct v as [|[]|n|s|l|o]; cbn in Ho; try discriminate Ho.
    destruct Ho as [Ho|Ho]; discriminate Ho.
  - exfalso. destruct (stringify_opens v' EmptyString) as (c & u & Hc & Ho).
    rewrite string_app_nil_r, <- H in Hc. injection Hc as <- _.
    destruct v' as [|[]|n|s|l|o]; cbn in Ho; try discriminate Ho.
    destruct Ho as [Ho|Ho]; discriminate Ho.
  - reflexivity.
Qed.

Lemma colon_apart (a b x y : string) :
  has_colon a = false → has_colon b = false →
  a +:+ ":" +:+ x = b +:+ ":" +:+ y → a = b ∧ x = y.
Proof.
  revert b. induction a as [|c a IH]; intros b Ha Hb H.
  - destruct b as [|c' b]; str_simpl_in H.
    + injection H as ->. split; reflexivity.
    + injection H as <- _. cbn in Hb. discriminate Hb.
  - destruct b as [|c' b]; str_simpl_in H.
    + injection H as -> _. cbn in Ha. discriminate Ha.
    + injection H as -> H. cbn in Ha, Hb.
      apply orb_false_iff in Ha as [_ Ha]. apply orb_false_iff in Hb as [_ Hb].
      destruct (IH b Ha Hb H) as [-> ->]. split; reflexivity.
Qed.

(** The cache key determines the method and the parameters. *)
Lemma cache_key_inj (name name' : string) (params params' : option json) :
  has_colon name = false → has_colon name' = false →
  cacheKey (JStr name) params = cacheKey (JStr name') params' →
  name = name' ∧ params = params'.
Proof.
  intros Hn Hn' H. unfold cacheKey in H. cbn [to_string] in H.
  apply colon_apart in H as [-> H]; [|assumption..].
  split; [reflexivity|]. apply stringify_opt_inj, H.
Qed.


Lemma routed_methods_no_colon : Forall (fun name => has_colon name = false) routed_methods.
Proof. repeat constructor. Qed.


(** ** The properties above on concrete requests *)

Ltac find_event :=
  match goal with
  | |- ?ev ∈ ?t =>
      let t' := eval vm_compute in t in
      replace t with t' by (vm_compute; reflexivity)
  end;
  repeat first [apply list_elem_of_here | apply list_elem_of_further].

Lemma ex_request_valid (name : string) (params : json) :
  name ≠ EmptyString → valid_envelope (ex_request name params).
Proof.
  intros Hn. repeat split. cbn. destruct name; [contradiction|reflexivity].
Defined.

(** An overview without an address is rejected with -32602. *)
Lemma handler_failures_are_http_500_witness :
  let run := dispatch ex_answering 3 (ex_request "solana_wallet_overview" (JObj [])) ex_empty in
  (∃ result, result_of run = Ret (ok_response result (Some (JNum 1)))) ∨
  (∃ c msg,
     result_of run = Ret {| http_status := 500; body := RpcError c msg (Some (JNum 1)) |} ∧
     ((c = -32602 ∧ Forall (fun ev => is_outside ev = false) (trace_of run)) ∨
      c = -32000 ∨
      (c = -32603 ∧ (Some (JObj []) = None ∨ Some (JObj []) = Some JNull)))).
Proof.
  apply (handler_failures_are_http_500 ex_answering 3
           (ex_request "solana_wallet_overview" (JObj [])) "solana_wallet_overview" ex_empty).
  - apply ex_request_valid. discriminate.
  - reflexivity.
  - unfold modelled_methods.
    repeat first [apply list_elem_of_here | apply list_elem_of_further].
  - lia.
Defined.

(** The overview of wallet A, asked twice. *)
Lemma repeated_request_served_from_memory_witness :
  let req := ex_request "solana_wallet_overview" ex_overview_args in
  let first := dispatch ex_answering 3 req ex_empty in
  dispatch ex_answering 3 req (state_of first)
  = (Ret (ok_response ex_overview_result (Some (JNum 1))), state_of first,
     [EvTier1Get (cacheKey (JStr "solana_wallet_overview") (Some ex_overview_args))]).
Proof.
  apply (repeated_request_served_from_memory ex_answering ex_answering 3
           (ex_request "solana_wallet_overview" ex_overview_args)
           (ex_request "solana_wallet_overview" ex_overview_args)
           "solana_wallet_overview" ex_empty ex_overview_result).
  - apply ex_request_valid. discriminate.
  - reflexivity.
  - reflexivity.
  - find_event.
  - vm_compute. reflexivity.
  - reflexivity.
  - apply ex_request_valid. discriminate.
  - reflexivity.
  - reflexivity.
  - vm_compute. discriminate.
Defined.

(** The same overview, asked again after 198 seconds. *)
Lemma expired_entry_served_from_redis_witness :
  let req := ex_request "solana_wallet_overview" ex_overview_args in
  let first := dispatch ex_answering 3 req ex_empty in
  let key := cacheKey (JStr "solana_wallet_overview") (Some ex_overview_args) in
  dispatch ex_later 3 req (state_of first)
  = (Ret (ok_response ex_overview_result (Some (JNum 1))),
     with_tier1 (state_of first) key ex_overview_result (200000 + 120 * 1000),
     [EvTier1Get key; EvTier2Get key; EvTier1Set key ex_overview_result]).
Proof.
  apply (expired_entry_served_from_redis ex_answering ex_later 3
           (ex_request "solana_wallet_overview" ex_overview_args)
           (ex_request "solana_wallet_overview" ex_overview_args)
           "solana_wallet_overview" ex_empty ex_overview_result ex_overview_result).
  - apply ex_request_valid. discriminate.
  - reflexivity.
  - reflexivity.
  - find_event.
  - vm_compute. reflexivity.
  - reflexivity.
  - reflexivity.
  - apply ex_request_valid. discriminate.
  - reflexivity.
  - reflexivity.
  - vm_compute. split; reflexivity.
  - reflexivity.
  - reflexivity.
  - vm_compute. reflexivity.
Defined.


(** Seven generations in one session: fourteen turns were made, ten
    are held. *)
Lemma context_store_stays_bounded_witness :
  let store :=
    contextStore
      (serve (replicate 7 (ex_answering, 3%nat, ex_request "openai_generate" ex_generate_args))
         ex_empty) in
  (∀ sid turns, (sid, turns) ∈ store → (length turns ≤ 10)%nat) ∧ sessions_distinct store.
Proof.
  apply (context_store_stays_bounded
           (replicate 7 (ex_answering, 3%nat, ex_request "openai_generate" ex_generate_args))
           ex_empty).
  reflexivity.
Defined.

(** Clearing the session of ten turns. *)
Lemma clear_context_forgets_witness :
  let req := ex_request "clear_context" (JObj [("session_id", JStr "s1")]) in
  let run := dispatch ex_answering 3 req ex_long_session in
  result_of run
  = Ret (ok_response (text_result (JStr "Context cleared successfully")) (Some (JNum 1))) ∧
  map_get (JStr "s1") (contextStore (state_of run)) = None ∧
  sent_messages (state_of run) "again" (JStr "s1") = [mk_turn "user" (JStr "again")].
Proof.
  destruct (clear_context_forgets ex_answering 3
              (ex_request "clear_context" (JObj [("session_id", JStr "s1")]))
              (JObj [("session_id", JStr "s1")]) (JStr "s1") ex_long_session)
    as (Hres & _ & _ & _ & Hsid & _).
  - apply ex_request_valid. discriminate.
  - reflexivity.
  - reflexivity.
  - reflexivity.
  - reflexivity.
  - split; [reflexivity|exact I].
  - split; [exact Hres|]. destruct (Hsid eq_refl) as [Hgone Hsent].
    split; [exact Hgone|apply Hsent].
Defined.

Lemma ex_array_session_args_valid :
  valid_generate_args ex_array_session_args "hello" (JArr [JStr "s1"]).
Proof. repeat split; try reflexivity; discriminate. Defined.

(** A generation under the session [["s1"]], twice over: the second
    one finds nothing of the first. *)
Lemma unhashable_session_never_recalled_witness :
  let r := mk_request (JStr "gpt-4o") (JNum 1000) [mk_turn "user" (JStr "hello")] in
  let run := handleOpenAIGenerate ex_answering 3 (Some ex_array_session_args) ex_empty in
  result_of run = Ret (text_result (JStr "hi")) ∧
  trace_of run = [EvProvider OpenAI 0 r] ∧
  contextStore (state_of run)
  = [(JArr [JStr "s1"], [mk_turn "user" (JStr "hello"); mk_turn "assistant" (JStr "hi")])] ∧
  ∀ k, map_get k (contextStore (state_of run)) = None.
Proof.
  apply (unhashable_session_never_recalled ex_answering (openai_family ex_answering) 3
           ex_array_session_args "hello" (JArr [JStr "s1"]) (JStr "hi") [] ex_empty).
  - apply list_elem_of_here.
  - exact ex_array_session_args_valid.
  - left. eexists. reflexivity.
  - lia.
  - reflexivity.
Defined.

(** Against a provider that is rate limited: three attempts, with waits
    of 2 and 4 seconds. *)
Lemma retry_backoff_schedule_witness :
  let r := sent_request "gpt-4o" ex_empty ex_generate_args "hello" (JStr "s1") in
  ∃ n, (1 ≤ n ≤ 3)%nat ∧
       trace_of (handleOpenAIGenerate ex_rate_limited 3 (Some ex_generate_args) ex_empty)
       = attempts OpenAI r n ∧
       (∀ k, (S k < n)%nat →
          ∃ e, openai_create ex_rate_limited k r = Fail e ∧ retryable_status e) ∧
       (n = 3%nat ∨ (∃ response, openai_create ex_rate_limited (n - 1)%nat r = Reply response)
        ∨ ∃ e, openai_create ex_rate_limited (n - 1)%nat r = Fail e ∧ ¬ retryable_status e).
Proof.
  apply (retry_backoff_schedule ex_rate_limited (openai_family ex_rate_limited) 3
           ex_generate_args "hello" (JStr "s1") ex_empty).
  - apply list_elem_of_here.
  - exact ex_generate_args_valid.
  - lia.
Defined.

Ltac safe_numbers :=
  repeat first [ split | constructor ]; unfold MAX_SAFE_INTEGER; cbn; lia.



Import Vybe Analytics AnalyticsFacts.

(* ===================================================================== *)
(** * Properties of the analytics client and of its handlers *)
(* ===================================================================== *)

Ltac run_W :=
  unfold mbind, W_bind, Vybe.bind, Vybe.try_catch, Vybe.ret, Vybe.throw, issue, await, async,
    outcome_of, fetches in *;
  cbn beta iota zeta in *.

Lemma W_bind_run {A B} (m : W A) (k : A → W B) :
  (m ≫= k) =
    match m with
    | (Ok a, t1) => match k a with (r, t2) => (r, t1 ++ t2) end
    | (Err e, t1) => (Err e, t1)
    end.
Proof. reflexivity. Qed.

Lemma W_try_catch_run {A} (m : W A) (h : js_error → W A) :
  Vybe.try_catch m h =
    match m with
    | (Err e, t1) => match h e with (r, t2) => (r, t1 ++ t2) end
    | r => r
    end.
Proof. reflexivity. Qed.

(** ** [_request] *)

Section Request.
Variable V : world.

Lemma getApiKey_missing : key_missing V → _getApiKey V = (Err no_api_key, []).
Proof. unfold _getApiKey. intros [->| ->]; reflexivity. Qed.

Lemma getApiKey_set (k : string) :
  VYBE_API_KEY V = Some k → k ≠ EmptyString → _getApiKey V = (Ok k, []).
Proof.
  intros Hk Hne. unfold _getApiKey. rewrite Hk.
  apply String.eqb_neq in Hne. rewrite Hne. reflexivity.
Qed.

Lemma key_cases :
  key_missing V ∨ ∃ k, VYBE_API_KEY V = Some k ∧ k ≠ EmptyString.
Proof.
  unfold key_missing. destruct (VYBE_API_KEY V) as [k|]; [|left; left; reflexivity].
  destruct (String.eqb_spec k EmptyString) as [->|Hne]; [left; right; reflexivity|].
  right. exists k. split; [reflexivity|exact Hne].
Qed.

(** Without a key nothing is sent. *)
Lemma request_offline (path method : string) (queryParams body : argument) :
  key_missing V → _request V path method queryParams body = (Ok (Rejected no_api_key), []).
Proof. intros Hk. unfold _request. rewrite W_bind_run, (getApiKey_missing Hk). reflexivity. Qed.

End Request.
Section RequestOnline.
Variable V : world.
Variable k : string.
Hypothesis key_set : VYBE_API_KEY V = Some k.
Hypothesis key_not_empty : k ≠ EmptyString.

(** With a key, one request is sent, and the promise settles on the
    answer to it. *)
Lemma request_online (path method : string) (queryParams body : argument) :
  ∃ q p,
    _request V path method queryParams body = (Ok p, [q]) ∧
    href q = _BASE_URL +:+ path ∧ http_method q = method ∧ api_key_header q = k ∧
    searchParams q = match queryParams with Object o => append_defined o | _ => [] end ∧
    request_body q
    = match body with
      | Object o =>
          if String.eqb method "POST"
          then Some (stringify (JObj (omap (fun kv => pair kv.1 <$> kv.2) o)))
          else None
      | _ => None
      end ∧
    (∀ v, p = Resolved v →
       ∃ r, fetch V q = Responds r ∧ 200 ≤ res_status r ≤ 299 ∧
            ((res_status r = 204 ∧ v = JObj []) ∨
             (res_status r ≠ 204 ∧ res_json r = Read v))) ∧
    (∀ e, p = Rejected e →
       starts_with (failed_for path) (message e) ∧ code e = None ∧ httpCode e = None).
Proof.
  unfold _request. rewrite W_bind_run, (getApiKey_set V k key_set key_not_empty).
  match goal with
  | |- context [fetch V ?q0] => set (q := q0)
  end.
  assert (Hwrap : ∀ msg : string,
            starts_with (failed_for path)
              ("Vybe API request failed for path " +:+ path +:+ ": " +:+ msg)).
  { intros msg. exists msg. unfold failed_for.
    rewrite !string_app_assoc. reflexivity. }
  exists q. rewrite W_try_catch_run, W_bind_run. unfold issue at 1.
  destruct (fetch V q) as [r|e] eqn:Hf.
  - unfold res_ok. destruct (Z.leb_spec 200 (res_status r)) as [H200|H200];
      destruct (Z.leb_spec (res_status r) 299) as [H299|H299]; cbn [andb negb].
    + destruct (Z.eqb_spec (res_status r) 204) as [H204|H204].
      * eexists. split; [reflexivity|]. repeat (split; [reflexivity|]). split.
        -- intros v [= <-]. exists r. split; [reflexivity|]. split; [lia|]. left. auto.
        -- intros e [=].
      * destruct (res_json r) as [v|e] eqn:Hj; run_W.
        -- eexists. split; [reflexivity|]. repeat (split; [reflexivity|]). split.
           ++ intros v' [= <-]. exists r. split; [reflexivity|]. split; [lia|]. right. auto.
           ++ intros e [=].
        -- eexists. split; [reflexivity|]. repeat (split; [reflexivity|]). split.
           ++ intros v [=].
           ++ intros e' [= <-]. split; [apply Hwrap|split; reflexivity].
    + unfold api_error. destruct (res_json r) as [v|e]; [|destruct (res_text r) as [t|e']];
        run_W; eexists; (split; [reflexivity|]); repeat (split; [reflexivity|]);
        (split; [intros v' [=]|]); intros e0 [= <-];
        (split; [apply Hwrap|split; reflexivity]).
    + unfold api_error. destruct (res_json r) as [v|e]; [|destruct (res_text r) as [t|e']];
        run_W; eexists; (split; [reflexivity|]); repeat (split; [reflexivity|]);
        (split; [intros v' [=]|]); intros e0 [= <-];
        (split; [apply Hwrap|split; reflexivity]).
    + lia.
  - run_W. eexists. split; [reflexivity|]. repeat (split; [reflexivity|]). split.
    + intros v [=].
    + intros e' [= <-]. split; [apply Hwrap|split; reflexivity].
Qed.

(** A response with status 200 and a JSON body resolves to the body. *)
Lemma request_resolves (path method : string) (queryParams body : argument)
    (q : fetch_request) (v : json) :
  q = {| href := _BASE_URL +:+ path;
         searchParams := match queryParams with Object o => append_defined o | _ => [] end;
         http_method := method; api_key_header := k;
         request_body :=
           match body with
           | Object o =>
               if String.eqb method "POST"
               then Some (stringify (JObj (omap (fun kv => pair kv.1 <$> kv.2) o)))
               else None
           | _ => None
           end |} →
  fetch V q = json_response 200 v →
  _request V path method queryParams body = (Ok (Resolved v), [q]).
Proof.
  intros Hq Hf. unfold _request.
  rewrite W_bind_run, (getApiKey_set V k key_set key_not_empty).
  cbn zeta. rewrite <- Hq. rewrite W_try_catch_run, W_bind_run. unfold issue at 1.
  rewrite Hf. reflexivity.
Qed.
End RequestOnline.
(** ** How an analytics handler fails *)

Lemma W_try_catch_coded {A} (m : W A) (prefix : string) (c : Z) (e : js_error) :
  outcome_of (Vybe.try_catch m
                (fun error => Vybe.throw (coded_error (prefix +:+ message error) c)))
  = Err e →
  ∃ msg, e = coded_error (prefix +:+ msg) c.
Proof.
  rewrite W_try_catch_run. destruct m as [[a|err] t]; [discriminate|].
  unfold Vybe.throw, outcome_of. cbn [fst]. intros [= <-]. eexists. reflexivity.
Qed.

Lemma destructure_args (args : json) :
  args ≠ JNull → Analytics.destructure (Some args) = (Ok args, []).
Proof. destruct args; try reflexivity. congruence. Qed.

Lemma truthy_prop_not_null (args : json) (k : string) :
  truthy_opt (prop args k) = true → args ≠ JNull.
Proof. intros H ->. discriminate H. Qed.

Ltac unfold_handler :=
  cbv delta [handleSolanaWalletTokens handleSolanaWalletNFTs handleSolanaWalletPnL
             handleSolanaProgramDetails handleSolanaProgramMetrics
             handleSolanaMarketSentiment handleSolanaNetworkActivity];
  cbn beta.

(** X13. Each analytics handler that takes parameters checks them before
    anything else: without a parameter object it fails with a
    [TypeError] that carries no code (-32603 at the dispatcher);
    without its required parameter it throws code -32602 with its own
    message; in both cases nothing was sent to the analytics API. Once
    the parameter is there, whatever goes wrong (in the client, in the
    network, in the payload) is thrown with code -32000 under the
    prefix of the handler. *)
Theorem analytics_parameters_checked_first (V : world) (m : analytics_method)
    (params : option json) :
  m ∈ analytics_methods →
  let run := a_handler m V params in
  (params = None ∨ params = Some JNull →
     ∃ e, run = (Err e, []) ∧ code e = None ∧ httpCode e = None) ∧
  (∀ args, params = Some args → args ≠ JNull →
     truthy_opt (prop args (a_required m)) = false →
     run = (Err (coded_error (a_missing m) (-32602)), [])) ∧
  (∀ args, params = Some args → truthy_opt (prop args (a_required m)) = true →
     ∀ e, outcome_of run = Err e → ∃ msg, e = coded_error (a_prefix m +:+ msg) (-32000)).
Proof.
  unfold analytics_methods. rewrite !elem_of_cons, elem_of_nil.
  intros [->|[->|[->|[->|[->|[]]]]]]; cbn [a_handler a_required a_missing a_prefix]; cbn zeta.
  all: split; [intros [->| ->]; (eexists; split; [reflexivity|split; reflexivity])|].
  all: split;
    [intros args -> Hnn Hf;
     unfold_handler;
     rewrite W_bind_run, (destructure_args args Hnn); cbn beta iota zeta;
     rewrite Hf; reflexivity|].
  all: intros args -> Ht e;
    unfold_handler;
    rewrite W_bind_run, (destructure_args args (truthy_prop_not_null _ _ Ht));
    cbn beta iota zeta; rewrite Ht; cbn [negb app];
    match goal with
    | |- context [Vybe.try_catch ?b ?h] =>
        destruct (Vybe.try_catch b h) as [o t] eqn:Htc
    end;
    intros Ho;
    match type of Htc with
    | Vybe.try_catch ?b (fun error => Vybe.throw (coded_error (?p +:+ message error) ?c)) = _ =>
        apply (W_try_catch_coded b p c e)
    end; rewrite Htc; exact Ho.
Qed.
(** ** Without the API key *)

Lemma promise_all_same (V : world) (e : js_error) (n : nat) :
  Analytics.promise_all V (replicate (S n) (Rejected e)) = (Err e, []).
Proof.
  unfold Analytics.promise_all.
  assert (Hr : rejections (replicate (S n) (Rejected e)) = replicate (S n) e).
  { unfold rejections. induction (S n) as [|k IH]; [reflexivity|].
    cbn [replicate]. cbn. f_equal. exact IH. }
  rewrite Hr. cbn [replicate].
  change (e :: replicate n e) with (replicate (S n) e).
  destruct (replicate (S n) e !! first_rejected V) as [e'|] eqn:Hl; cbn [default].
  - apply lookup_replicate in Hl as [-> _]. reflexivity.
  - reflexivity.
Qed.

(** X14. Without [VYBE_API_KEY] (unset or empty) no analytics handler
    sends anything: each call of the client is rejected before
    [fetch], and the handler throws code -32000 under its prefix. *)
Theorem analytics_needs_the_api_key (V : world) :
  key_missing V →
  (∀ m args, m ∈ analytics_methods →
     truthy_opt (prop args (a_required m)) = true →
     fetches (a_handler m V (Some args)) = [] ∧
     ∃ msg, outcome_of (a_handler m V (Some args))
            = Err (coded_error (a_prefix m +:+ msg) (-32000))) ∧
  (∀ name h prefix, (name, h, prefix) ∈ plain_methods V →
     h = (Err (coded_error (prefix +:+ message no_api_key) (-32000)), [])).
Proof.
  intros Hk. split.
  - intros m args Hm Ht. revert Ht. revert Hm.
    unfold analytics_methods. rewrite !elem_of_cons, elem_of_nil.
    intros [->|[->|[->|[->|[->|[]]]]]]; cbn [a_handler a_required a_prefix]; intros Ht;
      unfold_handler;
      rewrite W_bind_run, (destructure_args args (truthy_prop_not_null _ _ Ht));
      cbn beta iota zeta; rewrite Ht; cbn [negb app].
    + unfold getWalletTokens. rewrite Ht. cbn [negb].
      rewrite (request_offline V _ _ _ _ Hk). split; [reflexivity|].
      eexists. reflexivity.
    + unfold getWalletNfts. rewrite Ht. cbn [negb].
      rewrite (request_offline V _ _ _ _ Hk). split; [reflexivity|].
      eexists. reflexivity.
    + unfold getWalletPnl. rewrite Ht. cbn [negb].
      rewrite (request_offline V _ _ _ _ Hk). split; [reflexivity|].
      eexists. reflexivity.
    + unfold getProgramDetails. rewrite Ht. cbn [negb].
      rewrite (request_offline V _ _ _ _ Hk). split; [reflexivity|].
      eexists. reflexivity.
    + unfold getProgramInstructionsCountTimeSeries, getProgramTransactionsCountTimeSeries,
        getProgramActiveUsersTimeSeries. rewrite Ht. cbn [negb].
      destruct (lacks _ "range"); [split; [reflexivity|eexists; reflexivity]|].
      rewrite !(request_offline V _ _ _ _ Hk).
      rewrite !W_try_catch_run, !W_bind_run.
      change [Rejected no_api_key; Rejected no_api_key; Rejected no_api_key]
        with (replicate 3 (Rejected no_api_key)).
      rewrite (promise_all_same V no_api_key 2).
      split; [reflexivity|]. eexists. reflexivity.
  - intros name h prefix. unfold plain_methods. rewrite !elem_of_cons, elem_of_nil.
    intros [[= -> -> ->]|[[= -> -> ->]|[]]]; unfold_handler; unfold getProgramRanking;
      rewrite (request_offline V _ _ _ _ Hk); reflexivity.
Qed.

(** ** Query parameters *)

Lemma append_defined_spec (o : properties) (name s : string) :
  (name, s) ∈ append_defined o ↔
  ∃ v, (name, Some v) ∈ o ∧ v ≠ JNull ∧ s = to_string v.
Proof.
  induction o as [|[key v] rest IH]; cbn [append_defined].
  - split; [intros H; apply elem_of_nil in H; destruct H|].
    intros (v & H & _). apply elem_of_nil in H. destruct H.
  - assert (Hskip : forwarded v = false →
              ((name, s) ∈ append_defined rest ↔
               ∃ v0, (name, Some v0) ∈ (key, v) :: rest ∧ v0 ≠ JNull ∧ s = to_string v0)).
    { intros Hf. rewrite IH. split; intros (v0 & Hin & Hnn & Hs); exists v0.
      - split; [apply list_elem_of_further, Hin|auto].
      - apply elem_of_cons in Hin as [[= -> <-]|Hin]; [|auto].
        destruct v0; try discriminate Hf. congruence. }
    destruct v as [[| | | | |]|]; try (apply Hskip; reflexivity);
      (rewrite elem_of_cons, IH; split;
       [intros [[= -> ->]|(v0 & Hin & Hnn & Hs)];
        [eexists; split; [apply list_elem_of_here|split; [discriminate|reflexivity]]
        |exists v0; split; [apply list_elem_of_further, Hin|auto]]
       |intros (v0 & Hin & Hnn & Hs); apply elem_of_cons in Hin as [[= -> <-]|Hin];
        [left; subst s; reflexivity|right; exists v0; auto]]).
Qed.

(** ** Listings *)

Ltac step_W :=
  unfold mbind, W_bind;
  cbn [Vybe.bind Vybe.try_catch Vybe.ret Vybe.throw await issue app].

Lemma for_each_lines (line : nat → json → W string) (text_of : nat → json → string)
    (index : nat) (items : list json) (acc : string) :
  (∀ i x, x ≠ JNull → line i x = (Ok (text_of i x), [])) →
  Forall (fun x => x ≠ JNull) items →
  for_each line index items acc
  = (Ok (acc +:+ String.concat EmptyString (imap (fun j => text_of (index + j)%nat) items)), []).
Proof.
  intros Hline. revert index acc.
  induction items as [|x items IH]; intros index acc Hitems; cbn [for_each imap].
  - change (String.concat EmptyString []) with EmptyString.
    rewrite string_app_nil_r. reflexivity.
  - apply Forall_cons in Hitems as [Hx Hitems].
    rewrite W_bind_run, (Hline index x Hx), (IH (S index) _ Hitems).
    cbn [app]. f_equal. f_equal. rewrite string_app_assoc. f_equal.
    rewrite Nat.add_0_r.
    assert (Himap : imap ((fun j => text_of (index + j)%nat) ∘ S) items
                    = imap (fun j => text_of (S index + j)%nat) items).
    { apply imap_ext. intros j y _. cbn. f_equal. lia. }
    rewrite Himap.
    destruct (imap (fun j => text_of (S index + j)%nat) items) as [|l ls] eqn:Hl.
    + change (String.concat EmptyString [text_of index x]) with (text_of index x).
      change (String.concat EmptyString []) with EmptyString.
      rewrite string_app_nil_r. reflexivity.
    + reflexivity.
Qed.

Lemma nft_line_text (i : nat) (x : json) :
  x ≠ JNull → nft_line i x = (Ok (nft_text i x), []).
Proof. intros Hx. destruct x; try reflexivity. congruence. Qed.

Lemma listing_of_items (V : world) (line : nat → json → W string)
    (text_of : nat → json → string) (empty : string) (result : json) (items : list json) :
  (∀ i x, x ≠ JNull → line i x = (Ok (text_of i x), [])) →
  prop result "data" = Some (JArr items) → Forall (fun x => x ≠ JNull) items →
  listing_of V line empty result
  = (Ok (match items with
         | [] => empty
         | _ => String.concat EmptyString (imap text_of items)
         end), []).
Proof.
  intros Hline Hd Hitems. unfold listing_of. rewrite Hd.
  cbn [truthy length_above_zero andb].
  destruct items as [|x items]; [reflexivity|].
  change (0 <? length (x :: items))%nat with true. cbn iota.
  rewrite (for_each_lines line text_of 0 (x :: items) EmptyString Hline Hitems).
  reflexivity.
Qed.

(** ** Totals *)

Lemma reduce_count_counted (data : list json) (acc : Z) :
  Forall counted data →
  reduce_count data (TNum acc) = (Ok (TNum (acc + count_sum data)), []).
Proof.
  revert acc. induction data as [|d rest IH]; intros acc Hd; cbn [reduce_count count_sum foldr].
  - rewrite Z.add_0_r. reflexivity.
  - apply Forall_cons in Hd as [[n Hn] Hrest]. fold (count_sum rest).
    assert (Hstep : reduce_count (d :: rest) (TNum acc) = reduce_count rest (TNum (acc + n))).
    { cbn [reduce_count]. rewrite Hn. destruct d; try reflexivity. discriminate Hn. }
    cbn [reduce_count] in Hstep. rewrite Hstep, (IH _ Hrest), Hn. cbn [default number_of].
    rewrite Z.add_assoc. reflexivity.
Qed.

Lemma reduce_count_nan (data : list json) :
  Forall (fun d => counted d ∨ uncounted d) data →
  reduce_count data TNaN = (Ok TNaN, []).
Proof.
  induction data as [|d rest IH]; intros Hd; [reflexivity|].
  apply Forall_cons in Hd as [Hd Hrest].
  assert (Hnn : d ≠ JNull).
  { destruct Hd as [[n Hn]|[Hnn _]]; [intros ->; discriminate Hn|exact Hnn]. }
  assert (Hstep : reduce_count (d :: rest) TNaN = reduce_count rest (plus TNaN (prop d "count"))).
  { cbn [reduce_count]. destruct d; try reflexivity. congruence. }
  rewrite Hstep.
  assert (Hplus : plus TNaN (prop d "count") = TNaN).
  { destruct Hd as [[n ->]|[_ ->]]; reflexivity. }
  rewrite Hplus. apply IH, Hrest.
Qed.

Lemma reduce_count_missing (data : list json) (acc : Z) :
  Forall (fun d => counted d ∨ uncounted d) data → Exists uncounted data →
  reduce_count data (TNum acc) = (Ok TNaN, []).
Proof.
  revert acc. induction data as [|d rest IH]; intros acc Hd Hex.
  - apply Exists_nil in Hex. destruct Hex.
  - apply Forall_cons in Hd as [Hd Hrest].
    assert (Hnn : d ≠ JNull).
    { destruct Hd as [[n Hn]|[Hnn _]]; [intros ->; discriminate Hn|exact Hnn]. }
    assert (Hstep : reduce_count (d :: rest) (TNum acc)
                    = reduce_count rest (plus (TNum acc) (prop d "count"))).
    { cbn [reduce_count]. destruct d; try reflexivity. congruence. }
    rewrite Hstep.
    destruct Hd as [[n Hn]|Hu].
    + rewrite Hn. cbn [plus]. apply IH; [exact Hrest|].
      apply Exists_cons in Hex as [[_ Hu]|Hex]; [congruence|exact Hex].
    + destruct Hu as [_ Hu]. rewrite Hu. cbn [plus]. apply reduce_count_nan, Hrest.
Qed.

Lemma count_total_counted (V : world) (result : json) (data : list json) :
  prop result "data" = Some (JArr data) → Forall counted data →
  count_total V result = (Ok (toLocaleString V (JNum (count_sum data))), []).
Proof.
  intros Hd Hc. unfold count_total. rewrite Hd, W_bind_run.
  rewrite (reduce_count_counted data 0 Hc). reflexivity.
Qed.

Lemma series_resolves (V : world) (k : string) (program_id range r : json)
    (suffix : string) :
  VYBE_API_KEY V = Some k → k ≠ EmptyString → truthy range = true →
  fetch V (series_request k program_id range suffix) = json_response 200 r →
  _request V ("/program/" +:+ to_string program_id +:+ suffix) "GET"
    (Object [("range", Some range)]) Null
  = (Ok (Resolved r), [series_request k program_id range suffix]).
Proof.
  intros Hk Hne Hr Hf. apply (request_resolves V k Hk Hne); [|exact Hf].
  unfold series_request. destruct range; try reflexivity. discriminate Hr.
Qed.

(** ** The activity of the network *)

Lemma add_programs_measured (data : list json) (a b c : Z) :
  Forall measured data →
  add_programs data (SNum a, SNum b, SNum c)
  = (Ok (SNum (a + activity_sum "instructionCount24h" data),
         SNum (b + activity_sum "transactionCount24h" data),
         SNum (c + activity_sum "userCount24h" data)), []).
Proof.
  revert a b c. induction data as [|p rest IH]; intros a b c Hd.
  - cbn [add_programs activity_sum foldr]. rewrite !Z.add_0_r. reflexivity.
  - apply Forall_cons in Hd as [(Hnn & [x Hx] & [y Hy] & [z Hz]) Hrest].
    assert (Hstep : add_programs (p :: rest) (SNum a, SNum b, SNum c)
                    = add_programs rest (SNum (a + x), SNum (b + y), SNum (c + z))).
    { unfold activity_of in Hx, Hy, Hz. cbn [add_programs]. rewrite Hx, Hy, Hz.
      destruct p; try reflexivity. congruence. }
    rewrite Hstep, (IH _ _ _ Hrest). unfold activity_sum. cbn [foldr].
    rewrite Hx, Hy, Hz. cbn [number_of]. rewrite !Z.add_assoc. reflexivity.
Qed.

Lemma listing_resolves (V : world) (k path : string) (o : properties) (v : json) :
  VYBE_API_KEY V = Some k → k ≠ EmptyString →
  fetch V (listing_request k path (append_defined o)) = json_response 200 v →
  _request V path "GET" (Object o) Null
  = (Ok (Resolved v), [listing_request k path (append_defined o)]).
Proof.
  intros Hk Hne Hf. apply (request_resolves V k Hk Hne); [reflexivity|exact Hf].
Qed.

(** X19. The activity of the network is asked with one request, for the
    ten programs with the most instructions. When it is answered with
    a 200 whose [data] is an array of programs with integers for the
    three counts (a missing or zero count is 0), the counts and their
    running totals being safe integers, the text gives the three sums
    over the array and the number of its programs; without [data] the
    three totals and the number of programs are 0. *)
Theorem network_activity_totals (V : world) (k : string) (result : json) :
  VYBE_API_KEY V = Some k → k ≠ EmptyString →
  let q := listing_request k "/program/ranking"
             [("limit", "10"); ("sortByDesc", "instructionCount24h")] in
  fetch V q = json_response 200 result →
  (∀ data,
     prop result "data" = Some (JArr data) → Forall measured data →
     safe_sum (activity_terms "instructionCount24h" data) →
     safe_sum (activity_terms "transactionCount24h" data) →
     safe_sum (activity_terms "userCount24h" data) →
     handleSolanaNetworkActivity V
     = (Ok (activity_text V (activity_sum "instructionCount24h" data)
              (activity_sum "transactionCount24h" data)
              (activity_sum "userCount24h" data) (length data)), [q])) ∧
  (truthy_opt (prop result "data") = false →
     handleSolanaNetworkActivity V = (Ok (activity_text V 0 0 0 0), [q])).
Proof.
  intros Hk Hne q Hf.
  assert (Hreq : getProgramRanking V
                   (Object [("limit", Some (JNum 10));
                            ("sortByDesc", Some (JStr "instructionCount24h"))])
                 = (Ok (Resolved result), [q])).
  { unfold getProgramRanking. cbn [or_empty].
    exact (listing_resolves V k "/program/ranking"
             [("limit", Some (JNum 10)); ("sortByDesc", Some (JStr "instructionCount24h"))]
             result Hk Hne Hf). }
  split.
  - intros data Hd Hm _ _ _. unfold handleSolanaNetworkActivity. rewrite Hreq. step_W.
    rewrite Hd. cbn [truthy_opt truthy].
    rewrite (add_programs_measured data 0 0 0 Hm). cbn [app]. rewrite !Z.add_0_l.
    reflexivity.
  - intros Hfalse. unfold handleSolanaNetworkActivity. rewrite Hreq. step_W.
    rewrite Hfalse. step_W.
    destruct (prop result "data") as [[]|]; try reflexivity. discriminate Hfalse.
Qed.
(** ** The market sentiment *)

(** A request that is answered resolves with the answer. *)
Lemma request_answered (V : world) (k path method : string) (queryParams body : argument)
    (q : fetch_request) (v : json) :
  VYBE_API_KEY V = Some k → k ≠ EmptyString →
  q = {| href := _BASE_URL +:+ path;
         searchParams := match queryParams with Object o => append_defined o | _ => [] end;
         http_method := method; api_key_header := k;
         request_body :=
           match body with
           | Object o =>
               if String.eqb method "POST"
               then Some (stringify (JObj (omap (fun kv => pair kv.1 <$> kv.2) o)))
               else None
           | _ => None
           end |} →
  answered V q v →
  _request V path method queryParams body = (Ok (Resolved v), [q]).
Proof.
  intros Hk Hne Hq (r & Hf & Hok & Hcase). unfold _request.
  rewrite W_bind_run, (getApiKey_set V k Hk Hne).
  cbn zeta. rewrite <- Hq. rewrite W_try_catch_run, W_bind_run. unfold issue at 1.
  rewrite Hf, Hok. cbn [negb].
  destruct Hcase as [[H204 ->]|[Hn204 Hj]].
  - rewrite H204. reflexivity.
  - apply Z.eqb_neq in Hn204. rewrite Hn204, Hj. reflexivity.
Qed.

(** With a key, a GET request without body sends one request; it
    resolves with what the request is answered with, and what it
    rejects with names the path. *)
Lemma request_settled (V : world) (k path : string) (o : properties) :
  VYBE_API_KEY V = Some k → k ≠ EmptyString →
  let q := listing_request k path (append_defined o) in
  ∃ p, _request V path "GET" (Object o) Null = (Ok p, [q]) ∧
       (∀ v, p = Resolved v → answered V q v) ∧
       (∀ e, p = Rejected e → ∃ msg, message e = failed_for path +:+ msg).
Proof.
  intros Hk Hne q.
  destruct (request_online V k Hk Hne path "GET" (Object o) Null)
    as (q' & p & Hrun & Hh & Hm & Hkey & Hs & Hb & Hres & Hrej).
  assert (Hq : q' = q).
  { destruct q' as [h sp m a b]. cbn in Hh, Hm, Hkey, Hs, Hb. subst. reflexivity. }
  subst q'. exists p. split; [exact Hrun|]. split.
  - intros v Hv. destruct (Hres v Hv) as (r & Hf & Hst & Hcase).
    exists r. split; [exact Hf|]. split; [|exact Hcase].
    unfold res_ok. apply andb_true_iff. split; apply Z.leb_le; lia.
  - intros e He. destruct (Hrej e He) as [[msg Hmsg] _]. exists msg. exact Hmsg.
Qed.

Lemma for_each_quiet (line : nat → json → W string) (index : nat) (items : list json)
    (acc : string) :
  (∀ i x, fetches (line i x) = []) → fetches (for_each line index items acc) = [].
Proof.
  intros Hline. revert index acc.
  induction items as [|x items IH]; intros index acc; [reflexivity|].
  cbn [for_each]. rewrite W_bind_run.
  pose proof (Hline index x) as Hx. destruct (line index x) as [[l|e] t]; cbn in Hx; subst t.
  - pose proof (IH (S index) (acc +:+ l)) as Hrest.
    destruct (for_each line (S index) items (acc +:+ l)) as [r t]. cbn in Hrest. subst t.
    reflexivity.
  - reflexivity.
Qed.

Lemma listing_of_quiet (V : world) (line : nat → json → W string) (empty : string)
    (result : json) :
  (∀ i x, fetches (line i x) = []) → fetches (listing_of V line empty result) = [].
Proof.
  intros Hline. unfold listing_of.
  destruct (prop result "data") as [data|]; [|reflexivity].
  destruct (truthy data && length_above_zero V data); [|reflexivity].
  destruct data; try reflexivity. apply for_each_quiet, Hline.
Qed.

Lemma program_line_text (i : nat) (x : json) :
  x ≠ JNull → program_line i x = (Ok (program_text i x), []).
Proof. intros Hx. destruct x; try reflexivity. congruence. Qed.

Lemma sentiment_token_line_text (V : world) (i : nat) (x : json) :
  x ≠ JNull → sentiment_token_line V i x = (Ok (sentiment_token_text V i x), []).
Proof.
  intros Hx. unfold sentiment_token_line, sentiment_token_text.
  destruct x; try congruence; reflexivity.
Qed.

Lemma program_line_quiet (i : nat) (x : json) : fetches (program_line i x) = [].
Proof. destruct x; reflexivity. Qed.

Lemma sentiment_token_line_quiet (V : world) (i : nat) (x : json) :
  fetches (sentiment_token_line V i x) = [].
Proof. destruct x; reflexivity. Qed.

(** ** The handlers behind the dispatcher *)

Lemma route_other (E : env) (fuel : nat) (name : string) (params : option json)
    (s : state) :
  name ∈ other_methods →
  route E fuel (JStr name) params s = start_handler name (run_other E name params s).
Proof.
  intros Hin. unfold route.
  assert (Hex : existsb (String.eqb name) other_methods = true).
  { apply existsb_exists. exists name. split; [apply list_elem_of_In, Hin|].
    apply String.eqb_refl. }
  assert (Hne : ∀ n, n ∈ modelled_methods → String.eqb name n = false).
  { intros n Hn. apply String.eqb_neq. intros ->. revert Hin Hn.
    unfold other_methods, modelled_methods. rewrite !elem_of_cons, !elem_of_nil.
    intros Hin Hn.
    repeat match goal with
           | H : _ ∨ _ |- _ => destruct H as [H|H]
           end; try contradiction; subst; discriminate. }
  rewrite !Hne by (unfold modelled_methods; rewrite !elem_of_cons; tauto).
  rewrite Hex. apply run_start.
Qed.

Lemma analytics_handler_named (V : world) (name : string) (params : option json)
    (run : W json) :
  analytics_handler V name params = Some run →
  name ∈ other_methods ∧ fresh_only name = false ∧
  (high_value_name name = true → name = "solana_program_details").
Proof.
  unfold analytics_handler, analytics_methods, plain_methods.
  cbn [List.find a_name fst snd].
  repeat match goal with
         | |- context [String.eqb name ?n] =>
             destruct (String.eqb_spec name n) as [->|?];
             [intros _; split; [unfold other_methods; rewrite !elem_of_cons; tauto|];
              split; [reflexivity|]; vm_compute; first [reflexivity|discriminate]|]
         end.
  discriminate.
Qed.

(** X21. An analytics method through the dispatcher, with nothing cached
    under the key of the request: the handler is run; what it returns
    is answered with HTTP 200 and kept in tier 1 for 120 seconds (in
    tier 2 only for [solana_program_details]); what it throws is
    answered as the error says, and the server keeps nothing. *)
Theorem analytics_through_the_gateway (V : world) (E : env) (fuel : nat) (req : envelope)
    (name : string) (run : W json) (s : state) :
  valid_envelope req → method req = Some (JStr name) →
  analytics_handler V name (params req) = Some run →
  let key := cacheKey (JStr name) (params req) in
  memoryCache s !! key = None → redis s !! key = None →
  let answer := dispatch (with_analytics V E) fuel req s in
  EvHandler name ∈ trace_of answer ∧
  match outcome_of run with
  | Ok result =>
      result_of answer = Ret (ok_response result (id req)) ∧
      memoryCache (state_of answer)
      = <[key := (result, now_after E + stdTTL * 1000)]> (memoryCache s) ∧
      (name ≠ "solana_program_details" → redis (state_of answer) = redis s)
  | Err e =>
      result_of answer = Ret (error_response e (id req)) ∧ state_of answer = s
  end.
Proof.
  intros Hv Hm Hrun key H1 H2 answer.
  destruct (analytics_handler_named V name (params req) run Hrun) as (Hin & Hfresh & Hhv).
  unfold answer. rewrite (dispatch_run _ fuel req (JStr name) s Hv Hm).
  destruct (cache_lookup_miss (with_analytics V E) name (params req) (id req) s H1 H2)
    as (t & -> & _).
  rewrite (route_other _ fuel name (params req) s Hin).
  unfold run_other. cbn [other_handler with_analytics]. rewrite Hrun.
  destruct run as [[result|e] tr]; cbn [outcome_of fst start_handler].
  - unfold Gateway.ret. cbn [start_handler].
    rewrite (cache_populate_run _ name (params req) result s Hfresh).
    cbn [redis_configured redis_ready_after redis_set_fails now_after with_analytics].
    fold key. unfold result_of, state_of, trace_of.
    destruct (high_value_name name) eqn:Hh.
    + destruct (redis_configured E && redis_ready_after E); cbn [andb fst snd].
      * split; [rewrite !elem_of_app, !elem_of_cons; tauto|].
        split; [reflexivity|]. split; [destruct (redis_set_fails E); reflexivity|].
        intros Hne. exfalso. apply Hne, Hhv. reflexivity.
      * split; [rewrite !elem_of_app, !elem_of_cons; tauto|].
        split; [reflexivity|]. split; reflexivity.
    + rewrite andb_false_r. cbn [fst snd].
      split; [rewrite !elem_of_app, !elem_of_cons; tauto|].
      split; [reflexivity|]. split; reflexivity.
  - unfold Gateway.throw. cbn [start_handler].
    unfold result_of, state_of, trace_of. cbn [fst snd].
    split; [rewrite !elem_of_app, !elem_of_cons; tauto|]. split; reflexivity.
Qed.

(** ** The properties of the analytics side on concrete requests *)

(** A wallet listing without an address. *)
Lemma analytics_parameters_checked_first_witness :
  handleSolanaWalletTokens (ex_vybe (Some "key")) (Some (JObj [("limit", JNum 5)]))
  = (Err (coded_error "Wallet address is required" (-32602)), []).
Proof.
  destruct (analytics_parameters_checked_first (ex_vybe (Some "key"))
              (mk_method "solana_wallet_tokens" handleSolanaWalletTokens "address"
                 "Wallet address is required" "Error fetching Solana tokens: ")
              (Some (JObj [("limit", JNum 5)]))) as (_ & Hmissing & _).
  - apply list_elem_of_here.
  - apply (Hmissing (JObj [("limit", JNum 5)])); [reflexivity|discriminate|reflexivity].
Defined.

(** The market sentiment of a process without its key. *)
Lemma analytics_needs_the_api_key_witness :
  handleSolanaMarketSentiment (ex_vybe None)
  = (Err (coded_error
            ("Error fetching market sentiment: " +:+ message no_api_key) (-32000)), []).
Proof.
  destruct (analytics_needs_the_api_key (ex_vybe None)) as [_ Hplain].
  - left. reflexivity.
  - apply (Hplain "solana_market_sentiment"). apply list_elem_of_here.
Defined.





(** The activity of the two programs of the ranking. *)
Lemma network_activity_totals_witness :
  handleSolanaNetworkActivity (ex_vybe (Some "key"))
  = (Ok (text_result (JStr (
           "Solana Network Activity (last 24h):" +:+ nl +:+ nl +:+
           "Instructions: 5,004" +:+ nl +:+
           "Transactions: 2" +:+ nl +:+
           "Active Users: 1" +:+ nl +:+ nl +:+
           "Note: This data represents activity from the 2 most active programs."))),
     [listing_request "key" "/program/ranking"
        [("limit", "10"); ("sortByDesc", "instructionCount24h")]]).
Proof.
  destruct (network_activity_totals (ex_vybe (Some "key")) "key"
              (JObj [("data", JArr ex_programs)])) as [Htotals _].
  - reflexivity.
  - discriminate.
  - reflexivity.
  - rewrite (Htotals ex_programs).
    + reflexivity.
    + reflexivity.
    + repeat constructor; try discriminate; eexists; reflexivity.
    + safe_numbers.
    + safe_numbers.
    + safe_numbers.
Defined.


(** The NFTs of wallet A through the dispatcher. *)
Lemma analytics_through_the_gateway_witness :
  let req := ex_request "solana_wallet_nfts" (JObj [("address", JStr "A")]) in
  let answer := dispatch (with_analytics (ex_vybe (Some "key")) ex_answering) 3 req ex_empty in
  EvHandler "solana_wallet_nfts" ∈ trace_of answer ∧
  result_of answer
  = Ret (ok_response
           (text_result (JStr (
              "NFTs in wallet A:" +:+ nl +:+ "1. Ape ($5)" +:+ nl +:+ "2. NFT (No valuation)")))
           (Some (JNum 1))).
Proof.
  destruct (analytics_through_the_gateway (ex_vybe (Some "key")) ex_answering 3
              (ex_request "solana_wallet_nfts" (JObj [("address", JStr "A")]))
              "solana_wallet_nfts"
              (handleSolanaWalletNFTs (ex_vybe (Some "key"))
                 (Some (JObj [("address", JStr "A")])))
              ex_empty) as [Hran Hanswer].
  - apply ex_request_valid. discriminate.
  - reflexivity.
  - reflexivity.
  - reflexivity.
  - reflexivity.
  - split; [exact Hran|]. apply Hanswer.
Defined.
